(** * Onion relay network of schedule-4-real: a shallow embedding

    The relay, tracker, rendezvous, gossip and rate-limiting modules of
    [src/services/relay] are re-stated here as Rocq functions and their
    behaviour is proved.  The JavaScript modules keep their state in
    module-level [Map]s; here every operation takes the state it reads and
    returns the state it leaves, and [Date.now()] is an explicit argument
    [now].

    Conventions
    - a JavaScript number holding milliseconds is a [Z]; the one place where
      the code multiplies by 1.5 uses [Q];
    - a [Buffer] is a [list byte];
    - a JavaScript string is a [string] (one [ascii] per code unit, which
      covers the protocol's ASCII alphabet);
    - a [Map] whose iteration order is never observed is a [gmap]; the
      tracker's room tables, whose iteration order decides pagination, and
      the circuit registry, which the TTL sweep walks in order, are
      insertion-ordered association lists ([OMap]). *)

From Stdlib Require Import ZArith QArith Qround Ascii.
From Stdlib.Strings Require Import Byte.
From stdpp Require Import gmap strings list pretty.

Local Open Scope Z_scope.


(* ===================================================================== *)
(** * JavaScript [Map] with its insertion order *)
(* ===================================================================== *)

(** A [Map] iterates in insertion order: [set] on a present key keeps the
    key's position, [set] on an absent key appends, [delete] removes.  The
    model is an association list in that order; [wf] says keys are unique,
    which [set] and [delete] keep. *)
Module OMap.
Abbreviation t K V := (list (K * V)) (only parsing).

Section Ops.
Context {K : Type} `{EqDecision K} {V : Type}.
Local Abbreviation t := (list (K * V)) (only parsing).

Definition empty : t := [].

Fixpoint get (k : K) (m : t) : option V :=
      match m with
      | [] => None
      | (k', v) :: m' => if decide (k' = k) then Some v else get k m'
      end.

Definition has (k : K) (m : t) : bool :=
      match get k m with Some _ => true | None => false end.

Fixpoint set (k : K) (v : V) (m : t) : t :=
      match m with
      | [] => [(k, v)]
      | (k', v') :: m' =>
          if decide (k' = k) then (k, v) :: m' else (k', v') :: set k v m'
      end.

Definition delete (k : K) (m : t) : t :=
      filter (λ e, e.1 ≠ k) m.

Definition size (m : t) : nat := length m.

Definition keys (m : t) : list K := m.*1.

Definition wf (m : t) : Prop := NoDup (keys m).

    (** [for (const [k, v] of m) if (drop k v) m.delete(k)]: deleting the
        entry being visited does not disturb the iteration. *)
Definition deleteWhere (drop : K → V → bool) (m : t) : t :=
      filter (λ e, drop e.1 e.2 = false) m.

End Ops.
End OMap.

(* ===================================================================== *)
(** * rate-limit.cjs — per-origin sliding window *)
(* ===================================================================== *)

Module RateLimit.

  (** [ip → { timestamps: number[], blocked: number }]; [blocked] is the
      epoch at which the origin is unblocked, [0] meaning "not blocked". *)
Record bucket := Bucket { timestamps : list Z; blocked : Z }.

Definition MAX_TRACKED_IPS : Z := 50000.

Definition fresh_bucket : bucket := Bucket [] 0.

  (** The calls a limiter object receives: [check(ip)] at a given clock
      value, and the 60-second cleanup timer firing. *)
Inductive call := Check (ip : string) (now : Z) | Cleanup (now : Z).

Definition call_time (c : call) : Z :=
    match c with Check _ now => now | Cleanup now => now end.

Section Limiter.
    (** [createRateLimiter(maxRequests, windowMs)] *)
Variables (maxRequests windowMs : Z).

    (** [bucket.blocked && bucket.blocked > now] *)
Definition isBlocked (now : Z) (b : bucket) : bool :=
      bool_decide (blocked b ≠ 0) && bool_decide (now < blocked b).

    (** [timestamps.filter(t => t > windowStart)] *)
Definition slide (now : Z) (ts : list Z) : list Z :=
      filter (λ t, now - windowMs < t) ts.

    (** The body of [check] once the bucket object is at hand. *)
Definition judge (now : Z) (b : bucket) : bool * bucket :=
      if isBlocked now b then (false, b)
      else
        let ts := slide now (timestamps b) in
        if bool_decide (maxRequests ≤ Z.of_nat (length ts))
        then (false, Bucket ts (now + windowMs))
        else (true, Bucket (ts ++ [now]) 0).

Definition check (ip : string) (now : Z) (bs : gmap string bucket)
      : bool * gmap string bucket :=
      match bs !! ip with
      | Some b => let r := judge now b in (r.1, <[ip := r.2]> bs)
      | None =>
          if bool_decide (MAX_TRACKED_IPS ≤ Z.of_nat (size bs)) then (false, bs)
          else let r := judge now fresh_bucket in (r.1, <[ip := r.2]> bs)
      end.

    (** One bucket's turn in the cleanup timer: [None] is [buckets.delete]. *)
Definition sweep (now : Z) (b : bucket) : option bucket :=
      if isBlocked now b then Some b
      else
        match filter (λ t, now - windowMs * 2 < t) (timestamps b) with
        | [] => None
        | fresh => Some (Bucket fresh (blocked b))
        end.

Definition cleanup (now : Z) (bs : gmap string bucket) : gmap string bucket :=
      omap (sweep now) bs.

    (** [reset()] *)
Definition reset (bs : gmap string bucket) : gmap string bucket := ∅.

Definition step (c : call) (bs : gmap string bucket) : gmap string bucket :=
      match c with
      | Check ip now => (check ip now bs).2
      | Cleanup now => cleanup now bs
      end.

    (** State after a sequence of calls, oldest first. *)
Definition exec (cs : list call) (bs : gmap string bucket) : gmap string bucket :=
      foldl (λ s c, step c s) bs cs.

    (** How many [check(o)] calls of the sequence returned [true]. *)
Fixpoint accepted (o : string) (cs : list call) (bs : gmap string bucket) : nat :=
      match cs with
      | [] => 0%nat
      | c :: cs' =>
          (match c with
           | Check ip now =>
               if bool_decide (ip = o) && (check ip now bs).1 then 1%nat else 0%nat
           | Cleanup _ => 0%nat
           end + accepted o cs' (step c bs))%nat
      end.

    (** Timestamps currently held for origin [o]. *)
Definition stamps (o : string) (bs : gmap string bucket) : list Z :=
      from_option timestamps [] (bs !! o).

    (** Those of them that a check at time [t] would still count. *)
Definition recent (o : string) (t : Z) (bs : gmap string bucket) : nat :=
      length (slide t (stamps o bs)).

    (** The state holds nothing about [o] from after [t]: every recorded
        timestamp is at most [t] and a block, if any, ends by [t + window]. *)
Definition settled (o : string) (t : Z) (bs : gmap string bucket) : Prop :=
      ∀ b, bs !! o = Some b →
        Forall (λ x, x ≤ t) (timestamps b) ∧ isBlocked (t + windowMs) b = false.

    (** A call that is not a check by [o]: a check by another origin, or the
        cleanup timer firing. *)
Definition not_by (o : string) (c : call) : Prop :=
      match c with Check ip _ => ip ≠ o | Cleanup _ => True end.

    (** Calls that reach the limiter during the window that ends at [t]. *)
Definition in_window (t : Z) (c : call) : Prop :=
      t - windowMs < call_time c ∧ call_time c ≤ t.

    (** The limiter holds a bucket for [o], or has room for one more. *)
Definition has_room_for (o : string) (bs : gmap string bucket) : Prop :=
      is_Some (bs !! o) ∨ Z.of_nat (size bs) < MAX_TRACKED_IPS.

    (** The behaviour promised for one origin: once [maxRequests] checks
        were accepted inside the window ending at [t], the check at [t] is
        refused; and a check made one full window after that refusal
        ([t' ≥ t + windowMs]), whatever checks by other origins and whatever
        cleanup runs came in between, is accepted exactly if the limiter
        still holds a bucket for the origin or has room for one. *)
Definition window_contract : Prop :=
      ∀ o t t' bs cs others,
        settled o t bs →
        Forall (in_window t) cs →
        maxRequests ≤ Z.of_nat (accepted o cs bs) →
        Forall (not_by o) others →
        t + windowMs ≤ t' →
        let r := check o t (exec cs bs) in
        r.1 = false
        ∧ ((check o t' (exec others r.2)).1 = true
           ↔ has_room_for o (exec others r.2)).

End Limiter.

  (** A table with 50,000 tracked origins, and one origin it does not hold. *)
Definition crowd : gmap string bucket :=
    list_to_map ((λ n : nat, (pretty n, fresh_bucket)) <$> seq 0 (Z.to_nat 50000)).
Definition newcomer : string := pretty (Z.to_nat 50000).

End RateLimit.

(* ===================================================================== *)
(** * Buffers and sockets *)
(* ===================================================================== *)

(** Node's [Buffer] operations used by the relay modules. *)
Module Buf.
Abbreviation buffer := (list byte) (only parsing).

Definition octet (b : byte) : Z := Z.of_N (Byte.to_N b).

  (** [buf[i] = v] stores [v & 255]. *)
Definition of_octet (z : Z) : byte :=
    default x00 (Byte.of_N (Z.to_N (z mod 256))).

  (** [buf.readUInt16BE(off)]; [None] is the [RangeError] of a read past
      the end. *)
Definition readUInt16BE (data : buffer) (off : nat) : option Z :=
    hi ← data !! off; lo ← data !! S off;
    Some (octet hi * 256 + octet lo).

Definition readUInt32BE (data : buffer) (off : nat) : option Z :=
    a ← data !! off; b ← data !! (off + 1)%nat;
    c ← data !! (off + 2)%nat; d ← data !! (off + 3)%nat;
    Some (((octet a * 256 + octet b) * 256 + octet c) * 256 + octet d).

  (** [buf.writeUInt16BE(v)] on a fresh 2-byte buffer; [None] is the
      [RangeError] for a value outside [0, 65535]. *)
Definition writeUInt16BE (v : Z) : option buffer :=
    if bool_decide (0 ≤ v ∧ v < 65536)
    then Some [of_octet (v / 256); of_octet v] else None.

Definition writeUInt32BE (v : Z) : option buffer :=
    if bool_decide (0 ≤ v ∧ v < 4294967296)
    then Some [of_octet (v / 16777216); of_octet (v / 65536);
               of_octet (v / 256); of_octet v]
    else None.

  (** [buf.subarray(from, to)]: both ends are clamped to the buffer. *)
Definition subarray (from to : nat) (data : buffer) : buffer :=
    take (to - from) (drop from data).

  (** [src.copy(dst, at)] into a zero-filled region of [n] bytes: what fits is
    copied, the rest stays zero. *)
Definition copyInto (n : nat) (src : buffer) : buffer :=
  take n src ++ replicate (n - length src) x00.

(** [buf.fill(0)] *)
Definition fill0 (data : buffer) : buffer := replicate (length data) x00.

Definition hexDigit (n : Z) : ascii :=
    default "0"%char (String.get (Z.to_nat n) "0123456789abcdef").

  (** [buf.toString('hex')] *)
Fixpoint toHex (data : buffer) : string :=
    match data with
    | [] => EmptyString
    | b :: rest =>
        String (hexDigit (octet b / 16)) (String (hexDigit (octet b mod 16)) (toHex rest))
    end.

  (** [Buffer.from(s, 'utf8')] and [buf.toString('utf8')] for ASCII text:
      one byte per character.  This is what Node does for bytes and code
      units below 128 only; for the others Node encodes and decodes UTF-8
      (an invalid byte becomes U+FFFD, three bytes when written back), which
      these two functions do not follow.  The protocol's strings are relay
      URLs, and what is proved about their bytes is stated for ASCII text. *)
Definition ofString (s : string) : buffer :=
    (λ c, default x00 (Byte.of_N (N_of_ascii c))) <$> String.list_ascii_of_string s.
Definition toString (data : buffer) : string :=
    String.string_of_list_ascii ((λ b, ascii_of_N (Byte.to_N b)) <$> data).

Definition hexValue (c : ascii) : option Z :=
  let n := Z.of_N (N_of_ascii c) in
  if bool_decide (48 ≤ n ∧ n ≤ 57) then Some (n - 48)
  else if bool_decide (97 ≤ n ∧ n ≤ 102) then Some (n - 87)
  else if bool_decide (65 ≤ n ∧ n ≤ 70) then Some (n - 55)
  else None.

(** [Buffer.from(s, 'hex')]: pairs of hex digits, cut at the first pair that
    is not one. *)
Fixpoint ofHexChars (cs : list ascii) : buffer :=
  match cs with
  | c1 :: c2 :: rest =>
      match hexValue c1, hexValue c2 with
      | Some hi, Some lo => of_octet (hi * 16 + lo) :: ofHexChars rest
      | _, _ => []
      end
  | _ => []
  end.

Definition ofHex (s : string) : buffer := ofHexChars (String.list_ascii_of_string s).

Definition base64Digit (n : Z) : ascii :=
  default "A"%char
    (String.get (Z.to_nat n)
       "ABCDEFGHIJKLMNOPQRSTUVWXYZabcdefghijklmnopqrstuvwxyz0123456789+/").

(** [buf.toString('base64')] *)
Fixpoint toBase64Chars (data : buffer) : list ascii :=
  match data with
  | a :: b :: c :: rest =>
      let n := (octet a * 256 + octet b) * 256 + octet c in
      base64Digit (n / 262144) :: base64Digit (n / 4096 mod 64)
        :: base64Digit (n / 64 mod 64) :: base64Digit (n mod 64)
        :: toBase64Chars rest
  | [a; b] =>
      let n := (octet a * 256 + octet b) * 4 in
      [base64Digit (n / 4096); base64Digit (n / 64 mod 64);
       base64Digit (n mod 64); "="%char]
  | [a] =>
      let n := octet a * 16 in
      [base64Digit (n / 64); base64Digit (n mod 64); "="%char; "="%char]
  | [] => []
  end.

Definition toBase64 (data : buffer) : string :=
  String.string_of_list_ascii (toBase64Chars data).

(** Value of a base64 digit, in the standard or the URL-safe alphabet. *)
Definition unbase64 (c : ascii) : option Z :=
  let n := Z.of_N (N_of_ascii c) in
  if bool_decide (65 ≤ n ∧ n ≤ 90) then Some (n - 65)
  else if bool_decide (97 ≤ n ∧ n ≤ 122) then Some (n - 71)
  else if bool_decide (48 ≤ n ∧ n ≤ 57) then Some (n + 4)
  else if bool_decide (n = 43 ∨ n = 45) then Some 62
  else if bool_decide (n = 47 ∨ n = 95) then Some 63
  else None.

(** The digits of a base64 text: everything up to the first ['='], other
    characters skipped. *)
Fixpoint sextets (cs : list ascii) : list Z :=
  match cs with
  | [] => []
  | c :: rest =>
      if bool_decide (c = "="%char) then []
      else match unbase64 c with
           | Some v => v :: sextets rest
           | None => sextets rest
           end
  end.

Fixpoint ofSextets (vs : list Z) : buffer :=
  match vs with
  | a :: b :: c :: d :: rest =>
      let n := ((a * 64 + b) * 64 + c) * 64 + d in
      of_octet (n / 65536) :: of_octet (n / 256) :: of_octet n :: ofSextets rest
  | [a; b; c] =>
      let n := (a * 64 + b) * 64 + c in
      [of_octet (n / 1024); of_octet (n / 4)]
  | [a; b] => [of_octet ((a * 64 + b) / 16)]
  | _ => []
  end.

(** [Buffer.from(s, 'base64')] *)
Definition ofBase64 (s : string) : buffer :=
  ofSextets (sextets (String.list_ascii_of_string s)).

End Buf.

(** WebSocket handles: what the relay can observe of a socket is its
    [readyState]; what it does to one is [send] and [close]. *)
Module Net.
Abbreviation ws := nat (only parsing).

Inductive effect :=
  | WsSend (w : ws) (data : list byte)
  | WsClose (w : ws).

Record net := Net { readyState : gmap nat nat; wire : list effect }.

Definition OPEN : nat := 1.
Definition CLOSING : nat := 2.
Definition CLOSED : nat := 3.

Definition ready (n : net) (w : ws) : nat := default CLOSED (readyState n !! w).

Definition send (w : ws) (data : list byte) (n : net) : net :=
    Net (readyState n) (wire n ++ [WsSend w data]).

Definition close (w : ws) (n : net) : net :=
    Net (<[w := CLOSING]> (readyState n)) (wire n ++ [WsClose w]).
End Net.

(* ===================================================================== *)
(** * circuits.cjs — circuit state management *)
(* ===================================================================== *)

Module Circuits.
Import Buf Net.

  (** A circuit object.  [rendezvousPairId] is [null] or a circuit id. *)
Record circuit := Circuit {
    circuitId : Z;
    rx : list byte;
    tx : list byte;
    inboundWs : nat;
    outboundWs : option nat;
    lastActivity : Z;
    nextHop : option string;
    rendezvousPairId : option Z;
  }.

Definition touch (now : Z) (c : circuit) : circuit :=
    Circuit (circuitId c) (rx c) (tx c) (inboundWs c) (outboundWs c) now
            (nextHop c) (rendezvousPairId c).

Definition zeroKeys (c : circuit) : circuit :=
    Circuit (circuitId c) (fill0 (rx c)) (fill0 (tx c)) (inboundWs c)
            (outboundWs c) (lastActivity c) (nextHop c) (rendezvousPairId c).

Definition setPair (p : option Z) (c : circuit) : circuit :=
    Circuit (circuitId c) (rx c) (tx c) (inboundWs c) (outboundWs c)
            (lastActivity c) (nextHop c) p.

Definition setOutbound (w : option nat) (hop : option string) (c : circuit)
    : circuit :=
    Circuit (circuitId c) (rx c) (tx c) (inboundWs c) w
            (lastActivity c) hop (rendezvousPairId c).

  (** The module state.  Circuit objects live in [heap] and are shared by
      reference: the registry [circuits] (the module's [Map], in insertion
      order) maps a circuit id to the object's address, and an object stays
      reachable by whoever still holds it after [circuits.delete]. *)
Record state := State {
    heap : gmap nat circuit;
    circuits : list (Z * nat);
    nextLoc : nat;
    maxCircuits : Z;
    sessionTtl : Z;
    net : Net.net;
  }.

Definition initial : state :=
    State ∅ [] 0%nat 10000 300000 (Net ∅ []).

Definition withHeap (h : gmap nat circuit) (s : state) : state :=
    State h (circuits s) (nextLoc s) (maxCircuits s) (sessionTtl s) (net s).
Definition withCircuits (m : list (Z * nat)) (s : state) : state :=
    State (heap s) m (nextLoc s) (maxCircuits s) (sessionTtl s) (net s).
Definition withNet (n : Net.net) (s : state) : state :=
    State (heap s) (circuits s) (nextLoc s) (maxCircuits s) (sessionTtl s) n.

  (** Mutation of the object at address [l]. *)
Definition modify (l : nat) (f : circuit → circuit) (s : state) : state :=
    withHeap (alter f l (heap s)) s.

  (** The object registered under an id. *)
Definition lookup (cid : Z) (s : state) : option circuit :=
    l ← OMap.get cid (circuits s); heap s !! l.

  (** [if (opts.x) x = opts.x]: a missing or zero option leaves the value. *)
Definition configure (optMaxCircuits optSessionTtl : option Z) (s : state) : state :=
    let mc := match optMaxCircuits with
              | Some v => if bool_decide (v ≠ 0) then v else maxCircuits s
              | None => maxCircuits s end in
    let ttl := match optSessionTtl with
               | Some v => if bool_decide (v ≠ 0) then v else sessionTtl s
               | None => sessionTtl s end in
    State (heap s) (circuits s) (nextLoc s) mc ttl (net s).

Definition registerCircuit (cid : Z) (rx tx : list byte) (inbound : nat)
      (now : Z) (s : state) : bool * state :=
    if bool_decide (maxCircuits s ≤ Z.of_nat (OMap.size (circuits s)))
    then (false, s)
    else
      let l := nextLoc s in
      (true,
       State (<[l := Circuit cid rx tx inbound None now None None]> (heap s))
             (OMap.set cid l (circuits s)) (S l)
             (maxCircuits s) (sessionTtl s) (net s)).

  (** Returns the address of the circuit object, with its activity stamp
      refreshed. *)
Definition getCircuit (cid : Z) (now : Z) (s : state) : option nat * state :=
    match OMap.get cid (circuits s) with
    | Some l => (Some l, modify l (touch now) s)
    | None => (None, s)
    end.

  (** [if (circuit.outboundWs && circuit.outboundWs.readyState <= 1)
        circuit.outboundWs.close()] *)
Definition closeOutbound (c : circuit) (s : state) : state :=
    match outboundWs c with
    | Some w => if bool_decide (ready (net s) w ≤ 1)%nat
                then withNet (close w (net s)) s else s
    | None => s
    end.

  (** [if (circuit.rendezvousPairId)]: [null] and the number [0] are both
      falsy. *)
Definition truthyPair (c : circuit) : option Z :=
    match rendezvousPairId c with
    | Some p => if bool_decide (p ≠ 0) then Some p else None
    | None => None
    end.

  (** [destroyCircuit] calls itself for the rendezvous partner; [fuel]
      bounds the depth of that recursion and [None] means it ran out. *)
Fixpoint destroyCircuit (fuel : nat) (cid : Z) (s : state) : option state :=
    match fuel with
    | O => None
    | S fuel' =>
        match OMap.get cid (circuits s) with
        | None => Some s
        | Some l =>
            match heap s !! l with
            | None => Some s
            | Some c =>
                let s1 := closeOutbound c s in
                let s2 := modify l zeroKeys s1 in
                let cascade :=
                  match truthyPair c with
                  | None => Some s2
                  | Some pid =>
                      match OMap.get pid (circuits s2) with
                      | None => Some s2
                      | Some lp =>
                          let s3 := modify lp (setPair None) s2 in
                          match heap s3 !! lp with
                          | None => Some s3
                          | Some partner => destroyCircuit fuel' (circuitId partner) s3
                          end
                      end
                  end in
                s4 ← cascade;
                Some (withCircuits (OMap.delete cid (circuits s4)) s4)
            end
        end
    end.

  (** [for (const [id, circuit] of circuits) if (now - circuit.lastActivity >
      sessionTtl) destroyCircuit(id)].  The loop walks the ids in insertion
      order as they stood at the start; an id destroyed earlier in the walk
      is no longer in the map when its turn comes and is skipped. *)
Fixpoint cleanupLoop (fuel : nat) (ids : list Z) (now : Z) (s : state)
    : option state :=
    match ids with
    | [] => Some s
    | id :: rest =>
        match lookup id s with
        | None => cleanupLoop fuel rest now s
        | Some c =>
            if bool_decide (sessionTtl s < now - lastActivity c)
            then s' ← destroyCircuit fuel id s; cleanupLoop fuel rest now s'
            else cleanupLoop fuel rest now s
        end
    end.

Definition cleanupExpired (fuel : nat) (now : Z) (s : state) : option state :=
    cleanupLoop fuel (OMap.keys (circuits s)) now s.

Definition activeCount (s : state) : nat := OMap.size (circuits s).

(** Registry invariant: ids are unique, every registered address holds an
    object, that object carries the id it is registered under, and
    addresses not yet handed out are free. *)
Definition consistent (s : state) : Prop :=
  OMap.wf (circuits s) ∧
  (∀ cid l, OMap.get cid (circuits s) = Some l →
     ∃ c, heap s !! l = Some c ∧ circuitId c = cid) ∧
  (∀ l, is_Some (heap s !! l) → (l < nextLoc s)%nat).

(** Both key buffers of a circuit object hold only zero bytes. *)
Definition wiped (c : circuit) : Prop :=
  rx c = fill0 (rx c) ∧ tx c = fill0 (tx c).

(** The state [destroyCircuit] leaves when the circuit has a partner that
    is still registered: the partner's link is cleared, the partner is
    destroyed (no further cascade), then the circuit itself is removed. *)
Definition afterCascade (cid : Z) (l : nat) (c : circuit) (pid : Z) (lp : nat)
    (partner : circuit) (s : state) : state :=
  let s2 := modify l zeroKeys (closeOutbound c s) in
  let s3 := modify lp (setPair None) s2 in
  let s4 := withCircuits (OMap.delete pid (circuits s3))
              (modify lp zeroKeys (closeOutbound partner s3)) in
  withCircuits (OMap.delete cid (circuits s4)) s4.

End Circuits.

(* ===================================================================== *)
(** * rendezvous.cjs — cookie-based rendezvous pairing *)
(* ===================================================================== *)

Module Rendezvous.
Import Buf Net Circuits.

(** [cookieHex → { circuitId, timestamp }] *)
Record pending := Pending { waiting : Z; timestamp : Z }.

Definition MAX_PENDING : Z := 10000.
Definition COOKIE_TTL_MS : Z := 30000.

(** [{ success: true }] or [{ success: false, error }] *)
Inductive established := Established | NotEstablished (error : string).

(** [{ success: true, visitorCircuitId }] or [{ success: false, error }] *)
Inductive joined := Joined (visitorCircuitId : Z) | NotJoined (error : string).

Definition establishRendezvous (circuitId : Z) (cookie : list byte) (now : Z)
    (pend : gmap string pending) : established * gmap string pending :=
  if bool_decide (length cookie ≠ 20%nat)
  then (NotEstablished "Cookie must be 20 bytes", pend)
  else
    let cookieHex := toHex cookie in
    if bool_decide (is_Some (pend !! cookieHex))
    then (NotEstablished "Cookie already in use", pend)
    else if bool_decide (MAX_PENDING ≤ Z.of_nat (size pend))
    then (NotEstablished "Too many pending", pend)
    else (Established, <[cookieHex := Pending circuitId now]> pend).

Definition joinRendezvous (hostCircuitId : Z) (cookie : list byte) (now : Z)
    (pend : gmap string pending) (s : Circuits.state)
  : joined * gmap string pending * Circuits.state :=
  let cookieHex := toHex cookie in
  match pend !! cookieHex with
  | None => (NotJoined "Cookie not found or expired", pend, s)
  | Some p =>
      let pend' := delete cookieHex pend in
      let v := getCircuit (waiting p) now s in
      let h := getCircuit hostCircuitId now v.2 in
      match v.1, h.1 with
      | Some visitorCircuit, Some hostCircuit =>
          (Joined (waiting p), pend',
           modify hostCircuit (setPair (Some (waiting p)))
             (modify visitorCircuit (setPair (Some hostCircuitId)) h.2))
      | _, _ => (NotJoined "Circuit no longer exists", pend', h.2)
      end
  end.

Definition relayRendezvousData (fromCircuitId : Z) (data : list byte) (now : Z)
    (s : Circuits.state) : bool * Circuits.state :=
  let f := getCircuit fromCircuitId now s in
  match (f.1 ≫= (λ l, heap f.2 !! l)) ≫= truthyPair with
  | None => (false, f.2)
  | Some pid =>
      let t := getCircuit pid now f.2 in
      match t.1 ≫= (λ l, heap t.2 !! l) with
      | None => (false, t.2)
      | Some toCircuit =>
          if bool_decide (ready (net t.2) (inboundWs toCircuit) = OPEN)
          then (true, withNet (send (inboundWs toCircuit) data (net t.2)) t.2)
          else (false, t.2)
      end
  end.

Definition cleanupPendingRendezvous (now : Z) (pend : gmap string pending)
  : gmap string pending :=
  filter (λ e, ¬ (COOKIE_TTL_MS < now - timestamp e.2)) pend.

(** A run of the two modules: circuits 5 and 0 complete their handshakes,
    circuit 5 waits on a cookie and circuit 0 joins it. *)
Definition demoCookie : list byte := replicate 20 x2a.

Definition pairedWithZero : Circuits.state :=
  let s1 := (registerCircuit 5 (replicate 32 x11) (replicate 32 x22) 1%nat 1000
               Circuits.initial).2 in
  let s2 := (registerCircuit 0 (replicate 32 x33) (replicate 32 x44) 2%nat 1000 s1).2 in
  let e := establishRendezvous 5 demoCookie 2000 ∅ in
  (joinRendezvous 0 demoCookie 3000 e.2 s2).2.

(** The same run with the ids 1 and 2. *)
Definition pairedOneTwo : Circuits.state :=
  let s1 := (registerCircuit 1 (replicate 32 x11) (replicate 32 x22) 1%nat 1000
               Circuits.initial).2 in
  let s2 := (registerCircuit 2 (replicate 32 x33) (replicate 32 x44) 2%nat 1000 s1).2 in
  let e := establishRendezvous 1 demoCookie 2000 ∅ in
  (joinRendezvous 2 demoCookie 3000 e.2 s2).2.

End Rendezvous.

(* ===================================================================== *)
(** * tracker.cjs — room tracker *)
(* ===================================================================== *)

Module Tracker.
Import Buf Net.

Definition MSG_REGISTER : Z := 64.    (* 0x40 *)
Definition MSG_QUERY : Z := 65.       (* 0x41 *)
Definition MSG_RESPONSE : Z := 66.    (* 0x42 *)
Definition MSG_HEARTBEAT : Z := 67.   (* 0x43 *)
Definition MSG_INTRODUCE : Z := 68.   (* 0x44 *)
Definition MSG_INTRO_DATA : Z := 69.  (* 0x45 *)

(** [roomId → { metadata, entryRelay, isPrivate, createdAt, expiresAt }] *)
Record room := Room {
  metadata : list byte;
  entryRelay : string;
  isPrivate : bool;
  createdAt : Z;
  expiresAt : Z;
}.

(** [roomId → { ws, circuitId }]; both are [null] for a room registered over
    HTTP. *)
Record session := Session { sessWs : option nat; sessCircuitId : option (list byte) }.

(** [roomId → { metadata, entryRelay, sourceRelay, expiresAt }]; the expiry
    is [now + roomTtlMs * 1.5], a number with a possible half. *)
Record fedRoom := FedRoom {
  fedMetadata : list byte;
  fedEntryRelay : string;
  sourceRelay : string;
  fedExpiresAt : Q;
}.

(** One call to [trackerDb.persistRoom] that reached the database. *)
Record persisted := Persisted {
  pRoomId : string;
  pMetadata64 : string;
  pEntryRelay : string;
  pPrivate : bool;
  pFederated : bool;
  pSourceRelay : string;
  pExpiresAtMs : Z;
}.

Record state := State {
  rooms : list (string * room);
  circuitSessions : list (string * session);
  federatedRooms : list (string * fedRoom);
  roomTtlMs : Z;
  maxRooms : Z;
  dbAvailable : bool;
  db : list persisted;
  net : Net.net;
}.

Definition initial : state :=
  State [] [] [] 120000 50000 false [] (Net ∅ []).

Definition withRooms (m : list (string * room)) (s : state) : state :=
  State m (circuitSessions s) (federatedRooms s) (roomTtlMs s) (maxRooms s)
        (dbAvailable s) (db s) (net s).
Definition withSessions (m : list (string * session)) (s : state) : state :=
  State (rooms s) m (federatedRooms s) (roomTtlMs s) (maxRooms s)
        (dbAvailable s) (db s) (net s).
Definition withFederated (m : list (string * fedRoom)) (s : state) : state :=
  State (rooms s) (circuitSessions s) m (roomTtlMs s) (maxRooms s)
        (dbAvailable s) (db s) (net s).
Definition withNet (n : Net.net) (s : state) : state :=
  State (rooms s) (circuitSessions s) (federatedRooms s) (roomTtlMs s)
        (maxRooms s) (dbAvailable s) (db s) n.

(** [trackerDb.persistRoom(...)]: nothing happens while the database is
    unavailable; otherwise one row is written with [Math.floor(expiresAtMs)]. *)
Definition persistRoom (roomId metadata64 relay : string) (priv federated : bool)
    (source : string) (expiresAtMs : Q) (s : state) : state :=
  if dbAvailable s
  then State (rooms s) (circuitSessions s) (federatedRooms s) (roomTtlMs s)
             (maxRooms s) (dbAvailable s)
             (db s ++ [Persisted roomId metadata64 relay priv federated source
                                 (Qfloor expiresAtMs)])
             (net s)
  else s.

(** What a handler hands back: [null], a buffer, or an exception. *)
Inductive response := Null | Resp (bytes : list byte) | Thrown.

Definition failure : response := Resp [of_octet MSG_RESPONSE; x00].
Definition success : response := Resp [of_octet MSG_RESPONSE; x01].

(** [if (opts.roomTtlMs) roomTtlMs = opts.roomTtlMs], same for [maxRooms]. *)
Definition configure (optTtl optMax : option Z) (s : state) : state :=
  let ttl := match optTtl with
             | Some v => if bool_decide (v ≠ 0) then v else roomTtlMs s
             | None => roomTtlMs s end in
  let mx := match optMax with
            | Some v => if bool_decide (v ≠ 0) then v else maxRooms s
            | None => maxRooms s end in
  State (rooms s) (circuitSessions s) (federatedRooms s) ttl mx
        (dbAvailable s) (db s) (net s).

(** A row handed back by [trackerDb.loadRooms]. *)
Record loadedRoom := LoadedRoom {
  lRoomId : string;
  lMetadata64 : string;
  lEntryRelay : string;
  lPrivate : bool;
  lSourceRelay : string;
  lExpiresAt : Z;
}.

(** The continuation of [configure] that merges the loaded rows: a room
    already in memory is never overwritten. *)
Definition restoreLocal (now : Z) (s : state) (e : loadedRoom) : state :=
  if OMap.has (lRoomId e) (rooms s) then s
  else withRooms (OMap.set (lRoomId e)
                    (Room (ofBase64 (lMetadata64 e)) (lEntryRelay e) (lPrivate e)
                          now (lExpiresAt e))
                    (rooms s)) s.

Definition restoreFederated (s : state) (e : loadedRoom) : state :=
  if OMap.has (lRoomId e) (federatedRooms s) || OMap.has (lRoomId e) (rooms s)
  then s
  else withFederated (OMap.set (lRoomId e)
                        (FedRoom (ofBase64 (lMetadata64 e)) (lEntryRelay e)
                                 (lSourceRelay e) (inject_Z (lExpiresAt e)))
                        (federatedRooms s)) s.

Definition restoreRooms (local federated : list loadedRoom) (now : Z) (s : state)
  : state :=
  foldl restoreFederated (foldl (restoreLocal now) s local) federated.

(** REGISTER (0x40): [type(1) flags(1) roomId(32) relayLen(2 BE) relay metadata] *)
Definition handleRegister (data : list byte) (ws : option nat)
    (circuitId : option (list byte)) (now : Z) (s : state) : response * state :=
  if bool_decide (length data < 36)%nat then (Null, s)
  else
    let flags := default 0 (octet <$> data !! 1%nat) in
    let priv := bool_decide (Z.land flags 1 ≠ 0) in
    let roomId := toHex (subarray 2 34 data) in
    match readUInt16BE data 34 with
    | None => (Thrown, s)
    | Some relayLen =>
        if bool_decide (Z.of_nat (length data) < 36 + relayLen) then (Null, s)
        else
          let relay := toString (subarray 36 (36 + Z.to_nat relayLen) data) in
          let meta := drop (36 + Z.to_nat relayLen) data in
          if negb (OMap.has roomId (rooms s))
             && bool_decide (maxRooms s ≤ Z.of_nat (OMap.size (rooms s)))
          then (failure, s)
          else
            let expires := now + roomTtlMs s in
            let created := match OMap.get roomId (rooms s) with
                           | Some old => createdAt old
                           | None => now
                           end in
            let s1 := withRooms (OMap.set roomId
                                   (Room meta relay priv created expires)
                                   (rooms s)) s in
            let s2 := withSessions (OMap.set roomId (Session ws circuitId)
                                      (circuitSessions s1)) s1 in
            (success,
             persistRoom roomId (toBase64 meta) relay priv false "" (inject_Z expires) s2)
    end.

(** An element of the list [handleQuery] pages through. *)
Record entry := Entry { eRoomId : string; eMetadata : list byte; eEntryRelay : string }.

(** The list built at the top of [handleQuery]: local rooms that are
    neither private nor expired, in map order, then federated rooms that are
    not expired and whose id is not a local room's. *)
Definition publicLocal (now : Z) (s : state) : list entry :=
  omap (λ kv : string * room,
          if isPrivate kv.2 then None
          else if bool_decide (expiresAt kv.2 ≤ now) then None
          else Some (Entry kv.1 (metadata kv.2) (entryRelay kv.2)))
       (rooms s).

Definition publicFederated (now : Z) (s : state) : list entry :=
  omap (λ kv : string * fedRoom,
          if Qle_bool (fedExpiresAt kv.2) (inject_Z now) then None
          else if OMap.has kv.1 (rooms s) then None
          else Some (Entry kv.1 (fedMetadata kv.2) (fedEntryRelay kv.2)))
       (federatedRooms s).

Definition publicRooms (now : Z) (s : state) : list entry :=
  publicLocal now s ++ publicFederated now s.

(** [if (count > 100) count = 100] *)
Definition clampCount (count : nat) : nat :=
  if bool_decide (100 < count)%nat then 100%nat else count.

(** The page for a cursor: [start = min(cursor, length)],
    [slice = publicRooms.slice(start, start + count)],
    [nextCursor = start + slice.length]. *)
Definition queryPage (cursor count : nat) (pub : list entry) : nat * list entry :=
  let start := Nat.min cursor (length pub) in
  let slice := take (clampCount count) (drop start pub) in
  ((start + length slice)%nat, slice).

(** One entry on the wire: [roomId(32) relayLen(2) relay metaLen(2) metadata].
    [writeUInt16BE] throws on a length above 65535. *)
Definition encodeEntry (e : entry) : option (list byte) :=
  let relayBuf := ofString (eEntryRelay e) in
  relayLenBuf ← writeUInt16BE (Z.of_nat (length relayBuf));
  metaLenBuf ← writeUInt16BE (Z.of_nat (length (eMetadata e)));
  Some (ofHex (eRoomId e) ++ relayLenBuf ++ relayBuf ++ metaLenBuf ++ eMetadata e).

Fixpoint encodeEntries (es : list entry) : option (list byte) :=
  match es with
  | [] => Some []
  | e :: rest =>
      b ← encodeEntry e; bs ← encodeEntries rest; Some (b ++ bs)
  end.

(** A relay URL of ASCII characters only: for these one character is one
    byte, and [ofString] and [toString] are [Buffer.from(s, 'utf8')] and
    [buf.toString('utf8')] exactly. *)
Definition asciiRelay (e : entry) : bool :=
  forallb (λ c, bool_decide (Z.of_N (N_of_ascii c) < 128))
          (String.list_ascii_of_string (eEntryRelay e)).

(** An entry whose two length fields can be written: the relay URL and the
    metadata are shorter than 65,536 bytes. *)
Definition fitsWire (e : entry) : bool :=
  bool_decide (Z.of_nat (length (ofString (eEntryRelay e))) < 65536)
  && bool_decide (Z.of_nat (length (eMetadata e)) < 65536).

(** QUERY (0x41): [type(1) cursor(4 BE) count(2 BE)] *)
Definition handleQuery (data : list byte) (now : Z) (s : state) : response :=
  if bool_decide (length data < 7)%nat then Null
  else
    match readUInt32BE data 1, readUInt16BE data 5 with
    | Some cursor, Some count =>
        let page := queryPage (Z.to_nat cursor) (Z.to_nat count) (publicRooms now s) in
        match encodeEntries page.2,
              writeUInt32BE (Z.of_nat page.1),
              writeUInt16BE (Z.of_nat (length page.2)) with
        | Some body, Some next, Some n =>
            Resp ([of_octet MSG_RESPONSE] ++ next ++ n ++ body)
        | _, _, _ => Thrown
        end
    | _, _ => Thrown
    end.

(** HEARTBEAT (0x43): [type(1) roomId(32)] *)
Definition handleHeartbeat (data : list byte) (now : Z) (s : state)
  : response * state :=
  if bool_decide (length data < 33)%nat then (Null, s)
  else
    let roomId := toHex (subarray 1 33 data) in
    match OMap.get roomId (rooms s) with
    | None => (failure, s)
    | Some r =>
        let expires := now + roomTtlMs s in
        let r' := Room (metadata r) (entryRelay r) (isPrivate r) (createdAt r) expires in
        let s1 := withRooms (OMap.set roomId r' (rooms s)) s in
        (success,
         persistRoom roomId (toBase64 (metadata r)) (entryRelay r) (isPrivate r)
                     false "" (inject_Z expires) s1)
    end.

(** INTRODUCE (0x44): [type(1) roomId(32) cookie(20) relayUrlLen(2 BE) relayUrl] *)
Definition handleIntroduce (data : list byte) (s : state) : response * state :=
  if bool_decide (length data < 55)%nat then (Null, s)
  else
    let roomId := toHex (subarray 1 33 data) in
    let cookie := subarray 33 53 data in
    match readUInt16BE data 53 with
    | None => (Thrown, s)
    | Some relayUrlLen =>
        if bool_decide (Z.of_nat (length data) < 55 + relayUrlLen) then (Null, s)
        else
          let relayUrl := subarray 55 (55 + Z.to_nat relayUrlLen) data in
          let stale := (failure, withSessions (OMap.delete roomId (circuitSessions s)) s) in
          match OMap.get roomId (circuitSessions s) with
          | None => (failure, s)
          | Some sess =>
              match sessWs sess with
              | None => stale
              | Some w =>
                  if bool_decide (ready (net s) w ≠ OPEN) then stale
                  else
                    match sessCircuitId sess, writeUInt16BE relayUrlLen with
                    | Some cid, Some lenBuf =>
                        let introData :=
                          cid ++ [of_octet MSG_INTRO_DATA] ++ cookie ++ lenBuf ++ relayUrl in
                        (success, withNet (send w introData (net s)) s)
                    | _, _ => (Thrown, s)
                    end
              end
          end
    end.

Definition handleTrackerMessage (data : list byte) (ws : option nat)
    (circuitId : option (list byte)) (now : Z) (s : state) : response * state :=
  match data !! 0%nat with
  | None => (Null, s)
  | Some t =>
      if bool_decide (octet t = MSG_REGISTER) then handleRegister data ws circuitId now s
      else if bool_decide (octet t = MSG_QUERY) then (handleQuery data now s, s)
      else if bool_decide (octet t = MSG_HEARTBEAT) then handleHeartbeat data now s
      else if bool_decide (octet t = MSG_INTRODUCE) then handleIntroduce data s
      else (Null, s)
  end.

(** [pushToCircuit(roomId)] *)
Definition pushToCircuit (roomId : string) (s : state)
  : option (nat * option (list byte)) :=
  sess ← OMap.get roomId (circuitSessions s);
  w ← sessWs sess;
  if bool_decide (ready (net s) w ≠ OPEN) then None
  else Some (w, sessCircuitId sess).

(** An element of the list a peer tracker serves. *)
Record peerRoom := PeerRoom { prRoomId : string; prMetadata : string; prEntryRelay : string }.

(** [if (!pr.roomId || !pr.metadata || !pr.entryRelay) continue] *)
Definition incomplete (pr : peerRoom) : bool :=
  bool_decide (prRoomId pr = "") || bool_decide (prMetadata pr = "")
  || bool_decide (prEntryRelay pr = "").

(** [now + roomTtlMs * 1.5] *)
Definition federatedExpiry (now : Z) (s : state) : Q :=
  (inject_Z now + inject_Z (roomTtlMs s) * (3 # 2))%Q.

(** One turn of the insertion loop of [setFederatedRooms]. *)
Definition mergePeerRoom (sourceRelay : string) (now : Z) (s : state) (pr : peerRoom)
  : state :=
  if incomplete pr then s
  else if OMap.has (prRoomId pr) (rooms s) then s
  else
    let expires := federatedExpiry now s in
    let s1 := withFederated
                (OMap.set (prRoomId pr)
                   (FedRoom (ofBase64 (prMetadata pr)) (prEntryRelay pr) sourceRelay expires)
                   (federatedRooms s)) s in
    persistRoom (prRoomId pr) (prMetadata pr) (prEntryRelay pr) false true
                sourceRelay expires s1.

(** [room.sourceRelay === sourceRelay] *)
Definition fromSource (source : string) (r : fedRoom) : bool :=
  bool_decide (sourceRelay r = source).

Definition setFederatedRooms (source : string) (peerRooms : list peerRoom)
    (now : Z) (s : state) : state :=
  let s0 := withFederated
              (OMap.deleteWhere (λ _ r, fromSource source r) (federatedRooms s)) s in
  foldl (mergePeerRoom source now) s0 peerRooms.



Definition roomCount (now : Z) (s : state) : nat :=
  Nat.add
    (length (filter (λ kv : string * room, now < expiresAt kv.2) (rooms s)))
    (length (filter (λ kv : string * fedRoom,
                       Qle_bool (fedExpiresAt kv.2) (inject_Z now) = false
                       ∧ OMap.has kv.1 (rooms s) = false)
               (federatedRooms s))).

(** The three loops of [cleanupExpiredRooms]. *)
Definition cleanupExpiredRooms (now : Z) (s : state) : state :=
  let expired := omap (λ kv : string * room,
                         if bool_decide (expiresAt kv.2 ≤ now) then Some kv.1 else None)
                      (rooms s) in
  let rooms' := OMap.deleteWhere (λ _ r, bool_decide (expiresAt r ≤ now)) (rooms s) in
  let sessions1 := foldl (λ m k, OMap.delete k m) (circuitSessions s) expired in
  let fed' := OMap.deleteWhere (λ _ r, Qle_bool (fedExpiresAt r) (inject_Z now))
                (federatedRooms s) in
  let sessions2 :=
    OMap.deleteWhere
      (λ _ sess, match sessWs sess with
                 | None => true
                 | Some w => bool_decide (1 < ready (net s) w)%nat
                 end)
      sessions1 in
  State rooms' sessions2 fed' (roomTtlMs s) (maxRooms s) (dbAvailable s) (db s) (net s).






(** All three tables are maps: no key occurs twice. *)
Definition wfState (s : state) : Prop :=
  OMap.wf (rooms s) ∧ OMap.wf (circuitSessions s) ∧ OMap.wf (federatedRooms s).

(** Sample messages and states. *)
Definition sampleRoomId : list byte := replicate 32 xab.
Definition sampleRegister : list byte :=
  [x40; x00] ++ sampleRoomId ++ [x00; x08] ++ ofString "wss://r1" ++ [x01; x02; x03].
Definition sampleHeartbeat : list byte := [x43] ++ sampleRoomId.
Definition otherRegister : list byte :=
  [x40; x00] ++ replicate 32 xcd ++ [x00; x08] ++ ofString "wss://r9" ++ [x09].
Definition oneRoom : state :=
  (handleRegister sampleRegister (Some 4%nat) (Some [x00; x00; x00; x07]) 1000
     (configure None (Some 1) initial)).2.

Definition thirdRegister : list byte :=
  [x40; x01] ++ replicate 32 xef ++ [x00; x08] ++ ofString "wss://r5" ++ [x05].

(** A tracker with two public local rooms, one private local room, and
    federated rooms from two peers, one of them shadowed by a local room. *)
Definition directory : state :=
  let s1 := (handleRegister sampleRegister None None 1000 initial).2 in
  let s2 := (handleRegister otherRegister None None 1000 s1).2 in
  let s3 := (handleRegister thirdRegister None None 1000 s2).2 in
  let s4 := setFederatedRooms "wss://relay2"
              [PeerRoom "f1" "TQ==" "wss://relay2"; PeerRoom "f2" "TWE=" "wss://relay2";
               PeerRoom (toHex sampleRoomId) "TWE=" "wss://relay2"] 1000 s3 in
  setFederatedRooms "wss://relay3" [PeerRoom "f3" "TWFu" "wss://relay3"] 1000 s4.

(** The room id of [sampleRegister] written with upper-case hex digits. *)
Definition upperRoomId : string :=
  String.string_of_list_ascii (concat (replicate 32 ["A"; "B"]%char)).

(** A tracker with one public local room, to which a peer has supplied a
    room under the same 32-byte id written in upper case. *)
Definition shadowed : state :=
  setFederatedRooms "wss://relay2" [PeerRoom upperRoomId "TQ==" "wss://relay2"] 1000
    oneRoom.

End Tracker.

(* ===================================================================== *)
(** * crypto.cjs — wrappers around the sodium primitives *)
(* ===================================================================== *)

Module Crypto.
Import Buf.

Definition KX_PK_BYTES : nat := 32.
Definition NONCE_BYTES : nat := 24.
Definition MAC_BYTES : nat := 16.
Definition SIGN_BYTES : nat := 64.

Record keypair := Keypair { publicKey : list byte; secretKey : list byte }.

(** The primitives of the sodium library, taken as given.  [None] stands
    for the primitive throwing. *)
Record sodium := Sodium {
  crypto_kx_keypair : list byte → keypair;
  crypto_kx_seed_keypair : list byte → keypair;
  crypto_kx_server_session_keys :
    list byte → list byte → list byte → option (list byte * list byte);
  crypto_aead_encrypt :
    list byte → option (list byte) → list byte → list byte → list byte;
  crypto_aead_decrypt :
    list byte → option (list byte) → list byte → list byte → option (list byte);
  crypto_generichash : nat → list byte → list byte;
  crypto_sign_detached : list byte → list byte → list byte;
  crypto_sign_verify_detached : list byte → list byte → list byte → option bool;
}.

(** The system's random source: a stream of bytes and how many were drawn. *)
Record rng := Rng { entropy : nat → byte; drawn : nat }.

(** [randomBytes(length)] *)
Definition randomBytes (n : nat) (g : rng) : list byte * rng :=
  (entropy g <$> seq (drawn g) n, Rng (entropy g) (drawn g + n)).

Section Wrappers.
Variable na : sodium.

(** [generateKxKeypair(seed)]: seeded when a seed is given, random otherwise. *)
Definition generateKxKeypair (seed : option (list byte)) (g : rng) : keypair * rng :=
  match seed with
  | Some sd => (crypto_kx_seed_keypair na sd, g)
  | None => let r := randomBytes 32 g in (crypto_kx_keypair na r.1, r.2)
  end.

Definition serverSessionKeys (relayPk relaySk clientPk : list byte)
  : option (list byte * list byte) :=
  crypto_kx_server_session_keys na relayPk relaySk clientPk.

(** [encrypt(plaintext, key, aad)]: [nonce ‖ ciphertext] under a fresh nonce. *)
Definition encrypt (plaintext key : list byte) (aad : option (list byte)) (g : rng)
  : list byte * rng :=
  let r := randomBytes NONCE_BYTES g in
  (r.1 ++ crypto_aead_encrypt na plaintext aad r.1 key, r.2).

(** [decrypt(nonceAndCiphertext, key, aad)]: [null] when the input is too
    short to hold a nonce and a tag, or when the primitive rejects it. *)
Definition decrypt (nonceAndCiphertext key : list byte) (aad : option (list byte))
  : option (list byte) :=
  if bool_decide (length nonceAndCiphertext < NONCE_BYTES + MAC_BYTES)%nat then None
  else crypto_aead_decrypt na (drop NONCE_BYTES nonceAndCiphertext) aad
         (take NONCE_BYTES nonceAndCiphertext) key.

(** [padPacket(data, targetSize)]: random padding up to the target, never a
    cut. *)
Definition padPacket (data : list byte) (targetSize : nat) (g : rng)
  : list byte * rng :=
  if bool_decide (targetSize ≤ length data)%nat then (data, g)
  else let r := randomBytes (targetSize - length data) g in (data ++ r.1, r.2).

Definition hash (input : list byte) (outputLen : nat) : list byte :=
  crypto_generichash na outputLen input.

Definition sign (message secret : list byte) : list byte :=
  crypto_sign_detached na message secret.

(** [verify(sig, message, publicKey)]: an exception of the primitive counts
    as [false]. *)
Definition verify (sig message pk : list byte) : bool :=
  default false (crypto_sign_verify_detached na sig message pk).

End Wrappers.
End Crypto.

(* ===================================================================== *)
(** * relay.cjs — packet dispatcher *)
(* ===================================================================== *)

Module Relay.
Import Buf Net Crypto Circuits Rendezvous.

Definition MSG_HANDSHAKE_REPLY : Z := 2.
Definition MSG_RELAY : Z := 16.
Definition MSG_DATA : Z := 32.
Definition MSG_ESTABLISH_RENDEZVOUS : Z := 48.
Definition MSG_RENDEZVOUS_ESTABLISHED : Z := 49.
Definition MSG_RENDEZVOUS_JOIN : Z := 51.
Definition MSG_CIRCUIT_DESTROY : Z := 240.
Definition MSG_CHAFF : Z := 255.

(** A [processMessage] call waiting on its [setTimeout]: the arguments the
    closure captured.  The circuit is captured by reference. *)
Record task := Task {
  taskType : Z;
  taskNextHop : option string;
  taskPayload : list byte;
  taskCircuit : nat;
  taskWs : nat;
}.

(** The state of the relay process that the dispatcher can touch. *)
Record state := State {
  circ : Circuits.state;
  pendingRendezvous : gmap string pending;
  relayKeypair : keypair;
  previousKeypair : option keypair;
  packetSize : nat;
  timers : list task;
  random : rng;
}.

Definition withCirc (c : Circuits.state) (r : state) : state :=
  State c (pendingRendezvous r) (relayKeypair r) (previousKeypair r)
        (packetSize r) (timers r) (random r).
Definition withPending (p : gmap string pending) (r : state) : state :=
  State (circ r) p (relayKeypair r) (previousKeypair r)
        (packetSize r) (timers r) (random r).
Definition withRandom (g : rng) (r : state) : state :=
  State (circ r) (pendingRendezvous r) (relayKeypair r) (previousKeypair r)
        (packetSize r) (timers r) g.
Definition withTimers (t : list task) (r : state) : state :=
  State (circ r) (pendingRendezvous r) (relayKeypair r) (previousKeypair r)
        (packetSize r) t (random r).

(** How a call ends: it returns, or an exception leaves it. *)
Inductive completion := Returned | Threw.

(** [ws.send(data)] on the circuit module's view of the sockets. *)
Definition wsSend (w : nat) (data : list byte) (r : state) : state :=
  withCirc (Circuits.withNet (send w data (Circuits.net (circ r))) (circ r)) r.

(** The four bytes [aad.writeUInt32BE(circuitId)] leaves. *)
Definition aadOf (circuitId : Z) : list byte :=
  default [] (writeUInt32BE circuitId).

Section Dispatcher.
Variable na : sodium.

(** [sendToCircuit(circuit, plaintext)]: the packet is encrypted (a nonce
    is drawn) whether or not the inbound socket is open; it is sent only if
    it is. *)
Definition sendToCircuit (l : nat) (plaintext : list byte) (r : state) : state :=
  match heap (circ r) !! l with
  | None => r
  | Some c =>
      let e := encrypt na plaintext (tx c) (Some (aadOf (circuitId c))) (random r) in
      let r1 := withRandom e.2 r in
      if bool_decide (ready (Circuits.net (circ r1)) (inboundWs c) = OPEN)
      then wsSend (inboundWs c) e.1 r1 else r1
  end.

(** [pushToCircuitById(circuitIdBuf, payload)] *)
Definition pushToCircuitById (circuitIdBuf payload : list byte) (now : Z) (r : state)
  : completion * state :=
  match readUInt32BE circuitIdBuf 0 with
  | None => (Threw, r)
  | Some cid =>
      let g := getCircuit cid now (circ r) in
      match g.1 with
      | Some l => (Returned, sendToCircuit l payload (withCirc g.2 r))
      | None => (Returned, withCirc g.2 r)
      end
  end.

(** The session keys for a client key: the current keypair first, the
    previous one if the current one fails. *)
Definition deriveKeys (clientPk : list byte) (r : state)
  : option (list byte * list byte) :=
  match serverSessionKeys na (publicKey (relayKeypair r)) (secretKey (relayKeypair r))
          clientPk with
  | Some k => Some k
  | None =>
      match previousKeypair r with
      | Some prev => serverSessionKeys na (publicKey prev) (secretKey prev) clientPk
      | None => None
      end
  end.

(** Reply: [magic "SFPK"(4) serverPk(32) nonce(24) circuitId(4) ciphertext] *)
Definition handleHandshake (rawData : list byte) (circuitId : Z) (w : nat) (now : Z)
    (r : state) : state :=
  if bool_decide (length rawData < NONCE_BYTES + 4 + KX_PK_BYTES)%nat then r
  else
    let clientPk := subarray (NONCE_BYTES + 4) (NONCE_BYTES + 4 + KX_PK_BYTES) rawData in
    match deriveKeys clientPk r with
    | None => r
    | Some keys =>
        let reg := registerCircuit circuitId keys.1 keys.2 w now (circ r) in
        if negb reg.1 then r
        else
          let r1 := withCirc reg.2 r in
          let reply := of_octet MSG_HANDSHAKE_REPLY :: copyInto KX_PK_BYTES (publicKey (relayKeypair r1)) in
          let e := encrypt na reply keys.2 (Some (aadOf circuitId)) (random r1) in
          let r2 := withRandom e.2 r1 in
          let packet :=
            ofString "SFPK" ++ copyInto KX_PK_BYTES (publicKey (relayKeypair r2))
              ++ take NONCE_BYTES e.1 ++ aadOf circuitId ++ drop NONCE_BYTES e.1 in
          let p := padPacket packet (packetSize r2) (random r2) in
          wsSend w p.1 (withRandom p.2 r2)
    end.

(** [handlePacket(rawData, ws)].  A packet of an established circuit is
    decrypted and parsed here; its processing is left to a timer. *)
Definition handlePacket (rawData : list byte) (w : nat) (now : Z) (r : state)
  : completion * state :=
  if bool_decide (length rawData < NONCE_BYTES + 4 + MAC_BYTES + 1)%nat then (Returned, r)
  else if bool_decide (octet <$> rawData !! 0%nat = Some MSG_CHAFF) then (Returned, r)
  else
    match readUInt32BE rawData NONCE_BYTES with
    | None => (Threw, r)
    | Some circuitId =>
        let g := getCircuit circuitId now (circ r) in
        let r1 := withCirc g.2 r in
        match g.1 ≫= (λ l, (λ c, (l, c)) <$> heap g.2 !! l) with
        | None => (Returned, handleHandshake rawData circuitId w now r1)
        | Some (l, c) =>
            let encryptedPayload := take NONCE_BYTES rawData ++ drop (NONCE_BYTES + 4) rawData in
            match decrypt na encryptedPayload (rx c) (Some (aadOf circuitId)) with
            | None => (Returned, r1)
            | Some plaintext =>
                match plaintext !! 0%nat, plaintext !! 1%nat with
                | Some msgType, Some nhl =>
                    let nextHopLen := Z.to_nat (octet nhl) in
                    let nextHop :=
                      if bool_decide (0 < nextHopLen)%nat
                      then Some (toString (subarray 2 (2 + nextHopLen) plaintext))
                      else None in
                    match readUInt16BE plaintext (2 + nextHopLen) with
                    | None => (Threw, r1)
                    | Some payloadLen =>
                        let payload :=
                          subarray (4 + nextHopLen)
                                   (4 + nextHopLen + Z.to_nat payloadLen) plaintext in
                        (Returned,
                         withTimers (timers r1 ++ [Task (octet msgType) nextHop payload l w]) r1)
                    end
                | _, _ => (Threw, r1)
                end
            end
        end
    end.

(** [rotateKeys()], and the timer it sets that forgets the old pair. *)
Definition rotateKeys (r : state) : state :=
  let k := generateKxKeypair na None (random r) in
  State (circ r) (pendingRendezvous r) k.1 (Some (relayKeypair r))
        (packetSize r) (timers r) k.2.

Definition forgetPreviousKey (r : state) : state :=
  State (circ r) (pendingRendezvous r) (relayKeypair r) None
        (packetSize r) (timers r) (random r).

Definition getRelayPublicKey (r : state) : list byte := publicKey (relayKeypair r).

End Dispatcher.

(** Primitives that reject everything: enough to run the dispatcher on
    packets it drops before any cryptography. *)
Definition inertSodium : sodium :=
  Sodium (λ _, Keypair [] []) (λ _, Keypair [] []) (λ _ _ _, None)
         (λ _ _ _ _, []) (λ _ _ _ _, None) (λ _ _, []) (λ _ _, []) (λ _ _ _, None).

Definition idleRelay : state :=
  State Circuits.initial ∅ (Keypair (replicate 32 x01) (replicate 32 x02)) None
        512 [] (Rng (λ _, x00) 0).

Definition shortPacket : list byte := replicate 44 x01.

(** Primitives that hide nothing, to run the dispatcher past its
    cryptography: a key pair is the seed twice, the session keys are the
    client's key and the relay's key (a client key that starts with a zero
    byte is refused), the ciphertext is the plaintext followed by a tag of
    sixteen zero bytes, and decryption asks for that tag. *)
Definition tagSodium : sodium :=
  Sodium (λ seed, Keypair seed seed) (λ seed, Keypair seed seed)
         (λ pk _ clientPk,
            if bool_decide (octet <$> take 1 clientPk = [0]) then None
            else Some (clientPk, pk))
         (λ m _ _ _, m ++ replicate 16 x00)
         (λ c _ _ _,
            if bool_decide (octet <$> drop (length c - 16) c = replicate 16 0)
            then Some (take (length c - 16) c) else None)
         (λ _ _, []) (λ _ _, []) (λ _ _ _, None).

(** A first packet for circuit 7: [nonce(24) circuitId(4) clientPk(32)]. *)
Definition helloPacket : list byte :=
  replicate 24 x01 ++ [x00; x00; x00; x07] ++ replicate 32 x05.

(** The relay after that packet arrived on socket 3 at time 1000. *)
Definition established : state :=
  (handlePacket tagSodium helloPacket 3%nat 1000 idleRelay).2.


End Relay.

(* ===================================================================== *)
(** * chaff.cjs — cover traffic *)
(* ===================================================================== *)

Module Chaff.
Import Buf Crypto.

(** The packet the interval timer builds: [packetSize] bytes, the first one
    the chaff tag, the rest random.  [randomBytes(packetSize - 1)] throws for
    a size of zero. *)
Definition chaffFrame (packetSize : nat) (g : rng) : option (list byte * rng) :=
  match packetSize with
  | O => None
  | S n => let r := randomBytes n g in Some (xff :: r.1, r.2)
  end.

End Chaff.

(* ===================================================================== *)
(** * gossip.cjs — signed peer announcements *)
(* ===================================================================== *)

Module Gossip.
Import Buf Crypto.

Definition ANNOUNCE_MAX_AGE_MS : Z := 600000.
Definition ANNOUNCE_MAX_FUTURE_MS : Z := 60000.
Definition MAX_FAILURES : Z := 3.
Definition ACTIVE_WINDOW_MS : Z := 86400000.
Definition MAX_PEERS : Z := 500.

(** [{ url, pk, signPk, ts, sig }]; a missing string field is the empty
    string, a missing timestamp is [0] (all falsy alike). *)
Record announcement := Announcement {
  url : string;
  pk : string;
  signPk : string;
  ts : Z;
  sig : string;
}.

Definition chars (s : string) : list ascii := String.list_ascii_of_string s.

Definition digitChar (c : ascii) : bool :=
  let n := Z.of_N (N_of_ascii c) in bool_decide (48 ≤ n ∧ n ≤ 57).

(** [/^[0-9a-f]{64}$/i.test(s)] *)
Definition isHex64 (s : string) : bool :=
  bool_decide (String.length s = 64%nat)
  && forallb (λ c, bool_decide (is_Some (hexValue c))) (chars s).

(** [s.replace(/^wss:/, 'https:').replace(/^ws:/, 'http:')] *)
Definition wsUrlToHttp (wsUrl : string) : string :=
  let s1 := if String.prefix "wss:" wsUrl
            then "https:" +:+ String.substring 4 (String.length wsUrl - 4) wsUrl
            else wsUrl in
  if String.prefix "ws:" s1
  then "http:" +:+ String.substring 3 (String.length s1 - 3) s1
  else s1.

(** [/^172\.(1[6-9]|2\d|3[01])\./.test(host)] *)
Definition is172Private (host : string) : bool :=
  match chars host with
  | "1" :: "7" :: "2" :: "." :: a :: b :: "." :: _ =>
      let n := Z.of_N (N_of_ascii b) in
      (bool_decide (a = "1") && bool_decide (54 ≤ n ∧ n ≤ 57))
      || (bool_decide (a = "2") && digitChar b)
      || (bool_decide (a = "3") && bool_decide (n = 48 ∨ n = 49))
  | _ => false
  end%char.

(** The host tests of [isInternalUrl] that are about names and IPv4
    literals. *)
Definition blockedName (host : string) : bool :=
  bool_decide (host = "localhost") || bool_decide (host = "127.0.0.1")
  || bool_decide (host = "0.0.0.0")
  || String.prefix "10." host || is172Private host
  || String.prefix "192.168." host || String.prefix "169.254." host.

(** The host tests of [isInternalUrl] written for IPv6:
    [host === '::1'] and [/^fc00:|^fd/.test(host)]. *)
Definition blockedV6Pattern (host : string) : bool :=
  bool_decide (host = "::1") || String.prefix "fc00:" host || String.prefix "fd" host.

Section Verification.
Variable na : sodium.
(** [new URL(u).hostname]; [None] when the constructor throws. *)
Variable hostname : string → option string.

(** [isInternalUrl(url)]: an unparsable URL counts as internal. *)
Definition isInternalUrl (u : string) : bool :=
  match hostname (wsUrlToHttp u) with
  | None => true
  | Some host => blockedName host || blockedV6Pattern host
  end.

(** The text that is signed: [`${url}|${pk}|${ts}`]. *)
Definition signedMessage (a : announcement) : list byte :=
  ofString (url a +:+ "|" +:+ pk a +:+ "|" +:+ pretty (ts a)).

Definition verifyAnnouncement (a : announcement) (now : Z) : bool :=
  if bool_decide (url a = "") || bool_decide (pk a = "") || bool_decide (signPk a = "")
     || bool_decide (ts a = 0) || bool_decide (sig a = "")
  then false
  else if negb (String.prefix "wss://" (url a)) && negb (String.prefix "ws://" (url a))
  then false
  else if bool_decide (256 < String.length (url a))%nat then false
  else if negb (isHex64 (pk a)) then false
  else if negb (isHex64 (signPk a)) then false
  else if bool_decide (ts a < now - ANNOUNCE_MAX_AGE_MS) then false
  else if bool_decide (now + ANNOUNCE_MAX_FUTURE_MS < ts a) then false
  else if isInternalUrl (url a) then false
  else verify na (ofHex (sig a)) (signedMessage a) (ofHex (signPk a)).

(** [isValidPeer(p)] on the two fields it reads. *)
Definition isValidPeer (peerUrl peerPk : string) : bool :=
  negb (bool_decide (peerUrl = ""))
  && (String.prefix "ws://" peerUrl || String.prefix "wss://" peerUrl)
  && negb (bool_decide (256 < String.length peerUrl)%nat)
  && negb (bool_decide (peerPk = ""))
  && isHex64 peerPk
  && negb (isInternalUrl peerUrl).

(** [getAnnouncement()] for a node with the given identity. *)
Definition getAnnouncement (myUrl myPk mySignPk : string) (mySignSk : list byte)
    (now : Z) : announcement :=
  let unsigned := Announcement myUrl myPk mySignPk now "" in
  Announcement myUrl myPk mySignPk now (toHex (sign na (signedMessage unsigned) mySignSk)).

End Verification.

(** ** What the specification asks of the host *)

Definition splitOn (sep : ascii) (cs : list ascii) : list (list ascii) :=
  foldr (λ c acc, if bool_decide (c = sep) then [] :: acc
                  else match acc with
                       | [] => [[c]]
                       | w :: ws => (c :: w) :: ws
                       end) [[]] cs.

(** The characters before the first one that satisfies [stop]. *)
Fixpoint upTo (stop : ascii → bool) (cs : list ascii) : list ascii :=
  match cs with
  | [] => []
  | c :: rest => if stop c then [] else c :: upTo stop rest
  end.

Definition decimalValue (cs : list ascii) : option Z :=
  if bool_decide (cs = []) || negb (forallb digitChar cs) then None
  else Some (foldl (λ acc c, acc * 10 + (Z.of_N (N_of_ascii c) - 48)) 0 cs).

(** A dotted quad [a.b.c.d] of decimal numbers up to 255. *)
Definition dottedQuad (host : string) : option (Z * Z * Z * Z) :=
  match decimalValue <$> splitOn "."%char (chars host) with
  | [Some a; Some b; Some c; Some d] =>
      if bool_decide (a ≤ 255 ∧ b ≤ 255 ∧ c ≤ 255 ∧ d ≤ 255) then Some (a, b, c, d)
      else None
  | _ => None
  end.

(** Loopback, private and link-local hosts in the specification's sense,
    for hosts given as a name or an IPv4 literal: [localhost], 127.0.0.0/8,
    10.0.0.0/8, 172.16.0.0/12, 192.168.0.0/16 and 169.254.0.0/16. *)
Definition internalHost (host : string) : bool :=
  bool_decide (host = "localhost")
  || match dottedQuad host with
     | Some (a, b, _, _) =>
         bool_decide (a = 127) || bool_decide (a = 10)
         || bool_decide (a = 172 ∧ 16 ≤ b ∧ b ≤ 31)
         || bool_decide (a = 192 ∧ b = 168)
         || bool_decide (a = 169 ∧ b = 254)
     | None => false
     end.

(** The hostname of a URL of the plain shape [http(s)://host[:port][/...]],
    where [host] is a lower-case name or a dotted quad of plain decimal
    numbers and [port] is at most 65535: the URL parser returns the host as
    written.  [None] for every other shape; the concrete runs below only use
    URLs of this shape. *)
Definition plainHostname (u : string) : option string :=
  let rest :=
    if String.prefix "https://" u then Some (drop 8 (chars u))
    else if String.prefix "http://" u then Some (drop 7 (chars u))
    else None in
  match rest with
  | None => None
  | Some cs =>
      let authority :=
        upTo (λ c, bool_decide (c = "/" ∨ c = "?" ∨ c = "#")%char) cs in
      let host := upTo (λ c, bool_decide (c = ":"%char)) authority in
      let port := drop (S (length host)) authority in
      let plainChar c :=
        let n := Z.of_N (N_of_ascii c) in
        bool_decide (97 ≤ n ∧ n ≤ 122) || digitChar c
        || bool_decide (c = "."%char) || bool_decide (c = "-"%char) in
      let portOk :=
        bool_decide (port = [])
        || match decimalValue port with Some p => bool_decide (p ≤ 65535) | None => false end in
      let lastLabel := default [] (last (splitOn "."%char host)) in
      let numericEnd := negb (bool_decide (lastLabel = [])) && forallb digitChar lastLabel in
      let hostStr := String.string_of_list_ascii host in
      if bool_decide (host = []) || negb (forallb plainChar host) || negb portOk then None
      else if numericEnd && negb (bool_decide (is_Some (dottedQuad hostStr))) then None
      else Some hostStr
  end.

(** A stand-in for the signature primitive, to run the verification on
    concrete announcements.  The "signature" of a message under a key is
    the first 64 bytes of [key ‖ message], padded with zeros, and
    verification recomputes it from the public key, so the signing key of
    the stand-in is the public key itself.  It is not a signature scheme; it
    only tells the 64 bytes made for this key and message from other
    bytes. *)
Definition echoSign (message key : list byte) : list byte :=
  copyInto 64 (key ++ message).

Definition echoSodium : sodium :=
  Sodium (λ _, Keypair [] []) (λ _, Keypair [] []) (λ _ _ _, None)
         (λ _ _ _ _, []) (λ _ _ _ _, None) (λ _ _, [])
         echoSign
         (λ sg m k, Some (bool_decide (octet <$> sg = octet <$> echoSign m k))).

Definition hexOf (n : nat) (c : ascii) : string :=
  String.string_of_list_ascii (replicate n c).

(** The announcement that [getAnnouncement] builds on a relay configured
    with the URL [ws://127.0.0.2:9443], a loopback address. *)
Definition loopbackAnnouncement : announcement :=
  getAnnouncement echoSodium "ws://127.0.0.2:9443" (hexOf 64 "a") (hexOf 64 "b")
    (ofHex (hexOf 64 "b")) 1700000000000.

(** The same for a relay with a public name. *)
Definition publicAnnouncement : announcement :=
  getAnnouncement echoSodium "wss://relay.example.org" (hexOf 64 "a") (hexOf 64 "b")
    (ofHex (hexOf 64 "b")) 1700000000000.

End Gossip.

(* ===================================================================== *)
(** * Properties of the ordered map *)
(* ===================================================================== *)

Module OMapFacts.
Import OMap.
Section Facts.
Context {K : Type} `{EqDecision K} {V : Type}.
Implicit Types (m : OMap.t K V) (k : K) (v : V).

Lemma get_None_keys k m : get k m = None ↔ k ∉ keys m.
Proof.
      unfold keys. induction m as [|[k' v'] m IH].
      - split; [intros _; apply not_elem_of_nil|done].
      - cbn [get]. rewrite fmap_cons, not_elem_of_cons. cbn [fst].
        destruct (decide (k' = k)) as [->|Hne]; [|rewrite IH]; naive_solver.
Qed.

Lemma get_Some_elem k v m : get k m = Some v → (k, v) ∈ m.
Proof.
      induction m as [|[k' v'] m IH]; simpl; [done|].
      destruct (decide (k' = k)) as [->|Hne].
      - intros [= ->]. apply list_elem_of_here.
      - intros Hg. apply list_elem_of_further. auto.
Qed.


Lemma has_true k m : has k m = true ↔ k ∈ keys m.
Proof.
      unfold has. destruct (get k m) as [v|] eqn:Hg.
      - split; [intros _|done]. apply get_Some_elem in Hg.
        apply list_elem_of_fmap. by exists (k, v).
      - split; [done|]. intros Hin. by apply get_None_keys in Hg.
Qed.

Lemma has_false k m : has k m = false ↔ get k m = None.
Proof. unfold has. destruct (get k m); naive_solver. Qed.

Lemma get_set_eq k v m : get k (set k v m) = Some v.
Proof.
      induction m as [|[k' v'] m IH]; simpl.
      - by rewrite decide_True.
      - destruct (decide (k' = k)); simpl.
        + by rewrite decide_True.
        + by rewrite decide_False.
Qed.

Lemma get_set_ne k k' v m : k ≠ k' → get k' (set k v m) = get k' m.
Proof.
      intros Hne. induction m as [|[k0 v0] m IH]; simpl.
      - by rewrite decide_False.
      - destruct (decide (k0 = k)) as [->|Hk0]; simpl.
        + by rewrite !decide_False.
        + destruct (decide (k0 = k')); [done|apply IH].
Qed.

Lemma keys_set k v m :
      keys (set k v m) = if has k m then keys m else keys m ++ [k].
Proof.
      unfold has, keys. induction m as [|[k0 v0] m IH]; [done|].
      cbn [set get]. destruct (decide (k0 = k)) as [->|Hne]; [done|].
      rewrite !fmap_cons, IH. by destruct (get k m).
Qed.

Lemma size_set k v m :
      size (set k v m) = if has k m then size m else S (size m).
Proof.
      unfold size, has. induction m as [|[k0 v0] m IH]; simpl; [done|].
      destruct (decide (k0 = k)) as [->|Hne]; simpl; [done|].
      rewrite IH. by destruct (get k m).
Qed.

Lemma wf_empty : wf (@empty K V).
Proof. apply NoDup_nil_2. Qed.

Lemma wf_set k v m : wf m → wf (set k v m).
Proof.
      unfold wf. rewrite keys_set. destruct (has k m) eqn:Hh; [done|].
      intros Hnd. apply NoDup_app. split_and!; [done| |apply NoDup_singleton].
      intros x Hx Hx'. apply list_elem_of_singleton in Hx' as ->.
      apply has_true in Hx. congruence.
Qed.

Lemma keys_filter (P : K * V → Prop) `{∀ e, Decision (P e)} m :
      keys (filter P m) `sublist_of` keys m.
Proof.
      unfold keys. apply fmap_sublist, sublist_filter.
Qed.

Lemma wf_filter (P : K * V → Prop) `{∀ e, Decision (P e)} m :
      wf m → wf (filter P m).
Proof. unfold wf. intros. eapply sublist_NoDup; [done|apply keys_filter]. Qed.

Lemma wf_delete k m : wf m → wf (delete k m).
Proof. apply wf_filter. Qed.

Lemma wf_deleteWhere drop m : wf m → wf (deleteWhere drop m).
Proof. apply wf_filter. Qed.

Lemma get_filter (P : K * V → Prop) `{∀ e, Decision (P e)} k m :
      wf m →
      get k (filter P m) =
        match get k m with
        | Some v => if decide (P (k, v)) then Some v else None
        | None => None
        end.
Proof.
      unfold wf, keys. induction m as [|[k0 v0] m IH]; [done|].
      intros Hnd. rewrite fmap_cons in Hnd. apply NoDup_cons in Hnd as [Hk0 Hnd].
      rewrite filter_cons. cbn [get fst] in *.
      destruct (decide (k0 = k)) as [->|Hne].
      - assert (get k m = None) as Hnone by (by apply get_None_keys).
        destruct (decide (P (k, v0))).
        + cbn [get]. by rewrite decide_True.
        + by rewrite IH, Hnone.
      - destruct (decide (P (k0, v0))).
        + cbn [get]. rewrite decide_False by done. by apply IH.
        + by apply IH.
Qed.

Lemma get_delete_eq k m : wf m → get k (delete k m) = None.
Proof.
      intros Hwf. unfold delete. rewrite get_filter by done.
      destruct (get k m); [|done]. by rewrite decide_False by (simpl; auto).
Qed.

Lemma get_delete_ne k k' m : wf m → k ≠ k' → get k' (delete k m) = get k' m.
Proof.
      intros Hwf Hne. unfold delete. rewrite get_filter by done.
      destruct (get k' m); [|done]. by rewrite decide_True by (simpl; auto).
Qed.

Lemma get_deleteWhere drop k m :
      wf m →
      get k (deleteWhere drop m) =
        match get k m with
        | Some v => if drop k v then None else Some v
        | None => None
        end.
Proof.
      intros Hwf. unfold deleteWhere. rewrite get_filter by done.
      destruct (get k m) as [v|]; [|done]. simpl.
      destruct (drop k v); [by rewrite decide_False|by rewrite decide_True].
Qed.

End Facts.
End OMapFacts.

(* ===================================================================== *)
(** * Properties of the rate limiter *)
(* ===================================================================== *)

Module RateLimitFacts.
Import RateLimit.

Lemma filter_filter_imp {A} (P Q : A → Prop)
      `{∀ x, Decision (P x)} `{∀ x, Decision (Q x)} (l : list A) :
    (∀ x, P x → Q x) → filter P (filter Q l) = filter P l.
Proof.
    intros HPQ. induction l as [|x l IH]; [done|].
    rewrite !filter_cons. destruct (decide (Q x)) as [q|nq].
    - rewrite filter_cons. destruct (decide (P x)); by rewrite IH.
    - destruct (decide (P x)) as [p|]; [by destruct nq; auto|done].
Qed.

Section Limiter.
Variables (N W : Z).

Lemma slide_slide τ t ts : τ ≤ t → slide W t (slide W τ ts) = slide W t ts.
Proof. intros. apply filter_filter_imp. intros x. lia. Qed.

Lemma isBlocked_false now b :
      isBlocked now b = false ↔ blocked b = 0 ∨ blocked b ≤ now.
Proof.
      unfold isBlocked. rewrite andb_false_iff, !bool_decide_eq_false. split.
      - intros [Hz|Hl]; [left|right; lia].
        destruct (decide (blocked b = 0)); [done|by destruct Hz].
      - intros [->|Hl]; [left; auto|right; lia].
Qed.

Lemma check_Some o now bs b :
      bs !! o = Some b →
      check N W o now bs = ((judge N W now b).1, <[o := (judge N W now b).2]> bs).
Proof. intros Hb. unfold check. by rewrite Hb. Qed.

Lemma check_lookup_other ip o now bs :
      ip ≠ o → (check N W ip now bs).2 !! o = bs !! o.
Proof.
      intros Hne. unfold check. destruct (bs !! ip); simpl.
      - by rewrite lookup_insert_ne.
      - case_bool_decide; simpl; [done|by rewrite lookup_insert_ne].
Qed.

    (** What [check] leaves in the bucket of the origin it was called for. *)
Lemma check_lookup_self o now bs :
      (check N W o now bs).2 !! o =
        match bs !! o with
        | Some b => Some (judge N W now b).2
        | None => if bool_decide (MAX_TRACKED_IPS ≤ Z.of_nat (size bs)) then None
                  else Some (judge N W now fresh_bucket).2
        end.
Proof.
      unfold check. destruct (bs !! o) eqn:Hb; simpl.
      - by rewrite lookup_insert_eq.
      - case_bool_decide; simpl; [done|by rewrite lookup_insert_eq].
Qed.

Lemma judge_stamps_recent τ t b :
      τ ≤ t →
      (length (slide W t (timestamps b)) ≤
       length (slide W t (timestamps (judge N W τ b).2)))%nat.
Proof.
      intros Hle. unfold judge. destruct (isBlocked τ b); [done|].
      case_bool_decide; simpl.
      - by rewrite slide_slide.
      - unfold slide at 2. rewrite filter_app, length_app.
        fold (slide W τ (timestamps b)). fold (slide W t (slide W τ (timestamps b))).
        rewrite slide_slide by done. lia.
Qed.

Lemma judge_stamps_accepted τ t b :
      τ ≤ t → t - W < τ → (judge N W τ b).1 = true →
      (S (length (slide W t (timestamps b))) ≤
       length (slide W t (timestamps (judge N W τ b).2)))%nat.
Proof.
      intros Hle Hin. unfold judge. destruct (isBlocked τ b); [done|].
      case_bool_decide; simpl; [done|]. intros _.
      unfold slide at 2. rewrite filter_app, length_app.
      fold (slide W τ (timestamps b)). fold (slide W t (slide W τ (timestamps b))).
      rewrite slide_slide by done.
      rewrite filter_cons. destruct (decide (t - W < τ)); [simpl; lia|lia].
Qed.

Lemma step_recent o t c bs :
      in_window W t c →
      (recent W o t bs +
         match c with
         | Check ip now =>
             if bool_decide (ip = o) && (check N W ip now bs).1 then 1 else 0
         | Cleanup _ => 0
         end ≤ recent W o t (step N W c bs))%nat.
Proof.
      intros [Hlo Hhi]. unfold recent, stamps. destruct c as [ip τ|τ]; simpl in *.
      - case_bool_decide as Hip; simpl.
        + subst ip. rewrite check_lookup_self.
          destruct (bs !! o) as [b|] eqn:Hb; simpl.
          * rewrite (check_Some _ _ _ _ Hb); simpl.
            destruct ((judge N W τ b).1) eqn:Hacc.
            -- pose proof (judge_stamps_accepted τ t b Hhi Hlo Hacc). lia.
            -- pose proof (judge_stamps_recent τ t b Hhi). lia.
          * unfold check. rewrite Hb. case_bool_decide; simpl; [lia|].
            destruct ((judge N W τ fresh_bucket).1) eqn:Hacc.
            -- pose proof (judge_stamps_accepted τ t fresh_bucket Hhi Hlo Hacc).
               simpl in *. lia.
            -- lia.
        + rewrite check_lookup_other by done. lia.
      - unfold cleanup. rewrite lookup_omap.
        destruct (bs !! o) as [b|]; simpl; [|lia].
        unfold sweep. destruct (isBlocked τ b); simpl; [lia|].
        assert (Hff : slide W t (filter (λ x, τ - W * 2 < x) (timestamps b))
                      = slide W t (timestamps b)).
        { apply filter_filter_imp. intros x. lia. }
        destruct (filter (λ x, τ - W * 2 < x) (timestamps b)) as [|y l]; simpl.
        + rewrite <- Hff. simpl. lia.
        + rewrite Hff. lia.
Qed.

Lemma exec_recent o t cs bs :
      Forall (in_window W t) cs →
      (recent W o t bs + accepted N W o cs bs ≤ recent W o t (exec N W cs bs))%nat.
Proof.
      intros Hcs. revert bs. induction Hcs as [|c cs Hc _ IH]; intros bs; simpl.
      - lia.
      - specialize (IH (step N W c bs)).
        pose proof (step_recent o t c bs Hc). unfold exec in *. lia.
Qed.

    (** Enough recent timestamps: the check is refused. *)
Lemma check_refused_when_full o t bs :
      N ≤ Z.of_nat (recent W o t bs) → (check N W o t bs).1 = false.
Proof.
      unfold recent, stamps, check. intros Hn.
      destruct (bs !! o) as [b|]; simpl in *.
      - unfold judge. destruct (isBlocked t b); [done|].
        rewrite bool_decide_eq_true_2; done.
      - case_bool_decide; [done|]. simpl. unfold judge. simpl.
        rewrite bool_decide_eq_true_2; done.
Qed.

Lemma judge_settled τ t b :
      τ ≤ t →
      Forall (λ x, x ≤ t) (timestamps b) → isBlocked (t + W) b = false →
      Forall (λ x, x ≤ t) (timestamps (judge N W τ b).2)
      ∧ isBlocked (t + W) (judge N W τ b).2 = false.
Proof.
      intros Hle Hts Hbl. unfold judge. destruct (isBlocked τ b); [done|].
      assert (Forall (λ x, x ≤ t) (slide W τ (timestamps b))) as Hs.
      { apply Forall_forall. intros x Hx.
        apply list_elem_of_filter in Hx as [_ Hx].
        rewrite Forall_forall in Hts. by apply Hts. }
      case_bool_decide; simpl; split.
      - done.
      - apply isBlocked_false. simpl. lia.
      - apply Forall_app. split; [done|]. by repeat constructor.
      - apply isBlocked_false. simpl. by left.
Qed.

Lemma step_settled o t c bs :
      call_time c ≤ t → settled W o t bs → settled W o t (step N W c bs).
Proof.
      intros Hle Hset b'. destruct c as [ip τ|τ]; simpl in *.
      - destruct (decide (ip = o)) as [->|Hne].
        + rewrite check_lookup_self. destruct (bs !! o) as [b|] eqn:Hb.
          * intros [= <-]. destruct (Hset b Hb). by apply judge_settled.
          * case_bool_decide; [done|]. intros [= <-].
            apply judge_settled; [done|by constructor|].
            apply isBlocked_false. by left.
        + rewrite check_lookup_other by done. apply Hset.
      - unfold cleanup. rewrite lookup_omap.
        destruct (bs !! o) as [b|] eqn:Hb; simpl; [|done].
        destruct (Hset b Hb) as [Hts Hbl]. unfold sweep.
        destruct (isBlocked τ b); [by intros [= <-]|].
        destruct (filter (λ x, τ - W * 2 < x) (timestamps b)) as [|y l] eqn:Hf;
          [done|]. intros [= <-]. simpl. split.
        + rewrite <- Hf. apply Forall_forall. intros x Hx.
          apply list_elem_of_filter in Hx as [_ Hx].
          rewrite Forall_forall in Hts. by apply Hts.
        + apply isBlocked_false. apply isBlocked_false in Hbl. simpl. done.
Qed.

Lemma exec_settled o t cs bs :
      Forall (λ c, call_time c ≤ t) cs → settled W o t bs →
      settled W o t (exec N W cs bs).
Proof.
      intros Hcs. revert bs. induction Hcs as [|c cs Hc _ IH]; intros bs Hs; [done|].
      simpl. apply IH. by apply step_settled.
Qed.

    (** Checks by other origins and cleanup runs, at any time, leave the
        origin's bucket settled (or remove it). *)
Lemma step_settled_other o t c bs :
      not_by o c → settled W o t bs → settled W o t (step N W c bs).
Proof.
      intros Hc Hset b'. destruct c as [ip τ|τ]; simpl in *.
      - rewrite check_lookup_other by done. apply Hset.
      - unfold cleanup. rewrite lookup_omap.
        destruct (bs !! o) as [b|] eqn:Hb; simpl; [|done].
        destruct (Hset b Hb) as [Hts Hbl]. unfold sweep.
        destruct (isBlocked τ b); [by intros [= <-]|].
        destruct (filter (λ x, τ - W * 2 < x) (timestamps b)) as [|y l] eqn:Hf;
          [done|]. intros [= <-]. simpl. split.
        + rewrite <- Hf. apply Forall_forall. intros x Hx.
          apply list_elem_of_filter in Hx as [_ Hx].
          rewrite Forall_forall in Hts. by apply Hts.
        + apply isBlocked_false. apply isBlocked_false in Hbl. simpl. done.
Qed.

Lemma exec_settled_others o t cs bs :
      Forall (not_by o) cs → settled W o t bs → settled W o t (exec N W cs bs).
Proof.
      intros Hcs. revert bs. induction Hcs as [|c cs Hc _ IH]; intros bs Hs; [done|].
      simpl. apply IH. by apply step_settled_other.
Qed.

    (** A settled bucket accepts again one full window later. *)
Lemma check_accepted_after_window o t t' bs b :
      1 ≤ N → bs !! o = Some b →
      Forall (λ x, x ≤ t) (timestamps b) → isBlocked (t + W) b = false →
      t + W ≤ t' → (check N W o t' bs).1 = true.
Proof.
      intros HN Hb Hts Hbl Ht'. rewrite (check_Some _ _ _ _ Hb). simpl.
      unfold judge.
      assert (isBlocked t' b = false) as ->.
      { apply isBlocked_false. apply isBlocked_false in Hbl. lia. }
      assert (slide W t' (timestamps b) = []) as ->.
      { unfold slide. induction Hts as [|x l Hx _ IH]; [done|].
        rewrite filter_cons. destruct (decide (t' - W < x)); [lia|done]. }
      simpl. rewrite bool_decide_eq_false_2; [done|lia].
Qed.

    (** An origin without a bucket is judged on an empty bucket if there is
        room for it, and refused otherwise. *)
Lemma check_untracked o t bs :
      1 ≤ N → bs !! o = None →
      (check N W o t bs).1 = true ↔ Z.of_nat (size bs) < MAX_TRACKED_IPS.
Proof.
      intros HN Hb. unfold check. rewrite Hb. case_bool_decide as Hfull; simpl.
      - split; [done|lia].
      - unfold judge. simpl. rewrite bool_decide_eq_false_2 by lia. simpl.
        split; [lia|done].
Qed.

Lemma window_contract_holds : 1 ≤ N → window_contract N W.
Proof.
      intros HN o t t' bs cs others Hset Hcs Hacc Hoth Ht' r.
      pose proof (exec_recent o t cs bs Hcs) as Hrec.
      assert (Hfull : N ≤ Z.of_nat (recent W o t (exec N W cs bs))) by lia.
      split; [by apply check_refused_when_full|].
      assert (Forall (λ c, call_time c ≤ t) cs) as Hcs'.
      { eapply Forall_impl; [exact Hcs|]. by intros c [_ ?]. }
      pose proof (exec_settled o t cs bs Hcs' Hset) as Hs1.
      pose proof (step_settled o t (Check o t) _ (Z.le_refl t) Hs1) as Hs2.
      simpl in Hs2. fold r in Hs2.
      pose proof (exec_settled_others o t others _ Hoth Hs2) as Hs3.
      unfold has_room_for.
      destruct (exec N W others r.2 !! o) as [b|] eqn:Hb.
      - destruct (Hs3 b Hb) as [Hts Hbl]. split; [by intros _; left; eexists|].
        intros _. by eapply check_accepted_after_window.
      - rewrite (check_untracked _ _ _ HN Hb). split; [by right|].
        by intros [[? ?]|?].
Qed.

Lemma check_size ip now bs :
      Z.of_nat (size bs) ≤ MAX_TRACKED_IPS →
      Z.of_nat (size (check N W ip now bs).2) ≤ MAX_TRACKED_IPS.
Proof.
      intros Hsz. unfold check. destruct (bs !! ip) as [b|] eqn:Hb; simpl.
      - by rewrite map_size_insert_Some.
      - case_bool_decide; simpl; [done|].
        rewrite map_size_insert_None by done. lia.
Qed.

End Limiter.

Lemma crowd_keys_NoDup n :
    NoDup ((λ k : nat, (pretty k, fresh_bucket)) <$> seq 0 n).*1.
Proof.
    rewrite <- list_fmap_compose. apply NoDup_fmap_2; [|apply NoDup_seq].
    intros x y Hxy. simpl in Hxy. by apply (inj pretty) in Hxy.
Qed.

Lemma crowd_size : Z.of_nat (size crowd) = MAX_TRACKED_IPS.
Proof.
    unfold crowd. rewrite map_size_list_to_map by apply crowd_keys_NoDup.
    rewrite length_fmap, length_seq. unfold MAX_TRACKED_IPS. lia.
Defined.

Lemma crowd_newcomer : crowd !! newcomer = None.
Proof.
    unfold crowd, newcomer. apply not_elem_of_list_to_map.
    rewrite <- list_fmap_compose. intros Hin.
    apply list_elem_of_fmap in Hin as (k & Hk & Hin). simpl in Hk.
    apply (inj pretty) in Hk. subst k. apply elem_of_seq in Hin. lia.
Defined.

  (** C3 (amended): for every origin, every maximum [N ≥ 1] and window [W].
      A check of an origin that is blocked, or that has no bucket while
      50,000 origins are tracked, is refused and changes nothing.  Any other
      check drops the timestamps not newer than [now - W]; if [N] or more
      remain it refuses and sets the block-until timestamp to [now + W],
      otherwise it appends [now] and accepts.  Hence, after [N] accepted
      checks of one origin inside one window the next check is refused; and
      a check made one full window after that refusal, whatever other
      origins and the cleanup timer did in between, is accepted, unless the
      origin's bucket was removed meanwhile and 50,000 origins are tracked. *)
Theorem sliding_window_check (N W : Z) :
    1 ≤ N →
    (∀ o now bs,
        let judged b :=
          let kept := slide W now (timestamps b) in
          if bool_decide (N ≤ Z.of_nat (length kept))
          then (false, <[o := Bucket kept (now + W)]> bs)
          else (true, <[o := Bucket (kept ++ [now]) 0]> bs) in
        check N W o now bs =
          match bs !! o with
          | Some b => if isBlocked now b then (false, bs) else judged b
          | None =>
              if bool_decide (MAX_TRACKED_IPS ≤ Z.of_nat (size bs)) then (false, bs)
              else judged fresh_bucket
          end)
    ∧ window_contract N W.
Proof.
    intros HN. split; [|by apply window_contract_holds].
    intros o now bs judged. unfold check, judge.
    destruct (bs !! o) as [b|] eqn:Hb.
    - destruct (isBlocked now b); simpl.
      + by rewrite insert_id.
      + subst judged. simpl. by case_bool_decide.
    - case_bool_decide; [done|]. subst judged. simpl. by case_bool_decide.
Qed.

Lemma sliding_window_check_witness :
    1 ≤ 2 ∧
    let o := "203.0.113.7"%string in
    let r := check 2 1000 o 1500
               (exec 2 1000 [Check o 1000; Cleanup 1100; Check o 1200] ∅) in
    let later := exec 2 1000 [Check "198.51.100.9" 1600; Cleanup 5000] r.2 in
    r.1 = false ∧ later !! o = None ∧ (check 2 1000 o 6000 later).1 = true.
Proof.
    split; [lia|]. intros o r later.
    destruct (sliding_window_check 2 1000 ltac:(lia)) as [_ H].
    destruct (H "203.0.113.7"%string 1500 6000 ∅
                [Check "203.0.113.7" 1000; Cleanup 1100; Check "203.0.113.7" 1200]
                [Check "198.51.100.9" 1600; Cleanup 5000]) as [Hrefused Hretry].
    - intros b Hb. by rewrite lookup_empty in Hb.
    - repeat constructor; simpl; lia.
    - vm_compute. discriminate.
    - repeat constructor. simpl. discriminate.
    - lia.
    - split; [exact Hrefused|]. split; [vm_compute; reflexivity|].
      apply Hretry. right. vm_compute. reflexivity.
Defined.

  (** C3 as stated fails.  With [N = 1] and [W = 1000]: the check at 0 is
      accepted; the check at 999 is refused, does not append its timestamp
      and blocks the origin until 1999; the check at 1001, after the window
      of the accepted check has elapsed, is still refused and changes
      nothing (the block is not moved either); the first check accepted
      again is the one at 1999, one full window after the refusal.  With
      [N = 0] no check is ever accepted.  And with 50,000 origins tracked a
      check of an origin without a bucket is refused and changes nothing. *)
Lemma block_outlasts_window :
    let o := "203.0.113.7"%string in
    let r1 := check 1 1000 o 0 ∅ in
    let r2 := check 1 1000 o 999 r1.2 in
    let r3 := check 1 1000 o 1001 r2.2 in
    let r4 := check 1 1000 o 1998 r3.2 in
    let r5 := check 1 1000 o 1999 r4.2 in
    r1.1 = true
    ∧ r2.1 = false ∧ r2.2 !! o = Some (Bucket [0] 1999)
    ∧ r3.1 = false ∧ r3.2 !! o = Some (Bucket [0] 1999)
    ∧ r4.1 = false
    ∧ r5.1 = true
    ∧ (∀ ip t bs, (check 0 1000 ip t bs).1 = false)
    ∧ check 1 1000 newcomer 0 crowd = (false, crowd).
Proof.
    intros o r1 r2 r3 r4 r5.
    assert (r1.1 = true ∧ r2.1 = false ∧ r2.2 !! o = Some (Bucket [0] 1999)
            ∧ r3.1 = false ∧ r3.2 !! o = Some (Bucket [0] 1999)
            ∧ r4.1 = false ∧ r5.1 = true) as Hrun
      by (vm_compute; repeat split; reflexivity).
    destruct Hrun as (H1 & H2 & H3 & H4 & H5 & H6 & H7).
    split; [exact H1|]. split; [exact H2|]. split; [exact H3|].
    split; [exact H4|]. split; [exact H5|]. split; [exact H6|].
    split; [exact H7|]. split.
    - intros ip t bs. unfold check, judge.
      destruct (bs !! ip) as [b|]; simpl.
      + destruct (isBlocked t b); [done|].
        rewrite bool_decide_eq_true_2; [done|lia].
      + case_bool_decide; [done|]. simpl. done.
    - unfold check. rewrite crowd_newcomer.
      rewrite bool_decide_eq_true_2; [reflexivity|].
      rewrite crowd_size. apply Z.le_refl.
Qed.

  (** C10: a limiter never tracks more than 50,000 origins: [check] keeps
      the bucket map within the bound, and on a full map a check from an
      origin without a bucket is refused and nothing is stored for it. *)
Theorem tracked_origins_bounded (N W : Z) ip now bs :
    Z.of_nat (size bs) ≤ MAX_TRACKED_IPS →
    Z.of_nat (size (check N W ip now bs).2) ≤ MAX_TRACKED_IPS
    ∧ (MAX_TRACKED_IPS ≤ Z.of_nat (size bs) → bs !! ip = None →
       check N W ip now bs = (false, bs)).
Proof.
    intros Hsz. split; [by apply check_size|].
    intros Hfull Hnew. unfold check. rewrite Hnew.
    by rewrite bool_decide_eq_true_2.
Qed.

Lemma tracked_origins_bounded_witness :
    Z.of_nat (size crowd) ≤ MAX_TRACKED_IPS
    ∧ MAX_TRACKED_IPS ≤ Z.of_nat (size crowd)
    ∧ crowd !! newcomer = None
    ∧ Z.of_nat (size (check 30 60000 newcomer 1700000000000 crowd).2) ≤ MAX_TRACKED_IPS
    ∧ check 30 60000 newcomer 1700000000000 crowd = (false, crowd).
Proof.
    pose proof crowd_size as Hsz. pose proof crowd_newcomer as Hnew.
    assert (Z.of_nat (size crowd) ≤ MAX_TRACKED_IPS) as Hle
      by (rewrite Hsz; apply Z.le_refl).
    assert (MAX_TRACKED_IPS ≤ Z.of_nat (size crowd)) as Hge
      by (rewrite Hsz; apply Z.le_refl).
    destruct (tracked_origins_bounded 30 60000 newcomer 1700000000000 crowd Hle)
      as [H1 H2].
    exact (conj Hle (conj Hge (conj Hnew (conj H1 (H2 Hge Hnew))))).
Defined.

End RateLimitFacts.

(* ===================================================================== *)
(** * More on the rate limiter: the cleanup timer and the block *)
(* ===================================================================== *)

Module RateLimitMore.
Import RateLimit RateLimitFacts.

Section Limiter.
Variables (N W : Z).

Lemma cleanup_dom τ (bs : gmap string bucket) : dom (cleanup W τ bs) ⊆ dom bs.
Proof.
  intros k Hk. apply elem_of_dom in Hk as [v Hv]. unfold cleanup in Hv.
  rewrite lookup_omap in Hv. apply elem_of_dom.
  destruct (bs !! k) as [b|]; [by eexists|done].
Qed.

Lemma cleanup_size τ (bs : gmap string bucket) :
  (size (cleanup W τ bs) ≤ size bs)%nat.
Proof.
  rewrite <- !(size_dom (D := gset string)). apply subseteq_size, cleanup_dom.
Qed.

Lemma cleanup_size_dropped τ (bs : gmap string bucket) ip :
  is_Some (bs !! ip) → cleanup W τ bs !! ip = None →
  (size (cleanup W τ bs) < size bs)%nat.
Proof.
  intros [b Hb] Hgone.
  assert (dom (cleanup W τ bs) ⊆ dom (delete ip bs)) as Hsub.
  { intros k Hk. pose proof (cleanup_dom τ bs k Hk) as Hk'.
    rewrite dom_delete. apply elem_of_difference. split; [done|].
    intros Heq%elem_of_singleton. subst k.
    apply elem_of_dom in Hk as [v Hv]. congruence. }
  apply subseteq_size in Hsub. rewrite !size_dom in Hsub.
  rewrite map_size_delete, Hb in Hsub.
  assert (size bs ≠ 0%nat).
  { intros Hz. apply map_size_empty_inv in Hz. subst bs. by rewrite lookup_empty in Hb. }
  simpl in Hsub. lia.
Qed.

Lemma judge_verdict_after_sweep τ t b :
  0 ≤ W → τ ≤ t →
  (judge N W t (default fresh_bucket (sweep W τ b))).1 = (judge N W t b).1.
Proof.
  intros HW Hle. unfold sweep.
  destruct (isBlocked τ b) eqn:Hbl; [done|].
  apply isBlocked_false in Hbl.
  assert (isBlocked t b = false) as Hblt by (apply isBlocked_false; lia).
  assert (slide W t (filter (λ x, τ - W * 2 < x) (timestamps b))
          = slide W t (timestamps b)) as Hff.
  { apply filter_filter_imp. intros x. lia. }
  destruct (filter (λ x, τ - W * 2 < x) (timestamps b)) as [|y l] eqn:Hf; simpl.
  - unfold judge. rewrite Hblt. simpl. rewrite <- Hff. simpl.
    by repeat case_bool_decide.
  - unfold judge. simpl. unfold isBlocked in *. simpl. rewrite Hblt.
    rewrite Hff. by repeat case_bool_decide.
Qed.

End Limiter.

(** X1: the cleanup timer is invisible to a tracked origin.  With a
    non-negative window, running the cleanup at any earlier time does not
    change the answer [check] gives that origin, and it never enlarges the
    table. *)
Theorem cleanup_keeps_verdicts (N W : Z) ip τ t (bs : gmap string bucket) :
  0 ≤ W → τ ≤ t → Z.of_nat (size bs) ≤ MAX_TRACKED_IPS → is_Some (bs !! ip) →
  (size (cleanup W τ bs) ≤ size bs)%nat
  ∧ (check N W ip t (cleanup W τ bs)).1 = (check N W ip t bs).1.
Proof.
  intros HW Hle Hsz [b Hb]. split; [apply cleanup_size|].
  pose proof (judge_verdict_after_sweep N W τ t b HW Hle) as Hj.
  rewrite (check_Some _ _ _ _ _ _ Hb). simpl.
  unfold check. unfold cleanup at 1. rewrite lookup_omap, Hb. simpl.
  destruct (sweep W τ b) as [b'|] eqn:Hs; simpl in *.
  - done.
  - pose proof (cleanup_size_dropped W τ bs ip) as Hlt.
    rewrite bool_decide_eq_false_2; [done|].
    assert (size (cleanup W τ bs) < size bs)%nat; [|lia].
    apply Hlt; [by eexists|]. unfold cleanup. by rewrite lookup_omap, Hb.
Qed.

Lemma cleanup_keeps_verdicts_witness :
  let bs := exec 2 1000 [Check "203.0.113.7" 1000; Check "203.0.113.7" 1200] ∅ in
  0 ≤ 1000 ∧ 5000 ≤ 5000 ∧ Z.of_nat (size bs) ≤ MAX_TRACKED_IPS
  ∧ is_Some (bs !! "203.0.113.7")
  ∧ cleanup 1000 5000 bs = ∅
  ∧ (check 2 1000 "203.0.113.7" 5000 (cleanup 1000 5000 bs)).1
    = (check 2 1000 "203.0.113.7" 5000 bs).1.
Proof.
  intros bs.
  assert (Z.of_nat (size bs) ≤ MAX_TRACKED_IPS) as Hsz by (vm_compute; discriminate).
  assert (is_Some (bs !! "203.0.113.7")) as Hin by (vm_compute; eauto).
  destruct (cleanup_keeps_verdicts 2 1000 "203.0.113.7" 5000 5000 bs
              ltac:(lia) ltac:(lia) Hsz Hin) as [_ Hv].
  split_and!; [lia|lia|exact Hsz|exact Hin|vm_compute; reflexivity|exact Hv].
Defined.

(** X2: a bucket never holds more timestamps than the configured maximum.
    For a maximum [N ≥ 0], whatever sequence of checks and cleanups a fresh
    limiter receives, every bucket it holds has at most [N] timestamps. *)
Theorem bucket_holds_at_most_max (N W : Z) cs o b :
  0 ≤ N → exec N W cs ∅ !! o = Some b →
  Z.of_nat (length (timestamps b)) ≤ N.
Proof.
  intros HN.
  assert (∀ cs (bs : gmap string bucket),
            map_Forall (λ _ b, Z.of_nat (length (timestamps b)) ≤ N) bs →
            map_Forall (λ _ b, Z.of_nat (length (timestamps b)) ≤ N) (exec N W cs bs))
    as Hinv.
  { clear cs o b. intros cs. induction cs as [|c cs IH]; intros bs Hbs; [done|].
    simpl. apply IH. clear IH.
    assert (∀ now b, Z.of_nat (length (timestamps b)) ≤ N →
                     Z.of_nat (length (timestamps (judge N W now b).2)) ≤ N) as Hjudge.
    { intros now b Hb. unfold judge. destruct (isBlocked now b); [done|].
      pose proof (length_filter (λ t, now - W < t) (timestamps b)) as Hf.
      case_bool_decide; simpl.
      - unfold slide. lia.
      - rewrite length_app. simpl. unfold slide in *. lia. }
    destruct c as [ip now|now]; simpl.
    - unfold check. destruct (bs !! ip) as [b|] eqn:Hb; simpl.
      + apply map_Forall_insert_2; [|done]. apply Hjudge. by apply (Hbs ip).
      + case_bool_decide; simpl; [done|].
        apply map_Forall_insert_2; [|done]. apply Hjudge. simpl. lia.
    - intros k b Hk. unfold cleanup in Hk. rewrite lookup_omap in Hk.
      destruct (bs !! k) as [b0|] eqn:Hb0; [|done]. simpl in Hk.
      pose proof (Hbs k b0 Hb0) as Hb0'. simpl in Hb0'.
      unfold sweep in Hk. destruct (isBlocked now b0); [by simplify_eq|].
      pose proof (length_filter (λ t, now - W * 2 < t) (timestamps b0)) as Hf.
      destruct (filter _ (timestamps b0)) as [|y l] eqn:Hfl; [done|].
      simplify_eq. simpl in *. lia. }
  intros Hb. apply (Hinv cs ∅ (map_Forall_empty _) o b Hb).
Qed.

Lemma bucket_holds_at_most_max_witness :
  let cs := [Check "203.0.113.7" 1000; Check "203.0.113.7" 1001;
             Check "203.0.113.7" 1002; Cleanup 1500; Check "203.0.113.7" 1600] in
  0 ≤ 2
  ∧ exec 2 1000 cs ∅ !! "203.0.113.7" = Some (Bucket [1000; 1001] 2002)
  ∧ Z.of_nat (length [1000; 1001]) ≤ 2.
Proof.
  intros cs.
  assert (exec 2 1000 cs ∅ !! "203.0.113.7" = Some (Bucket [1000; 1001] 2002)) as Hb
    by (vm_compute; reflexivity).
  split_and!; [lia|exact Hb|].
  exact (bucket_holds_at_most_max 2 1000 cs "203.0.113.7" _ ltac:(lia) Hb).
Defined.

(** X3: a check that arrives while the origin is blocked is refused and
    leaves the limiter exactly as it was: the block is not extended and the
    attempt is not recorded. *)
Theorem check_while_blocked_changes_nothing (N W : Z) ip now
    (bs : gmap string bucket) b :
  bs !! ip = Some b → blocked b ≠ 0 → now < blocked b →
  check N W ip now bs = (false, bs).
Proof.
  intros Hb Hnz Hlt. rewrite (check_Some _ _ _ _ _ _ Hb). unfold judge.
  assert (isBlocked now b = true) as ->.
  { unfold isBlocked. by rewrite !bool_decide_eq_true_2. }
  simpl. by rewrite insert_id.
Qed.

Lemma check_while_blocked_changes_nothing_witness :
  let bs := exec 1 1000 [Check "203.0.113.7" 1000; Check "203.0.113.7" 1100] ∅ in
  bs !! "203.0.113.7" = Some (Bucket [1000] 2100)
  ∧ 2100 ≠ 0 ∧ 2099 < 2100
  ∧ check 1 1000 "203.0.113.7" 2099 bs = (false, bs).
Proof.
  intros bs.
  assert (bs !! "203.0.113.7" = Some (Bucket [1000] 2100)) as Hb
    by (vm_compute; reflexivity).
  split_and!; [exact Hb|lia|lia|].
  apply (check_while_blocked_changes_nothing 1 1000 "203.0.113.7" 2099 bs _ Hb);
    simpl; lia.
Defined.

End RateLimitMore.

(* ===================================================================== *)
(** * Properties of the buffer codecs *)
(* ===================================================================== *)

Module BufFacts.
Import Buf.

Lemma hex_byte_round_trip (b : byte) (rest : list ascii) :
  ofHexChars (hexDigit (octet b / 16) :: hexDigit (octet b mod 16) :: rest)
  = b :: ofHexChars rest.
Proof. destruct b; reflexivity. Qed.

Lemma toHex_chars (data : list byte) :
  String.list_ascii_of_string (toHex data)
  = concat ((λ b, [hexDigit (octet b / 16); hexDigit (octet b mod 16)]) <$> data).
Proof.
  induction data as [|b data IH]; [done|].
  cbn [toHex String.list_ascii_of_string]. by rewrite IH.
Qed.

(** Hex text read back gives the bytes it was written from. *)
Lemma ofHex_toHex (data : list byte) : ofHex (toHex data) = data.
Proof.
  unfold ofHex. rewrite toHex_chars.
  induction data as [|b data IH]; [done|].
  rewrite fmap_cons. cbn [concat app]. rewrite hex_byte_round_trip. by rewrite IH.
Qed.

Lemma toHex_inj (a b : list byte) : toHex a = toHex b → a = b.
Proof. intros H. by rewrite <- (ofHex_toHex a), <- (ofHex_toHex b), H. Qed.

Lemma toHex_length (data : list byte) :
  String.length (toHex data) = (2 * length data)%nat.
Proof. induction data as [|b data IH]; [done|]. simpl. rewrite IH. lia. Qed.

Lemma hexDigit_is_hex (n : Z) : is_Some (hexValue (hexDigit n)).
Proof.
  unfold hexDigit.
  destruct (Z.to_nat n) as [|[|[|[|[|[|[|[|[|[|[|[|[|[|[|[|k]]]]]]]]]]]]]]]];
    vm_compute; eauto.
Qed.

End BufFacts.

(* ===================================================================== *)
(** * Reading back what was written *)
(* ===================================================================== *)

Module BufMore.
Import Buf.

Lemma octet_of_octet z : octet (of_octet z) = z mod 256.
Proof.
  unfold octet, of_octet.
  pose proof (Z.mod_pos_bound z 256 eq_refl) as Hb.
  destruct (Byte.of_N (Z.to_N (z mod 256))) as [b|] eqn:H; simpl.
  - apply Byte.to_of_N in H. rewrite H. rewrite Z2N.id; lia.
  - apply Byte.of_N_None_iff in H. lia.
Qed.

Lemma octet_range b : 0 ≤ octet b < 256.
Proof.
  unfold octet. pose proof (Byte.to_N_bounded b). lia.
Qed.

Lemma lookup_past {A} (pre l : list A) i : (pre ++ l) !! (length pre + i)%nat = l !! i.
Proof. rewrite lookup_app_r by lia. f_equal. lia. Qed.

Lemma read16_write16 v b (pre post : list byte) :
  writeUInt16BE v = Some b →
  readUInt16BE (pre ++ b ++ post) (length pre) = Some v.
Proof.
  unfold writeUInt16BE. case_bool_decide as Hv; [|done]. intros [= <-].
  unfold readUInt16BE.
  replace (S (length pre)) with (length pre + 1)%nat by lia.
  replace (length pre) with (length pre + 0)%nat at 1 by lia.
  rewrite !lookup_past. simpl.
  rewrite !octet_of_octet. f_equal.
  rewrite (Z.mod_small (v / 256)) by (split; [apply Z.div_pos; lia|apply Z.div_lt_upper_bound; lia]).
  pose proof (Z.div_mod v 256). lia.
Qed.

Lemma read32_write32 v b (pre post : list byte) :
  writeUInt32BE v = Some b →
  readUInt32BE (pre ++ b ++ post) (length pre) = Some v.
Proof.
  unfold writeUInt32BE. case_bool_decide as Hv; [|done]. intros [= <-].
  unfold readUInt32BE.
  replace (length pre) with (length pre + 0)%nat at 1 by lia.
  rewrite !lookup_past. simpl.
  rewrite !octet_of_octet. f_equal.
  Z.div_mod_to_equations. lia.
Qed.

End BufMore.

(* ===================================================================== *)
(** * Properties of the circuit registry and of rendezvous pairing *)
(* ===================================================================== *)

Module CircuitFacts.
Import Buf Net Circuits OMap OMapFacts.

Lemma fill0_idemp (b : list byte) : fill0 (fill0 b) = fill0 b.
Proof. unfold fill0. by rewrite length_replicate. Qed.

Lemma wiped_zeroKeys c : wiped (zeroKeys c).
Proof. unfold wiped. simpl. by rewrite !fill0_idemp. Qed.

Lemma heap_modify l f s l' :
  heap (modify l f s) !! l' =
    if decide (l = l') then f <$> heap s !! l else heap s !! l'.
Proof. unfold modify. simpl. apply lookup_alter. Qed.

Lemma heap_modify_eq l f s : heap (modify l f s) !! l = f <$> heap s !! l.
Proof. rewrite heap_modify. by rewrite decide_True. Qed.


(** A field update that leaves the id alone keeps the registry sound. *)
Lemma consistent_modify l f s :
  (∀ c, circuitId (f c) = circuitId c) →
  consistent s → consistent (modify l f s).
Proof.
  intros Hf (Hwf & Hreg & Hfree). split_and!; [done| |].
  - intros cid l' Hget. destruct (Hreg cid l' Hget) as (c & Hc & Hid).
    rewrite heap_modify. destruct (decide (l = l')) as [->|Hne].
    + exists (f c). rewrite Hc. simpl. by rewrite Hf.
    + by exists c.
  - intros l' Hl'. apply Hfree. rewrite heap_modify in Hl'.
    destruct (decide (l = l')) as [->|]; [|done].
    by apply fmap_is_Some in Hl'.
Qed.

Lemma consistent_withNet n s : consistent s → consistent (withNet n s).
Proof. done. Qed.

Lemma consistent_closeOutbound c s :
  consistent s → consistent (closeOutbound c s).
Proof.
  unfold closeOutbound. destruct (outboundWs c); [|done].
  by case_bool_decide.
Qed.

Lemma consistent_initial : consistent Circuits.initial.
Proof.
  split_and!.
  - apply NoDup_nil_2.
  - intros cid l Hget. done.
  - intros l [c Hc]. simpl in Hc. by rewrite lookup_empty in Hc.
Qed.

Lemma consistent_getCircuit cid now s :
  consistent s → consistent (getCircuit cid now s).2.
Proof.
  unfold getCircuit. destruct (get cid (circuits s)); [|done].
  by apply consistent_modify.
Qed.

Lemma consistent_registerCircuit cid krx ktx w now s :
  consistent s → consistent (registerCircuit cid krx ktx w now s).2.
Proof.
  intros (Hwf & Hreg & Hfree). unfold registerCircuit.
  case_bool_decide; [done|]. simpl. split_and!; simpl.
  - by apply wf_set.
  - intros cid' l Hget. destruct (decide (cid = cid')) as [->|Hne].
    + rewrite get_set_eq in Hget. injection Hget as <-.
      rewrite lookup_insert_eq. by eexists.
    + rewrite get_set_ne in Hget by done.
      destruct (Hreg cid' l Hget) as (c & Hc & Hid).
      assert (l < nextLoc s)%nat by (apply Hfree; by eexists).
      rewrite lookup_insert_ne by lia. by exists c.
  - intros l Hl. destruct (decide (nextLoc s = l)) as [<-|Hne]; [lia|].
    rewrite lookup_insert_ne in Hl by done. apply Hfree in Hl. lia.
Qed.

Lemma consistent_delete cid s :
  consistent s → consistent (withCircuits (delete cid (circuits s)) s).
Proof.
  intros (Hwf & Hreg & Hfree). split_and!; simpl; [by apply wf_delete| |done].
  intros cid' l Hget. destruct (decide (cid = cid')) as [->|Hne].
  - by rewrite get_delete_eq in Hget.
  - rewrite get_delete_ne in Hget by done. by apply Hreg.
Qed.

(** A circuit without a (truthy) partner id is destroyed without recursion. *)
Lemma destroy_unpaired n cid s l c :
  get cid (circuits s) = Some l → heap s !! l = Some c →
  truthyPair c = None →
  destroyCircuit (S n) cid s =
    Some (withCircuits (delete cid (circuits s))
            (modify l zeroKeys (closeOutbound c s))).
Proof.
  intros Hget Hc Hp. simpl. rewrite Hget, Hc, Hp. simpl.
  unfold closeOutbound. destruct (outboundWs c); [|done].
  by case_bool_decide.
Qed.

Lemma circuits_closeOutbound c s : circuits (closeOutbound c s) = circuits s.
Proof. unfold closeOutbound. destruct (outboundWs c); [|done]. by case_bool_decide. Qed.

Lemma heap_closeOutbound c s : heap (closeOutbound c s) = heap s.
Proof. unfold closeOutbound. destruct (outboundWs c); [|done]. by case_bool_decide. Qed.

Lemma destroy_paired n cid s l c pid lp :
  consistent s →
  get cid (circuits s) = Some l → heap s !! l = Some c →
  truthyPair c = Some pid → get pid (circuits s) = Some lp →
  ∃ partner,
    heap (modify lp (setPair None) (modify l zeroKeys (closeOutbound c s))) !! lp
      = Some partner
    ∧ destroyCircuit (S (S n)) cid s = Some (afterCascade cid l c pid lp partner s).
Proof.
  intros Hcons Hget Hc Hp Hgetp.
  set (s2 := modify l zeroKeys (closeOutbound c s)).
  set (s3 := modify lp (setPair None) s2).
  assert (consistent s3) as Hcons3.
  { apply consistent_modify; [done|]. apply consistent_modify; [done|].
    by apply consistent_closeOutbound. }
  assert (get pid (circuits s3) = Some lp) as Hgetp3.
  { subst s3 s2. simpl. by rewrite circuits_closeOutbound. }
  destruct Hcons3 as (Hwf3 & Hreg3 & _).
  destruct (Hreg3 pid lp Hgetp3) as (partner & Hpartner & Hpid).
  exists partner. split; [done|].
  assert (rendezvousPairId partner = None) as Hnone.
  { subst s3. rewrite heap_modify_eq in Hpartner.
    destruct (heap s2 !! lp); simplify_eq/=. done. }
  cbn [destroyCircuit]. rewrite Hget, Hc. cbn zeta. fold s2.
  rewrite Hp.
  assert (get pid (circuits s2) = Some lp) as ->.
  { subst s2. simpl. by rewrite circuits_closeOutbound. }
  fold s3. rewrite Hpartner, Hpid.
  rewrite Hgetp3, Hpartner.
  unfold truthyPair. rewrite Hnone. simpl.
  unfold afterCascade. fold s2. fold s3. simpl.
  rewrite !circuits_closeOutbound. unfold s3, s2 at 1 2. simpl.
  by rewrite !circuits_closeOutbound.
Qed.

(** Depth two is always enough, and the cascade never goes deeper. *)
Lemma destroy_terminates n cid s :
  consistent s → is_Some (destroyCircuit (S (S n)) cid s).
Proof.
  intros Hcons.
  destruct (get cid (circuits s)) as [l|] eqn:Hget.
  2:{ simpl. rewrite Hget. by eexists. }
  destruct Hcons as (Hwf & Hreg & Hfree).
  destruct (Hreg cid l Hget) as (c & Hc & Hid).
  destruct (truthyPair c) as [pid|] eqn:Hp.
  - destruct (get pid (circuits s)) as [lp|] eqn:Hgetp.
    + destruct (destroy_paired n cid s l c pid lp) as (partner & _ & ->); try done.
    + cbn [destroyCircuit]. rewrite Hget, Hc. cbn zeta. rewrite Hp.
      simpl. rewrite circuits_closeOutbound, Hgetp. simpl. by eexists.
  - rewrite (destroy_unpaired _ _ _ _ _ Hget Hc Hp). by eexists.
Qed.

Lemma destroy_fuel_irrelevant n cid s :
  consistent s →
  destroyCircuit (S (S n)) cid s = destroyCircuit 2 cid s.
Proof.
  intros Hcons.
  destruct (get cid (circuits s)) as [l|] eqn:Hget.
  2:{ simpl. by rewrite Hget. }
  pose proof Hcons as (Hwf & Hreg & Hfree).
  destruct (Hreg cid l Hget) as (c & Hc & Hid).
  destruct (truthyPair c) as [pid|] eqn:Hp.
  - destruct (get pid (circuits s)) as [lp|] eqn:Hgetp.
    + destruct (destroy_paired n cid s l c pid lp) as (p1 & Hp1 & ->); try done.
      destruct (destroy_paired 0 cid s l c pid lp) as (p2 & Hp2 & ->); try done.
      congruence.
    + cbn [destroyCircuit]. rewrite Hget, Hc. cbn zeta. rewrite Hp.
      simpl. by rewrite circuits_closeOutbound, Hgetp.
  - by rewrite !(destroy_unpaired _ _ _ _ _ Hget Hc Hp).
Qed.

(** Destroying a circuit whose (non-zero) partner is registered removes
    both from the registry and leaves both objects with zeroed keys. *)
Lemma destroy_removes_pair cid s l c pid lp :
  consistent s →
  get cid (circuits s) = Some l → heap s !! l = Some c →
  rendezvousPairId c = Some pid → pid ≠ 0 → get pid (circuits s) = Some lp →
  ∃ s', destroyCircuit 2 cid s = Some s'
    ∧ get cid (circuits s') = None ∧ get pid (circuits s') = None
    ∧ (∃ c', heap s' !! l = Some c' ∧ wiped c')
    ∧ (∃ p', heap s' !! lp = Some p' ∧ wiped p')
    ∧ consistent s'.
Proof.
  intros Hcons Hget Hc Hpair Hnz Hgetp.
  assert (truthyPair c = Some pid) as Hp.
  { unfold truthyPair. rewrite Hpair. by rewrite bool_decide_eq_true_2. }
  destruct (destroy_paired 0 cid s l c pid lp) as (partner & Hpartner & Hd);
    try done.
  eexists. split; [exact Hd|].
  set (s2 := modify l zeroKeys (closeOutbound c s)) in *.
  set (s3 := modify lp (setPair None) s2) in *.
  assert (consistent s3) as Hcons3.
  { apply consistent_modify; [done|]. apply consistent_modify; [done|].
    by apply consistent_closeOutbound. }
  set (s4 := withCircuits (delete pid (circuits s3))
               (modify lp zeroKeys (closeOutbound partner s3))).
  assert (consistent s4) as Hcons4.
  { subst s4.
    pose proof (consistent_delete pid _
      (consistent_modify lp zeroKeys _ (λ _, eq_refl)
         (consistent_closeOutbound partner _ Hcons3))) as Hd4.
    simpl in Hd4. rewrite circuits_closeOutbound in Hd4. exact Hd4. }
  pose proof (consistent_delete cid _ Hcons4) as Hcons5.
  change (afterCascade cid l c pid lp partner s)
    with (withCircuits (delete cid (circuits s4)) s4).
  destruct Hcons4 as (Hwf4 & _ & _). destruct Hcons3 as (Hwf3 & _ & _).
  split_and!; simpl.
  - by apply get_delete_eq.
  - destruct (decide (cid = pid)) as [->|Hne].
    + by apply get_delete_eq.
    + rewrite get_delete_ne by done. rewrite circuits_closeOutbound.
      apply get_delete_eq. apply Hcons.
  - rewrite lookup_alter. rewrite heap_closeOutbound.
    subst s3 s2. simpl. rewrite !lookup_alter, heap_closeOutbound, Hc.
    destruct (decide (lp = l)) as [->|Hne];
      rewrite ?decide_True by done; simpl;
      (eexists; split; [done|apply wiped_zeroKeys]).
  - rewrite lookup_alter_eq, heap_closeOutbound, Hpartner. simpl.
    eexists. split; [done|apply wiped_zeroKeys].
  - exact Hcons5.
Qed.

End CircuitFacts.

Module RendezvousFacts.
Import Buf Net Circuits Rendezvous OMapFacts CircuitFacts.

Lemma establish_success cid cookie now pend pend' :
  establishRendezvous cid cookie now pend = (Established, pend') →
  length cookie = 20%nat ∧ pend !! toHex cookie = None
  ∧ Z.of_nat (size pend) < MAX_PENDING
  ∧ pend' = <[toHex cookie := Pending cid now]> pend.
Proof.
  unfold establishRendezvous. repeat case_bool_decide; try done.
  intros [= <-]. split_and!; [|by apply eq_None_not_Some| |done].
  - destruct (decide (length cookie = 20%nat)); [done|]. by destruct H.
  - lia.
Qed.

Lemma join_unknown_cookie cid cookie now pend s :
  pend !! toHex cookie = None →
  joinRendezvous cid cookie now pend s =
    (NotJoined "Cookie not found or expired", pend, s).
Proof. intros Hn. unfold joinRendezvous. by rewrite Hn. Qed.

Lemma lookup_registered cid s c :
  Circuits.lookup cid s = Some c →
  ∃ l, OMap.get cid (circuits s) = Some l ∧ heap s !! l = Some c.
Proof.
  unfold Circuits.lookup. destruct (OMap.get cid (circuits s)) as [l|]; [|done].
  simpl. intros Hc. by exists l.
Qed.

(** C1: a pending cookie is consumed exactly once.  After
    [establish(cid1, C)] succeeded (so [C] has 20 bytes), a [join(cid2, C)]
    made while both circuits are registered succeeds, returns the waiting
    circuit's id and leaves each circuit's [rendezvousPairId] naming the
    other; any further [join] with [C] fails, the cookie being gone. *)
Theorem rendezvous_cookie_consumed_once
    cid1 cid2 cookie now1 now2 pend pend1 s :
  consistent s →
  establishRendezvous cid1 cookie now1 pend = (Established, pend1) →
  is_Some (Circuits.lookup cid1 s) → is_Some (Circuits.lookup cid2 s) →
  length cookie = 20%nat ∧
  ∃ pend2 s2,
    joinRendezvous cid2 cookie now2 pend1 s = (Joined cid1, pend2, s2)
    ∧ rendezvousPairId <$> Circuits.lookup cid1 s2 = Some (Some cid2)
    ∧ rendezvousPairId <$> Circuits.lookup cid2 s2 = Some (Some cid1)
    ∧ ∀ cid3 now3 s3,
        joinRendezvous cid3 cookie now3 pend2 s3 =
          (NotJoined "Cookie not found or expired", pend2, s3).
Proof.
  intros Hcons Hest [c1 Hc1] [c2 Hc2].
  apply establish_success in Hest as (Hlen & Hfree & _ & ->).
  split; [done|].
  apply lookup_registered in Hc1 as (l1 & Hg1 & Hh1).
  apply lookup_registered in Hc2 as (l2 & Hg2 & Hh2).
  destruct Hcons as (Hwf & Hreg & _).
  destruct (Hreg _ _ Hg1) as (c1' & Hc1' & Hid1).
  destruct (Hreg _ _ Hg2) as (c2' & Hc2' & Hid2).
  simplify_eq.
  unfold joinRendezvous. rewrite lookup_insert_eq. simpl.
  unfold getCircuit. rewrite Hg1. simpl. rewrite Hg2. simpl.
  do 2 eexists. split; [done|].
  unfold Circuits.lookup. simpl. rewrite Hg1, Hg2. simpl.
  rewrite !lookup_alter, Hh1, Hh2.
  split_and!.
  - repeat case_decide; by simplify_eq/=.
  - repeat case_decide; by simplify_eq/=.
  - intros cid3 now3 s3. apply join_unknown_cookie. by rewrite lookup_delete_eq.
Qed.

Lemma rendezvous_cookie_consumed_once_witness :
  let s := (registerCircuit 2 (replicate 32 x33) (replicate 32 x44) 8%nat 1000
             (registerCircuit 1 (replicate 32 x11) (replicate 32 x22) 7%nat 1000
                Circuits.initial).2).2 in
  consistent s
  ∧ establishRendezvous 1 demoCookie 2000 ∅
      = (Established, {[ toHex demoCookie := Pending 1 2000 ]})
  ∧ is_Some (Circuits.lookup 1 s) ∧ is_Some (Circuits.lookup 2 s)
  ∧ ∃ pend2 s2,
      joinRendezvous 2 demoCookie 3000 {[ toHex demoCookie := Pending 1 2000 ]} s
        = (Joined 1, pend2, s2)
      ∧ rendezvousPairId <$> Circuits.lookup 1 s2 = Some (Some 2)
      ∧ rendezvousPairId <$> Circuits.lookup 2 s2 = Some (Some 1).
Proof.
  intros s.
  assert (consistent s) as Hcons.
  { subst s. do 2 apply consistent_registerCircuit. apply consistent_initial. }
  assert (establishRendezvous 1 demoCookie 2000 ∅
          = (Established, {[ toHex demoCookie := Pending 1 2000 ]})) as Hest.
  { vm_compute. reflexivity. }
  assert (is_Some (Circuits.lookup 1 s)) as H1 by (vm_compute; eauto).
  assert (is_Some (Circuits.lookup 2 s)) as H2 by (vm_compute; eauto).
  split_and!; try done.
  destruct (rendezvous_cookie_consumed_once 1 2 demoCookie 2000 3000 ∅ _ s
              Hcons Hest H1 H2) as (_ & pend2 & s2 & Hj & Hp1 & Hp2 & _).
  by exists pend2, s2.
Defined.

(** C9 at the input where it fails: circuits 5 and 0 are rendezvous-paired
    with each other.  [destroyCircuit(5)] returns, but [if
    (circuit.rendezvousPairId)] reads the partner id [0] as "no partner":
    circuit 0 stays registered, its keys untouched and its link still
    naming the destroyed circuit 5.  Destroying from the other side,
    [destroyCircuit(0)], does remove both. *)
Theorem partner_zero_survives_destroy :
  rendezvousPairId <$> Circuits.lookup 5 pairedWithZero = Some (Some 0)
  ∧ rendezvousPairId <$> Circuits.lookup 0 pairedWithZero = Some (Some 5)
  ∧ (∃ s', destroyCircuit 2 5 pairedWithZero = Some s'
       ∧ Circuits.lookup 5 s' = None
       ∧ Circuits.lookup 0 s' =
           Some (Circuit 0 (replicate 32 x33) (replicate 32 x44) 2%nat None
                         3000 None (Some 5)))
  ∧ (∃ s', destroyCircuit 2 0 pairedWithZero = Some s'
       ∧ Circuits.lookup 5 s' = None ∧ Circuits.lookup 0 s' = None).
Proof.
  split_and!.
  - vm_compute. reflexivity.
  - vm_compute. reflexivity.
  - eexists. split; [vm_compute; reflexivity|]. split; vm_compute; reflexivity.
  - eexists. split; [vm_compute; reflexivity|]. split; vm_compute; reflexivity.
Qed.

End RendezvousFacts.

(* ===================================================================== *)
(** * More on the circuit registry *)
(* ===================================================================== *)

Module CircuitMore.
Import Buf Net Circuits OMap OMapFacts CircuitFacts.

Lemma get_delete_Some {V} (k k' : Z) (v : V) (m : list (Z * V)) :
  wf m → get k' (delete k m) = Some v → get k' m = Some v ∧ k ≠ k'.
Proof.
  intros Hwf Hg. destruct (decide (k = k')) as [->|Hne].
  - by rewrite get_delete_eq in Hg.
  - by rewrite get_delete_ne in Hg.
Qed.

Lemma sessionTtl_closeOutbound c s : sessionTtl (closeOutbound c s) = sessionTtl s.
Proof. unfold closeOutbound. destruct (outboundWs c); [|done]. by case_bool_decide. Qed.

(** The two shapes of the state a destroy leaves. *)
Lemma destroy_shape cid s l c :
  consistent s →
  get cid (circuits s) = Some l → heap s !! l = Some c →
  destroyCircuit 2 cid s =
    Some (withCircuits (delete cid (circuits s)) (modify l zeroKeys (closeOutbound c s)))
  ∨ ∃ pid lp partner,
      truthyPair c = Some pid ∧ get pid (circuits s) = Some lp
      ∧ destroyCircuit 2 cid s = Some (afterCascade cid l c pid lp partner s).
Proof.
  intros Hcons Hget Hc.
  destruct (truthyPair c) as [pid|] eqn:Hp.
  - destruct (get pid (circuits s)) as [lp|] eqn:Hgetp.
    + right. destruct (destroy_paired 0 cid s l c pid lp) as (partner & _ & Hd);
        try done. by exists pid, lp, partner.
    + left. cbn [destroyCircuit]. rewrite Hget, Hc. cbn zeta. rewrite Hp.
      simpl. rewrite circuits_closeOutbound, Hgetp. simpl.
      by rewrite ?circuits_closeOutbound.
  - left. by apply destroy_unpaired.
Qed.

(** What a destroy does to the registry as a whole. *)
Lemma destroy_effect cid s :
  consistent s →
  ∃ s', destroyCircuit 2 cid s = Some s'
    ∧ consistent s'
    ∧ get cid (circuits s') = None
    ∧ sessionTtl s' = sessionTtl s
    ∧ ∀ id c', Circuits.lookup id s' = Some c' →
        ∃ c, Circuits.lookup id s = Some c ∧ lastActivity c' = lastActivity c.
Proof.
  intros Hcons.
  destruct (get cid (circuits s)) as [l|] eqn:Hget.
  2:{ exists s. simpl. rewrite Hget. split_and!; try done. intros id c' Hc'. by exists c'. }
  pose proof Hcons as (Hwf & Hreg & Hfree).
  destruct (Hreg cid l Hget) as (c & Hc & Hid).
  destruct (destroy_shape cid s l c Hcons Hget Hc)
    as [Hd|(pid & lp & partner & Hp & Hgetp & Hd)];
    rewrite Hd; eexists; (split; [done|]).
  - assert (consistent (modify l zeroKeys (closeOutbound c s))) as Hc2.
    { apply consistent_modify; [done|]. by apply consistent_closeOutbound. }
    pose proof (consistent_delete cid _ Hc2) as Hc3.
    simpl in Hc3. rewrite circuits_closeOutbound in Hc3.
    split_and!; [done|simpl; by apply get_delete_eq|simpl|].
    { apply sessionTtl_closeOutbound. }
    intros id c'. unfold Circuits.lookup. simpl.
    destruct (get id (delete cid (circuits s))) as [l'|] eqn:Hg; [|done].
    apply get_delete_Some in Hg as [Hg _]; [|done]. rewrite Hg. simpl.
    rewrite lookup_alter, heap_closeOutbound.
    destruct (decide (l = l')) as [->|Hne].
    + rewrite Hc. simpl. intros [= <-]. by exists c.
    + intros Hl'. by exists c'.
  - set (s2 := modify l zeroKeys (closeOutbound c s)).
    set (s3 := modify lp (setPair None) s2).
    assert (consistent s3) as Hcons3.
    { apply consistent_modify; [done|]. apply consistent_modify; [done|].
      by apply consistent_closeOutbound. }
    set (s4 := withCircuits (delete pid (circuits s3))
                 (modify lp zeroKeys (closeOutbound partner s3))).
    assert (consistent s4) as Hcons4.
    { subst s4.
      pose proof (consistent_delete pid _
        (consistent_modify lp zeroKeys _ (λ _, eq_refl)
           (consistent_closeOutbound partner _ Hcons3))) as Hd4.
      simpl in Hd4. rewrite circuits_closeOutbound in Hd4. exact Hd4. }
    pose proof (consistent_delete cid _ Hcons4) as Hcons5.
    change (afterCascade cid l c pid lp partner s)
      with (withCircuits (delete cid (circuits s4)) s4).
    destruct Hcons4 as (Hwf4 & _ & _).
    split_and!; [done|simpl; by apply get_delete_eq| |].
    { simpl. rewrite sessionTtl_closeOutbound. subst s3 s2. simpl.
      apply sessionTtl_closeOutbound. }
    intros id c'. unfold Circuits.lookup. simpl.
    destruct (get id (delete cid (delete pid (circuits (closeOutbound c s)))))
      as [l'|] eqn:Hg; [|done].
    rewrite circuits_closeOutbound in Hg.
    apply get_delete_Some in Hg as [Hg _]; [|by apply wf_delete].
    apply get_delete_Some in Hg as [Hg _]; [|done].
    subst s3 s2. rewrite Hg. simpl.
    rewrite !lookup_alter, !heap_closeOutbound. simpl.
    rewrite !lookup_alter, heap_closeOutbound.
    destruct (heap s !! l') as [c0|] eqn:Hc0.
    + intros Hl'. exists c0. split; [done|].
      repeat case_decide; simplify_eq/=;
        try (rewrite ?Hc in Hl'; simplify_eq/=);
        try (rewrite ?Hc0 in Hl'; simplify_eq/=); done.
    + intros Hl'.
      repeat case_decide; simplify_eq/=;
        try (rewrite ?Hc in Hl'; simplify_eq/=);
        try (rewrite ?Hc0 in Hl'; simplify_eq/=); done.
Qed.

Lemma lookup_fresh_register cid krx ktx w now s cid' :
  consistent s → cid' ≠ cid →
  maxCircuits s > Z.of_nat (size (circuits s)) →
  Circuits.lookup cid' (registerCircuit cid krx ktx w now s).2 = Circuits.lookup cid' s.
Proof.
  intros (Hwf & Hreg & Hfree) Hne Hroom. unfold registerCircuit.
  rewrite bool_decide_eq_false_2 by lia. unfold Circuits.lookup. simpl.
  rewrite get_set_ne by done.
  destruct (get cid' (circuits s)) as [l|] eqn:Hg; [|done]. simpl.
  destruct (Hreg cid' l Hg) as (c & Hc & _).
  assert (l < nextLoc s)%nat by (apply Hfree; by eexists).
  by rewrite lookup_insert_ne by lia.
Qed.

(** X4: registering a circuit.  At capacity [registerCircuit] answers
    [false] and changes nothing.  Below capacity it answers [true]; the new
    circuit can be looked up under its id with the keys and socket given,
    no partner, no next hop and the current time as last activity; every
    other id still names the circuit it named before; and the registry
    stays consistent. *)
Theorem register_then_lookup cid krx ktx w now s :
  consistent s →
  if bool_decide (maxCircuits s ≤ Z.of_nat (size (circuits s)))
  then registerCircuit cid krx ktx w now s = (false, s)
  else
    (registerCircuit cid krx ktx w now s).1 = true
    ∧ Circuits.lookup cid (registerCircuit cid krx ktx w now s).2
      = Some (Circuit cid krx ktx w None now None None)
    ∧ (∀ cid', cid' ≠ cid →
         Circuits.lookup cid' (registerCircuit cid krx ktx w now s).2
         = Circuits.lookup cid' s)
    ∧ consistent (registerCircuit cid krx ktx w now s).2.
Proof.
  intros Hcons. case_bool_decide as Hcap.
  - unfold registerCircuit. by rewrite bool_decide_eq_true_2.
  - split_and!.
    + unfold registerCircuit. by rewrite bool_decide_eq_false_2.
    + unfold registerCircuit. rewrite bool_decide_eq_false_2 by done.
      unfold Circuits.lookup. simpl. rewrite get_set_eq. simpl.
      by rewrite lookup_insert_eq.
    + intros cid' Hne. apply lookup_fresh_register; [done|done|lia].
    + by apply consistent_registerCircuit.
Qed.

Lemma register_then_lookup_witness :
  consistent Circuits.initial
  ∧ (registerCircuit 7 [x01] [x02] 3%nat 1000 Circuits.initial).1 = true
  ∧ Circuits.lookup 7 (registerCircuit 7 [x01] [x02] 3%nat 1000 Circuits.initial).2
    = Some (Circuit 7 [x01] [x02] 3%nat None 1000 None None).
Proof.
  pose proof (register_then_lookup 7 [x01] [x02] 3%nat 1000 Circuits.initial
                consistent_initial) as H.
  rewrite bool_decide_eq_false_2 in H by (simpl; lia).
  destruct H as (H1 & H2 & _).
  split_and!; [apply consistent_initial|exact H1|exact H2].
Defined.

(** X5: [destroyCircuit] always returns.  On a consistent registry the
    recursion needs depth two at most, whatever larger bound is allowed
    gives the same state; that state is consistent again, the id is no
    longer registered, and destroying the same id once more changes
    nothing. *)
Theorem destroy_always_returns cid s n :
  consistent s →
  ∃ s', destroyCircuit (S (S n)) cid s = Some s'
    ∧ destroyCircuit 2 cid s = Some s'
    ∧ consistent s'
    ∧ Circuits.lookup cid s' = None
    ∧ destroyCircuit 2 cid s' = Some s'.
Proof.
  intros Hcons.
  destruct (destroy_effect cid s Hcons) as (s' & Hd & Hc' & Hgone & _ & _).
  exists s'. split_and!.
  - rewrite destroy_fuel_irrelevant by exact Hcons. exact Hd.
  - exact Hd.
  - exact Hc'.
  - unfold Circuits.lookup. rewrite Hgone. reflexivity.
  - cbn [destroyCircuit]. rewrite Hgone. reflexivity.
Qed.

Lemma consistent_joinRendezvous host cookie now pend s :
  consistent s → consistent (Rendezvous.joinRendezvous host cookie now pend s).2.
Proof.
  intros Hcons. unfold Rendezvous.joinRendezvous.
  destruct (pend !! toHex cookie) as [p|]; [|done].
  simpl.
  assert (consistent (getCircuit host now (getCircuit (Rendezvous.waiting p) now s).2).2)
    as Hc2 by (by do 2 apply consistent_getCircuit).
  destruct ((getCircuit (Rendezvous.waiting p) now s).1); [|done].
  destruct ((getCircuit host now (getCircuit (Rendezvous.waiting p) now s).2).1); [|done].
  simpl. by do 2 (apply consistent_modify; [done|]).
Qed.

Lemma consistent_pairedOneTwo : consistent Rendezvous.pairedOneTwo.
Proof.
  unfold Rendezvous.pairedOneTwo. apply consistent_joinRendezvous.
  do 2 apply consistent_registerCircuit. apply consistent_initial.
Qed.

Lemma destroy_always_returns_witness :
  consistent Rendezvous.pairedOneTwo
  ∧ ∃ s', destroyCircuit 5 1 Rendezvous.pairedOneTwo = Some s'
      ∧ destroyCircuit 2 1 Rendezvous.pairedOneTwo = Some s'
      ∧ Circuits.lookup 1 s' = None.
Proof.
  split; [apply consistent_pairedOneTwo|].
  destruct (destroy_always_returns 1 Rendezvous.pairedOneTwo 3 consistent_pairedOneTwo)
    as (s' & H1 & H2 & _ & H4 & _).
  exact (ex_intro _ s' (conj H1 (conj H2 H4))).
Defined.

(** X6: the cascade.  When a registered circuit names a partner with a
    non-zero id that is registered too, destroying it removes both ids from
    the registry and leaves the key buffers of both circuit objects filled
    with zeros. *)
Theorem destroy_takes_partner_along cid s l c pid lp :
  consistent s →
  get cid (circuits s) = Some l → heap s !! l = Some c →
  rendezvousPairId c = Some pid → pid ≠ 0 → get pid (circuits s) = Some lp →
  ∃ s', destroyCircuit 2 cid s = Some s'
    ∧ Circuits.lookup cid s' = None ∧ Circuits.lookup pid s' = None
    ∧ (∃ c', heap s' !! l = Some c' ∧ wiped c')
    ∧ (∃ p', heap s' !! lp = Some p' ∧ wiped p').
Proof.
  intros Hcons Hget Hc Hpair Hnz Hgetp.
  destruct (destroy_removes_pair cid s l c pid lp) as (s' & Hd & Hg1 & Hg2 & Hw1 & Hw2 & _);
    try done.
  exists s'. unfold Circuits.lookup. rewrite Hg1, Hg2. by split_and!.
Qed.

Lemma destroy_takes_partner_along_witness :
  consistent Rendezvous.pairedOneTwo
  ∧ get 1 (circuits Rendezvous.pairedOneTwo) = Some 0%nat
  ∧ get 2 (circuits Rendezvous.pairedOneTwo) = Some 1%nat
  ∧ ∃ s', destroyCircuit 2 1 Rendezvous.pairedOneTwo = Some s'
      ∧ Circuits.lookup 1 s' = None ∧ Circuits.lookup 2 s' = None
      ∧ (∃ c', heap s' !! 0%nat = Some c' ∧ wiped c')
      ∧ (∃ p', heap s' !! 1%nat = Some p' ∧ wiped p').
Proof.
  assert (get 1 (circuits Rendezvous.pairedOneTwo) = Some 0%nat) as H1
    by (vm_compute; reflexivity).
  assert (get 2 (circuits Rendezvous.pairedOneTwo) = Some 1%nat) as H2
    by (vm_compute; reflexivity).
  split_and!; [apply consistent_pairedOneTwo|exact H1|exact H2|].
  apply (destroy_takes_partner_along 1 Rendezvous.pairedOneTwo 0%nat
           (Circuit 1 (replicate 32 x11) (replicate 32 x22) 1%nat None 3000 None (Some 2))
           2 1%nat);
    [apply consistent_pairedOneTwo|exact H1|vm_compute; reflexivity|reflexivity
    |discriminate|exact H2].
Defined.

(** The sweep, one id after the other. *)
Lemma cleanupLoop_effect ids now s :
  consistent s →
  ∃ s', cleanupLoop 2 ids now s = Some s'
    ∧ consistent s'
    ∧ sessionTtl s' = sessionTtl s
    ∧ (∀ id c', Circuits.lookup id s' = Some c' →
         ∃ c, Circuits.lookup id s = Some c ∧ lastActivity c' = lastActivity c)
    ∧ (∀ id c', id ∈ ids → Circuits.lookup id s' = Some c' →
         now - lastActivity c' ≤ sessionTtl s).
Proof.
  revert s. induction ids as [|id0 ids IH]; intros s Hcons.
  - exists s. split_and!; try done.
    + intros id c' Hc'. by exists c'.
    + intros id c' Hin. by apply elem_of_nil in Hin.
  - cbn [cleanupLoop].
    destruct (Circuits.lookup id0 s) as [c0|] eqn:Hl0.
    + case_bool_decide as Hexp.
      * destruct (destroy_effect id0 s Hcons) as (s1 & Hd & Hc1 & Hgone & Httl & Hpres).
        rewrite Hd. simpl.
        destruct (IH s1 Hc1) as (s' & Hloop & Hc' & Httl' & Hpres' & Hfresh).
        exists s'. split_and!; [done|done|congruence| |].
        -- intros id c' Hc. destruct (Hpres' id c' Hc) as (c1 & Hc1' & Ha).
           destruct (Hpres id c1 Hc1') as (c & Hc0 & Ha'). exists c. split; [done|congruence].
        -- intros id c' Hin Hc. apply elem_of_cons in Hin as [->|Hin].
           ++ destruct (Hpres' id0 c' Hc) as (c1 & Hc1' & _).
              unfold Circuits.lookup in Hc1'. by rewrite Hgone in Hc1'.
           ++ rewrite <- Httl. by apply (Hfresh id c').
      * destruct (IH s Hcons) as (s' & Hloop & Hc' & Httl' & Hpres' & Hfresh).
        exists s'. split_and!; try done.
        intros id c' Hin Hc. apply elem_of_cons in Hin as [->|Hin].
        -- destruct (Hpres' id0 c' Hc) as (c1 & Hc1' & Ha).
           assert (c1 = c0) as -> by congruence. lia.
        -- by apply (Hfresh id c').
    + destruct (IH s Hcons) as (s' & Hloop & Hc' & Httl' & Hpres' & Hfresh).
      exists s'. split_and!; try done.
      intros id c' Hin Hc. apply elem_of_cons in Hin as [->|Hin].
      * destruct (Hpres' id0 c' Hc) as (c1 & Hc1' & _). congruence.
      * by apply (Hfresh id c').
Qed.

(** X7: the TTL sweep.  On a consistent registry [cleanupExpired] returns;
    afterwards no registered circuit has been idle for longer than the
    session TTL, every circuit still registered was registered before with
    the same last-activity time, and the registry is consistent. *)
Theorem cleanup_leaves_no_expired_circuit now s :
  consistent s →
  ∃ s', cleanupExpired 2 now s = Some s'
    ∧ consistent s'
    ∧ (∀ id c, Circuits.lookup id s' = Some c → now - lastActivity c ≤ sessionTtl s')
    ∧ (∀ id c', Circuits.lookup id s' = Some c' →
         ∃ c, Circuits.lookup id s = Some c ∧ lastActivity c' = lastActivity c).
Proof.
  intros Hcons.
  destruct (cleanupLoop_effect (keys (circuits s)) now s Hcons)
    as (s' & Hloop & Hc' & Httl & Hpres & Hfresh).
  exists s'. split_and!; try done.
  intros id c Hc. rewrite Httl. apply (Hfresh id c); [|done].
  destruct (Hpres id c Hc) as (c1 & Hc1 & _).
  unfold Circuits.lookup in Hc1.
  destruct (get id (circuits s)) as [l|] eqn:Hg; [|done].
  apply has_true. unfold has. by rewrite Hg.
Qed.

Lemma cleanup_leaves_no_expired_circuit_witness :
  consistent Rendezvous.pairedOneTwo
  ∧ ∃ s', cleanupExpired 2 400000 Rendezvous.pairedOneTwo = Some s'
      ∧ consistent s'
      ∧ ∀ id c, Circuits.lookup id s' = Some c → 400000 - lastActivity c ≤ sessionTtl s'.
Proof.
  split; [apply consistent_pairedOneTwo|].
  destruct (cleanup_leaves_no_expired_circuit 400000 Rendezvous.pairedOneTwo
              consistent_pairedOneTwo) as (s' & Hs' & Hc & Hfresh & _).
  exact (ex_intro _ s' (conj Hs' (conj Hc Hfresh))).
Defined.

End CircuitMore.

(* ===================================================================== *)
(** * More on rendezvous cookies *)
(* ===================================================================== *)

Module RendezvousMore.
Import Buf Net Circuits Rendezvous OMapFacts CircuitFacts RendezvousFacts BufFacts.

(** X8: the pending set is bounded and refusals are silent.  If at most
    10,000 cookies are pending, at most 10,000 are pending after
    [establish]; a refused [establish] leaves the pending set as it was;
    and a cookie that is already pending is refused, so the circuit that
    waits on it is never replaced. *)
Theorem pending_cookies_bounded cid cookie now (pend : gmap string pending) :
  Z.of_nat (size pend) ≤ MAX_PENDING →
  Z.of_nat (size (establishRendezvous cid cookie now pend).2) ≤ MAX_PENDING
  ∧ ((establishRendezvous cid cookie now pend).1 ≠ Established →
     (establishRendezvous cid cookie now pend).2 = pend)
  ∧ (is_Some (pend !! toHex cookie) →
     (establishRendezvous cid cookie now pend).1 ≠ Established).
Proof.
  intros Hsz. unfold establishRendezvous.
  case_bool_decide; [done|]. case_bool_decide as Hdup; [done|].
  case_bool_decide; [done|]. simpl. split_and!; [|done|done].
  rewrite map_size_insert_None; [lia|]. by apply eq_None_not_Some.
Qed.

Lemma pending_cookies_bounded_witness :
  Z.of_nat (size (∅ : gmap string pending)) ≤ MAX_PENDING
  ∧ (establishRendezvous 1 demoCookie 2000 ∅).1 = Established
  ∧ (establishRendezvous 2 demoCookie 2500 (establishRendezvous 1 demoCookie 2000 ∅).2)
    = (NotEstablished "Cookie already in use", (establishRendezvous 1 demoCookie 2000 ∅).2)
  ∧ Z.of_nat (size (establishRendezvous 1 demoCookie 2000 ∅).2) ≤ MAX_PENDING.
Proof.
  assert (Z.of_nat (size (∅ : gmap string pending)) ≤ MAX_PENDING) as H0
    by (vm_compute; discriminate).
  destruct (pending_cookies_bounded 1 demoCookie 2000 ∅ H0) as (Hb & _ & _).
  split_and!; [exact H0|vm_compute; reflexivity|vm_compute; reflexivity|exact Hb].
Defined.

Lemma pairs_getCircuit cid now s id :
  rendezvousPairId <$> Circuits.lookup id (getCircuit cid now s).2
  = rendezvousPairId <$> Circuits.lookup id s.
Proof.
  unfold getCircuit. destruct (OMap.get cid (circuits s)) as [l|]; [|done].
  unfold Circuits.lookup. simpl.
  destruct (OMap.get id (circuits s)) as [l'|]; [|done]. simpl.
  rewrite lookup_alter. case_decide; [subst|done].
  by destruct (heap s !! l').
Qed.

(** X9: a cookie is spent even by a join that fails.  If the cookie is
    pending but the waiting circuit or the joining circuit is no longer
    registered, [join] answers "Circuit no longer exists", the cookie is
    removed all the same, and no circuit's partner link is changed. *)
Theorem join_spends_cookie_on_failure host cookie now
    (pend : gmap string pending) s p :
  pend !! toHex cookie = Some p →
  OMap.get (waiting p) (circuits s) = None ∨ OMap.get host (circuits s) = None →
  ∃ s', joinRendezvous host cookie now pend s
          = (NotJoined "Circuit no longer exists", delete (toHex cookie) pend, s')
    ∧ ∀ id, rendezvousPairId <$> Circuits.lookup id s'
            = rendezvousPairId <$> Circuits.lookup id s.
Proof.
  intros Hp Hgone. unfold joinRendezvous. rewrite Hp. simpl.
  set (v := getCircuit (waiting p) now s).
  set (h := getCircuit host now v.2).
  assert (v.1 = None ∨ h.1 = None) as Hnone.
  { destruct Hgone as [Hw|Hh].
    - left. subst v. unfold getCircuit. by rewrite Hw.
    - right. subst h v. unfold getCircuit at 1.
      assert (circuits (getCircuit (waiting p) now s).2 = circuits s) as ->.
      { unfold getCircuit. by destruct (OMap.get (waiting p) (circuits s)). }
      by rewrite Hh. }
  exists h.2. split.
  - destruct Hnone as [-> | ->]; [done|]. by destruct (v.1).
  - intros id. subst h v. by rewrite !pairs_getCircuit.
Qed.

Lemma join_spends_cookie_on_failure_witness :
  let pend := (establishRendezvous 9 demoCookie 2000 ∅).2 in
  pend !! toHex demoCookie = Some (Pending 9 2000)
  ∧ OMap.get 9 (circuits pairedOneTwo) = None
  ∧ ∃ s', joinRendezvous 1 demoCookie 2500 pend pairedOneTwo
            = (NotJoined "Circuit no longer exists", delete (toHex demoCookie) pend, s').
Proof.
  intros pend.
  assert (pend !! toHex demoCookie = Some (Pending 9 2000)) as Hp
    by (vm_compute; reflexivity).
  assert (OMap.get 9 (circuits pairedOneTwo) = None) as Hg by (vm_compute; reflexivity).
  split_and!; [exact Hp|exact Hg|].
  destruct (join_spends_cookie_on_failure 1 demoCookie 2500 pend pairedOneTwo _ Hp
              (or_introl Hg)) as (s' & Hj & _).
  exact (ex_intro _ s' Hj).
Defined.

(** X10: a cookie lives for 30 seconds.  After a successful
    [establish] at time [t0], the sweep run at time [now] keeps the cookie
    if [now - t0 ≤ 30000] and drops it otherwise; once dropped, a [join]
    with it is refused as not found. *)
Theorem cookie_survives_sweeps_for_30s cid cookie t0 now
    (pend pend1 : gmap string pending) :
  establishRendezvous cid cookie t0 pend = (Established, pend1) →
  cleanupPendingRendezvous now pend1 !! toHex cookie
    = (if bool_decide (COOKIE_TTL_MS < now - t0) then None else Some (Pending cid t0))
  ∧ (COOKIE_TTL_MS < now - t0 →
     ∀ host t s, joinRendezvous host cookie t (cleanupPendingRendezvous now pend1) s
                 = (NotJoined "Cookie not found or expired",
                    cleanupPendingRendezvous now pend1, s)).
Proof.
  intros Hest. apply establish_success in Hest as (_ & _ & _ & ->).
  assert (cleanupPendingRendezvous now (<[toHex cookie:=Pending cid t0]> pend)
            !! toHex cookie
          = if bool_decide (COOKIE_TTL_MS < now - t0) then None else Some (Pending cid t0))
    as Hlook.
  { unfold cleanupPendingRendezvous. case_bool_decide as Hold.
    - apply map_lookup_filter_None. right. intros x. rewrite lookup_insert_eq.
      intros [= <-]. simpl. tauto.
    - apply map_lookup_filter_Some. rewrite lookup_insert_eq. split; [done|]. simpl. lia. }
  split; [exact Hlook|].
  intros Hold host t s. apply join_unknown_cookie.
  rewrite Hlook. by rewrite bool_decide_eq_true_2.
Qed.

Lemma cookie_survives_sweeps_for_30s_witness :
  establishRendezvous 1 demoCookie 2000 ∅
    = (Established, {[ toHex demoCookie := Pending 1 2000 ]})
  ∧ cleanupPendingRendezvous 32000 {[ toHex demoCookie := Pending 1 2000 ]}
      !! toHex demoCookie = Some (Pending 1 2000)
  ∧ cleanupPendingRendezvous 32001 {[ toHex demoCookie := Pending 1 2000 ]}
      !! toHex demoCookie = None.
Proof.
  assert (establishRendezvous 1 demoCookie 2000 ∅
          = (Established, {[ toHex demoCookie := Pending 1 2000 ]})) as He
    by (vm_compute; reflexivity).
  destruct (cookie_survives_sweeps_for_30s 1 demoCookie 2000 32000 ∅ _ He) as [H1 _].
  destruct (cookie_survives_sweeps_for_30s 1 demoCookie 2000 32001 ∅ _ He) as [H2 _].
  split_and!; [exact He|exact H1|exact H2].
Defined.

(** X11: cookies do not collide.  Two different 20-byte cookies occupy two
    different slots: after both were established, joining with the second
    pairs the circuit that waits on the second and leaves the first cookie
    pending with its own circuit. *)
Theorem distinct_cookies_distinct_slots cid1 cid2 c1 c2 t1 t2 now host
    (pend pend1 pend2 : gmap string pending) s :
  c1 ≠ c2 →
  establishRendezvous cid1 c1 t1 pend = (Established, pend1) →
  establishRendezvous cid2 c2 t2 pend1 = (Established, pend2) →
  pend2 !! toHex c1 = Some (Pending cid1 t1)
  ∧ pend2 !! toHex c2 = Some (Pending cid2 t2)
  ∧ (joinRendezvous host c2 now pend2 s).1.2 !! toHex c1 = Some (Pending cid1 t1)
  ∧ (joinRendezvous host c2 now pend2 s).1.2 !! toHex c2 = None.
Proof.
  intros Hne H1 H2.
  apply establish_success in H1 as (_ & _ & _ & ->).
  apply establish_success in H2 as (_ & _ & _ & ->).
  assert (toHex c2 ≠ toHex c1) as Hk by (intros Hk%toHex_inj; congruence).
  assert (<[toHex c2:=Pending cid2 t2]> (<[toHex c1:=Pending cid1 t1]> pend) !! toHex c1
          = Some (Pending cid1 t1)) as Hl1.
  { rewrite lookup_insert_ne by done. apply lookup_insert_eq. }
  split_and!; [exact Hl1|apply lookup_insert_eq| |].
  - unfold joinRendezvous. rewrite lookup_insert_eq. simpl.
    destruct (getCircuit cid2 now s).1, (getCircuit host now (getCircuit cid2 now s).2).1;
      simpl; rewrite lookup_delete_ne by done; exact Hl1.
  - unfold joinRendezvous. rewrite lookup_insert_eq. simpl.
    destruct (getCircuit cid2 now s).1, (getCircuit host now (getCircuit cid2 now s).2).1;
      simpl; apply lookup_delete_eq.
Qed.

Lemma distinct_cookies_distinct_slots_witness :
  let pend1 := (establishRendezvous 1 demoCookie 2000 ∅).2 in
  let pend2 := (establishRendezvous 2 (replicate 20 x2b) 2100 pend1).2 in
  demoCookie ≠ replicate 20 x2b
  ∧ establishRendezvous 1 demoCookie 2000 ∅ = (Established, pend1)
  ∧ establishRendezvous 2 (replicate 20 x2b) 2100 pend1 = (Established, pend2)
  ∧ pend2 !! toHex demoCookie = Some (Pending 1 2000)
  ∧ pend2 !! toHex (replicate 20 x2b) = Some (Pending 2 2100).
Proof.
  intros pend1 pend2.
  assert (demoCookie ≠ replicate 20 x2b) as Hne by (vm_compute; discriminate).
  assert (establishRendezvous 1 demoCookie 2000 ∅ = (Established, pend1)) as H1
    by (vm_compute; reflexivity).
  assert (establishRendezvous 2 (replicate 20 x2b) 2100 pend1 = (Established, pend2)) as H2
    by (vm_compute; reflexivity).
  destruct (distinct_cookies_distinct_slots 1 2 demoCookie (replicate 20 x2b) 2000 2100
              0 0 ∅ pend1 pend2 Circuits.initial Hne H1 H2) as (Ha & Hb & _).
  split_and!; [exact Hne|exact H1|exact H2|exact Ha|exact Hb].
Defined.

End RendezvousMore.

(* ===================================================================== *)
(** * Properties of the room tracker *)
(* ===================================================================== *)

Module TrackerFacts.
Import Buf Net Tracker OMapFacts.

Lemma rooms_persistRoom id m64 relay priv fed src e s :
  rooms (persistRoom id m64 relay priv fed src e s) = rooms s.
Proof. unfold persistRoom. by destruct (dbAvailable s). Qed.

Lemma federated_persistRoom id m64 relay priv fed src e s :
  federatedRooms (persistRoom id m64 relay priv fed src e s) = federatedRooms s.
Proof. unfold persistRoom. by destruct (dbAvailable s). Qed.


(** C7: a HEARTBEAT for a room id that is not in the room table answers
    failure and changes nothing (no room is created); for an id that is in
    the table it answers success and sets that room's expiry to the current
    time plus the room TTL, leaving its other fields as they were. *)
Theorem heartbeat_renews_known_rooms_only data now s :
  (33 ≤ length data)%nat →
  let roomId := toHex (subarray 1 33 data) in
  (OMap.get roomId (rooms s) = None → handleHeartbeat data now s = (failure, s))
  ∧ (∀ r, OMap.get roomId (rooms s) = Some r →
       (handleHeartbeat data now s).1 = success
       ∧ OMap.get roomId (rooms (handleHeartbeat data now s).2)
         = Some (Room (metadata r) (entryRelay r) (isPrivate r) (createdAt r)
                      (now + roomTtlMs s))).
Proof.
  intros Hlen roomId. unfold handleHeartbeat.
  rewrite bool_decide_eq_false_2 by lia. fold roomId. split.
  - by intros ->.
  - intros r ->. split; [done|]. simpl.
    rewrite rooms_persistRoom. simpl. apply get_set_eq.
Qed.

Lemma heartbeat_renews_known_rooms_only_witness :
  (33 ≤ length sampleHeartbeat)%nat
  ∧ handleHeartbeat sampleHeartbeat 5000 initial = (failure, initial)
  ∧ (handleHeartbeat sampleHeartbeat 5000 oneRoom).1 = success
  ∧ OMap.get (toHex sampleRoomId) (rooms (handleHeartbeat sampleHeartbeat 5000 oneRoom).2)
    = Some (Room [x01; x02; x03] "wss://r1" false 1000 125000).
Proof.
  assert (33 ≤ length sampleHeartbeat)%nat as Hlen by (vm_compute; lia).
  destruct (heartbeat_renews_known_rooms_only sampleHeartbeat 5000 initial Hlen)
    as [Hunknown _].
  destruct (heartbeat_renews_known_rooms_only sampleHeartbeat 5000 oneRoom Hlen)
    as [_ Hknown].
  destruct (Hknown (Room [x01; x02; x03] "wss://r1" false 1000 121000)) as [H1 H2].
  { vm_compute. reflexivity. }
  split_and!; [done| |done|exact H2].
  apply Hunknown. vm_compute. reflexivity.
Defined.

(** C4: re-registration keeps the creation time.  For a well-formed REGISTER
    message: if its room id is already in the table, the answer is success,
    the stored room keeps its [createdAt] and gets [expiresAt = now + TTL];
    if the id is new and the table is at capacity, the answer is failure and
    the state is unchanged. *)
Theorem register_keeps_creation_time data ws cid now s relayLen :
  (36 ≤ length data)%nat →
  readUInt16BE data 34 = Some relayLen →
  36 + relayLen ≤ Z.of_nat (length data) →
  let roomId := toHex (subarray 2 34 data) in
  (∀ old, OMap.get roomId (rooms s) = Some old →
     (handleRegister data ws cid now s).1 = success
     ∧ ∃ r, OMap.get roomId (rooms (handleRegister data ws cid now s).2) = Some r
            ∧ createdAt r = createdAt old
            ∧ expiresAt r = now + roomTtlMs s)
  ∧ (OMap.get roomId (rooms s) = None →
     maxRooms s ≤ Z.of_nat (OMap.size (rooms s)) →
     handleRegister data ws cid now s = (failure, s)).
Proof.
  intros Hlen Hrelay Hfits roomId. unfold handleRegister.
  rewrite bool_decide_eq_false_2 by lia. rewrite Hrelay.
  rewrite bool_decide_eq_false_2 by lia. fold roomId. split.
  - intros old Hold. unfold OMap.has. rewrite Hold. simpl.
    split; [done|]. rewrite rooms_persistRoom. simpl.
    eexists. split; [apply get_set_eq|]. done.
  - intros Hnew Hfull. unfold OMap.has. rewrite Hnew. simpl.
    by rewrite bool_decide_eq_true_2.
Qed.

Lemma register_keeps_creation_time_witness :
  (36 ≤ length sampleRegister)%nat
  ∧ readUInt16BE sampleRegister 34 = Some 8
  ∧ 36 + 8 ≤ Z.of_nat (length sampleRegister)
  ∧ (handleRegister sampleRegister None None 9000 oneRoom).1 = success
  ∧ (∃ r, OMap.get (toHex sampleRoomId)
            (rooms (handleRegister sampleRegister None None 9000 oneRoom).2) = Some r
          ∧ createdAt r = 1000 ∧ expiresAt r = 129000)
  ∧ handleRegister otherRegister None None 9000 oneRoom = (failure, oneRoom).
Proof.
  assert (36 ≤ length sampleRegister)%nat as H1 by (vm_compute; lia).
  assert (readUInt16BE sampleRegister 34 = Some 8) as H2 by (vm_compute; reflexivity).
  assert (36 + 8 ≤ Z.of_nat (length sampleRegister)) as H3 by (vm_compute; discriminate).
  destruct (register_keeps_creation_time sampleRegister None None 9000 oneRoom 8
              H1 H2 H3) as [Hre _].
  destruct (Hre (Room [x01; x02; x03] "wss://r1" false 1000 121000)) as [Hs Hr].
  { vm_compute. reflexivity. }
  assert (36 ≤ length otherRegister)%nat as G1 by (vm_compute; lia).
  assert (readUInt16BE otherRegister 34 = Some 8) as G2 by (vm_compute; reflexivity).
  assert (36 + 8 ≤ Z.of_nat (length otherRegister)) as G3 by (vm_compute; discriminate).
  destruct (register_keeps_creation_time otherRegister None None 9000 oneRoom 8
              G1 G2 G3) as [_ Hfull].
  split_and!; [done|done|done|done|exact Hr|].
  apply Hfull; vm_compute; [reflexivity|discriminate].
Defined.


Lemma clampCount_big count : (100 < count)%nat → clampCount count = 100%nat.
Proof. intros. unfold clampCount. by rewrite bool_decide_eq_true_2 by lia. Qed.






(** C2: QUERY serves one room twice.  On a tracker that holds a public
    local room and a federated entry whose room id is the same 32 bytes
    written in upper-case hex, the list QUERY pages through holds both, and
    one QUERY from cursor 0 answers with two entries that carry the same
    32-byte room id: the local room's and the peer's. *)
Theorem query_serves_one_room_twice :
  let query := [x41; x00; x00; x00; x00; x00; x64] in
  OMap.get (toHex sampleRoomId) (rooms shadowed)
    = Some (Room [x01; x02; x03] "wss://r1" false 1000 121000)
  ∧ eRoomId <$> publicRooms 2000 shadowed = [toHex sampleRoomId; upperRoomId]
  ∧ ofHex upperRoomId = sampleRoomId
  ∧ handleTrackerMessage query None None 2000 shadowed
    = (Resp ([x42; x00; x00; x00; x02; x00; x02]
             ++ (sampleRoomId ++ [x00; x08] ++ ofString "wss://r1"
                   ++ [x00; x03] ++ [x01; x02; x03])
             ++ (sampleRoomId ++ [x00; x0c] ++ ofString "wss://relay2"
                   ++ [x00; x01] ++ [x4d])),
       shadowed).
Proof.
  intros query. split_and!; vm_compute; reflexivity.
Qed.

(** ** The maps stay maps *)

Lemma sessions_persistRoom id m64 relay priv fed src e s :
  circuitSessions (persistRoom id m64 relay priv fed src e s) = circuitSessions s.
Proof. unfold persistRoom. by destruct (dbAvailable s). Qed.

Lemma wfState_persistRoom id m64 relay priv fed src e s :
  wfState s → wfState (persistRoom id m64 relay priv fed src e s).
Proof.
  unfold wfState.
  by rewrite rooms_persistRoom, sessions_persistRoom, federated_persistRoom.
Qed.

Lemma wfState_initial : wfState initial.
Proof. split_and!; apply NoDup_nil_2. Qed.

Lemma wfState_configure t m s : wfState s → wfState (configure t m s).
Proof. done. Qed.

Lemma wfState_handleRegister data ws cid now s :
  wfState s → wfState (handleRegister data ws cid now s).2.
Proof.
  intros (Hr & Hs & Hf). unfold handleRegister.
  case_bool_decide; [done|]. destruct (readUInt16BE data 34); [|done].
  case_bool_decide; [done|].
  destruct (negb _ && _); [done|]. simpl.
  apply wfState_persistRoom. split_and!; simpl; [by apply wf_set|by apply wf_set|done].
Qed.

Lemma wfState_handleHeartbeat data now s :
  wfState s → wfState (handleHeartbeat data now s).2.
Proof.
  intros (Hr & Hs & Hf). unfold handleHeartbeat.
  case_bool_decide; [done|]. destruct (OMap.get _ _); [|done]. simpl.
  apply wfState_persistRoom. split_and!; simpl; [by apply wf_set|done|done].
Qed.

Lemma wfState_mergePeerRoom source now s pr :
  wfState s → wfState (mergePeerRoom source now s pr).
Proof.
  intros (Hr & Hs & Hf). unfold mergePeerRoom.
  destruct (incomplete pr); [done|]. destruct (OMap.has _ _); [done|].
  apply wfState_persistRoom. split_and!; simpl; [done|done|by apply wf_set].
Qed.

Lemma wfState_setFederatedRooms source l now s :
  wfState s → wfState (setFederatedRooms source l now s).
Proof.
  intros (Hr & Hs & Hf). unfold setFederatedRooms.
  assert (wfState (withFederated
            (OMap.deleteWhere (λ _ r, fromSource source r) (federatedRooms s)) s)) as H0.
  { split_and!; simpl; [done|done|by apply wf_deleteWhere]. }
  revert H0. generalize (withFederated
            (OMap.deleteWhere (λ _ r, fromSource source r) (federatedRooms s)) s).
  induction l as [|pr l IH]; intros s0 H0; [done|].
  simpl. apply IH. by apply wfState_mergePeerRoom.
Qed.

(** ** Federation merge *)







Lemma wfState_directory : wfState directory.
Proof.
  unfold directory. do 2 apply wfState_setFederatedRooms.
  do 3 apply wfState_handleRegister. apply wfState_initial.
Qed.



End TrackerFacts.

(* ===================================================================== *)
(** * More on the room tracker *)
(* ===================================================================== *)

Module TrackerMore.
Import Buf Net Tracker OMapFacts BufMore TrackerFacts.

Lemma wfState_handleIntroduce data s : wfState s → wfState (handleIntroduce data s).2.
Proof.
  intros (Hr & Hs & Hf). unfold handleIntroduce.
  case_bool_decide; [done|]. destruct (readUInt16BE data 53); [|done].
  case_bool_decide; [done|].
  assert (wfState (withSessions
            (OMap.delete (toHex (subarray 1 33 data)) (circuitSessions s)) s)) as Hstale.
  { split_and!; simpl; [done|by apply wf_delete|done]. }
  destruct (OMap.get _ (circuitSessions s)) as [sess|]; [|done].
  destruct (sessWs sess) as [w|]; [|done].
  case_bool_decide; [done|].
  destruct (sessCircuitId sess), (writeUInt16BE z); done.
Qed.

Lemma wf_foldl_delete {V} (ks : list string) (m : list (string * V)) :
  OMap.wf m → OMap.wf (foldl (λ m k, OMap.delete k m) m ks).
Proof.
  revert m. induction ks as [|k ks IH]; intros m Hm; [done|].
  simpl. apply IH. by apply wf_delete.
Qed.

Lemma get_foldl_delete {V} (ks : list string) (m : list (string * V)) id :
  OMap.wf m →
  OMap.get id (foldl (λ m k, OMap.delete k m) m ks)
  = if bool_decide (id ∈ ks) then None else OMap.get id m.
Proof.
  revert m. induction ks as [|k ks IH]; intros m Hm.
  - cbn [foldl]. by rewrite bool_decide_eq_false_2 by apply not_elem_of_nil.
  - cbn [foldl]. rewrite IH by (by apply wf_delete).
    destruct (decide (k = id)) as [->|Hne].
    + rewrite (bool_decide_eq_true_2 (id ∈ id :: ks)) by apply list_elem_of_here.
      rewrite get_delete_eq by done. by case_bool_decide.
    + rewrite get_delete_ne by done.
      case_bool_decide as Hin.
      * by rewrite bool_decide_eq_true_2 by (by apply list_elem_of_further).
      * rewrite bool_decide_eq_false_2; [done|].
        intros [?|?]%elem_of_cons; [congruence|done].
Qed.

Lemma wfState_cleanupExpiredRooms now s : wfState s → wfState (cleanupExpiredRooms now s).
Proof.
  intros (Hr & Hs & Hf). unfold cleanupExpiredRooms. split_and!; simpl.
  - by apply wf_deleteWhere.
  - apply wf_deleteWhere. by apply wf_foldl_delete.
  - by apply wf_deleteWhere.
Qed.

Lemma wfState_restoreRooms loc fed now s : wfState s → wfState (restoreRooms loc fed now s).
Proof.
  intros Hs. unfold restoreRooms.
  assert (wfState (foldl (restoreLocal now) s loc)) as H1.
  { revert s Hs. induction loc as [|e loc IH]; intros s Hs; [done|].
    simpl. apply IH. unfold restoreLocal. destruct (OMap.has _ _); [done|].
    destruct Hs as (Hr & Hss & Hf). split_and!; simpl; [by apply wf_set|done|done]. }
  revert H1. generalize (foldl (restoreLocal now) s loc).
  induction fed as [|e fed IH]; intros s1 Hs1; [done|].
  simpl. apply IH. unfold restoreFederated. destruct (_ || _); [done|].
  destruct Hs1 as (Hr & Hss & Hf). split_and!; simpl; [done|done|by apply wf_set].
Qed.

(** X12: the three tables stay maps.  If no key occurs twice in the room
    table, the host-circuit table and the federated table, this is still so
    after any tracker message, after a federation merge, after the expiry
    sweep and after a restore from the database. *)
Theorem tracker_tables_stay_maps s :
  wfState s →
  (∀ data ws cid now, wfState (handleTrackerMessage data ws cid now s).2)
  ∧ (∀ source l now, wfState (setFederatedRooms source l now s))
  ∧ (∀ now, wfState (cleanupExpiredRooms now s))
  ∧ (∀ loc fed now, wfState (restoreRooms loc fed now s)).
Proof.
  intros Hs. split_and!.
  - intros data ws cid now. unfold handleTrackerMessage.
    destruct (data !! 0%nat); [|done].
    repeat case_bool_decide; try done.
    + by apply wfState_handleRegister.
    + by apply wfState_handleHeartbeat.
    + by apply wfState_handleIntroduce.
  - intros. by apply wfState_setFederatedRooms.
  - intros. by apply wfState_cleanupExpiredRooms.
  - intros. by apply wfState_restoreRooms.
Qed.

Lemma tracker_tables_stay_maps_witness :
  wfState directory
  ∧ wfState (handleTrackerMessage sampleRegister None None 9000 directory).2
  ∧ wfState (cleanupExpiredRooms 500000 directory).
Proof.
  destruct (tracker_tables_stay_maps directory wfState_directory) as (H1 & _ & H3 & _).
  split_and!; [apply wfState_directory|apply H1|apply H3].
Defined.

Lemma rooms_handleIntroduce data s : rooms (handleIntroduce data s).2 = rooms s.
Proof.
  unfold handleIntroduce. case_bool_decide; [done|].
  destruct (readUInt16BE data 53); [|done]. case_bool_decide; [done|].
  destruct (OMap.get _ (circuitSessions s)) as [sess|]; [|done].
  destruct (sessWs sess) as [w|]; [|done]. case_bool_decide; [done|].
  destruct (sessCircuitId sess), (writeUInt16BE z); done.
Qed.

Lemma max_persistRoom id m64 relay priv fed src e s :
  maxRooms (persistRoom id m64 relay priv fed src e s) = maxRooms s.
Proof. unfold persistRoom. by destruct (dbAvailable s). Qed.

Lemma max_handleIntroduce data s : maxRooms (handleIntroduce data s).2 = maxRooms s.
Proof.
  unfold handleIntroduce. case_bool_decide; [done|].
  destruct (readUInt16BE data 53); [|done]. case_bool_decide; [done|].
  destruct (OMap.get _ (circuitSessions s)) as [sess|]; [|done].
  destruct (sessWs sess) as [w|]; [|done]. case_bool_decide; [done|].
  destruct (sessCircuitId sess), (writeUInt16BE z); done.
Qed.

(** X13: the room table respects its capacity.  If the table holds at most
    [maxRooms] rooms, it holds at most [maxRooms] rooms after any tracker
    message, and no message changes the capacity. *)
Theorem room_table_respects_capacity data ws cid now s :
  Z.of_nat (OMap.size (rooms s)) ≤ maxRooms s →
  Z.of_nat (OMap.size (rooms (handleTrackerMessage data ws cid now s).2)) ≤ maxRooms s
  ∧ maxRooms (handleTrackerMessage data ws cid now s).2 = maxRooms s.
Proof.
  intros Hcap. unfold handleTrackerMessage.
  destruct (data !! 0%nat); [|done].
  case_bool_decide.
  { unfold handleRegister. case_bool_decide; [done|].
    destruct (readUInt16BE data 34); [|done]. case_bool_decide; [done|].
    destruct (negb _ && _) eqn:Hc; [done|]. cbn [snd].
    rewrite rooms_persistRoom, max_persistRoom.
    unfold withSessions, withRooms; cbn [rooms maxRooms]. split; [|done].
    rewrite size_set.
    destruct (OMap.has _ (rooms s)); [done|].
    simpl in Hc. apply bool_decide_eq_false in Hc. lia. }
  case_bool_decide; [done|].
  case_bool_decide.
  { unfold handleHeartbeat. case_bool_decide; [done|].
    destruct (OMap.get _ (rooms s)) as [r|] eqn:Hget; [|done]. cbn [snd].
    rewrite rooms_persistRoom, max_persistRoom.
    unfold withSessions, withRooms; cbn [rooms maxRooms]. split; [|done].
    rewrite size_set. unfold OMap.has. by rewrite Hget. }
  case_bool_decide; [|done].
  by rewrite rooms_handleIntroduce, max_handleIntroduce.
Qed.

Lemma room_table_respects_capacity_witness :
  Z.of_nat (OMap.size (rooms oneRoom)) ≤ maxRooms oneRoom
  ∧ Z.of_nat (OMap.size (rooms (handleTrackerMessage otherRegister None None 9000 oneRoom).2))
    ≤ 1.
Proof.
  assert (Z.of_nat (OMap.size (rooms oneRoom)) ≤ maxRooms oneRoom) as H0
    by (vm_compute; discriminate).
  destruct (room_table_respects_capacity otherRegister None None 9000 oneRoom H0)
    as [H1 _].
  split; [exact H0|exact H1].
Defined.



(** X15: malformed messages are ignored.  A message shorter than seven
    bytes, or one whose type byte is none of REGISTER, QUERY, HEARTBEAT and
    INTRODUCE, gets no answer and changes nothing. *)
Theorem malformed_tracker_messages_ignored data ws cid now s :
  (length data < 7)%nat
  ∨ (∀ t, data !! 0%nat = Some t →
        octet t ≠ MSG_REGISTER ∧ octet t ≠ MSG_QUERY
        ∧ octet t ≠ MSG_HEARTBEAT ∧ octet t ≠ MSG_INTRODUCE) →
  handleTrackerMessage data ws cid now s = (Null, s).
Proof.
  intros [Hshort|Htype]; unfold handleTrackerMessage;
    destruct (data !! 0%nat) as [t|] eqn:Ht; try done.
  - repeat case_bool_decide; try done.
    + unfold handleRegister. by rewrite bool_decide_eq_true_2 by lia.
    + unfold handleQuery. by rewrite bool_decide_eq_true_2 by lia.
    + unfold handleHeartbeat. by rewrite bool_decide_eq_true_2 by lia.
    + unfold handleIntroduce. by rewrite bool_decide_eq_true_2 by lia.
  - destruct (Htype t eq_refl) as (H1 & H2 & H3 & H4).
    by rewrite !bool_decide_eq_false_2.
Qed.

Lemma malformed_tracker_messages_ignored_witness :
  (length [x40; x00; x01] < 7)%nat
  ∧ handleTrackerMessage [x40; x00; x01] None None 1000 directory = (Null, directory)
  ∧ handleTrackerMessage (x42 :: replicate 40 x00) None None 1000 directory
    = (Null, directory).
Proof.
  assert (length [x40; x00; x01] < 7)%nat as Hs by (simpl; lia).
  split_and!; [exact Hs| |].
  - apply malformed_tracker_messages_ignored. left. exact Hs.
  - apply malformed_tracker_messages_ignored. right.
    intros t [= <-]. vm_compute. by split_and!.
Defined.

(** X16: INTRODUCE reaches the host only over an open socket.  For a
    well-formed INTRODUCE message: with no host binding for the room the
    answer is failure and nothing changes; with a binding whose socket is
    missing or not open the answer is failure and the binding is dropped;
    with an open socket and a circuit id the answer is success and exactly
    one frame,
    [circuitId ‖ 0x45 ‖ cookie ‖ relayUrlLen ‖ relayUrl], is sent to that
    socket.  The room table is never changed. *)
Theorem introduce_needs_open_host_socket data s relayUrlLen :
  (55 ≤ length data)%nat →
  readUInt16BE data 53 = Some relayUrlLen →
  55 + relayUrlLen ≤ Z.of_nat (length data) →
  let roomId := toHex (subarray 1 33 data) in
  let dropped := withSessions (OMap.delete roomId (circuitSessions s)) s in
  rooms (handleIntroduce data s).2 = rooms s
  ∧ match OMap.get roomId (circuitSessions s) with
    | None => handleIntroduce data s = (failure, s)
    | Some (Session None _) => handleIntroduce data s = (failure, dropped)
    | Some (Session (Some w) cidBuf) =>
        if bool_decide (ready (net s) w = OPEN)
        then ∀ cid lenBuf, cidBuf = Some cid → writeUInt16BE relayUrlLen = Some lenBuf →
             handleIntroduce data s =
               (success,
                withNet (Net.Net (readyState (net s))
                           (wire (net s) ++
                              [WsSend w (cid ++ [x45] ++ subarray 33 53 data ++ lenBuf
                                           ++ subarray 55 (55 + Z.to_nat relayUrlLen) data)]))
                        s)
        else handleIntroduce data s = (failure, dropped)
    end.
Proof.
  intros Hlen Hread Hfits roomId dropped. split; [apply rooms_handleIntroduce|].
  unfold handleIntroduce. rewrite bool_decide_eq_false_2 by lia. rewrite Hread.
  rewrite bool_decide_eq_false_2 by lia. fold roomId. fold dropped.
  destruct (OMap.get roomId (circuitSessions s)) as [[[w|] cidBuf]|]; simpl; try done.
  case_bool_decide as Hopen.
  - rewrite bool_decide_eq_false_2 by (by intros ?).
    intros cid lenBuf -> ->. done.
  - by rewrite bool_decide_eq_true_2.
Qed.

Lemma introduce_needs_open_host_socket_witness :
  let data := [x44] ++ sampleRoomId ++ replicate 20 x11 ++ [x00; x03; x61; x62; x63] in
  (55 ≤ length data)%nat
  ∧ readUInt16BE data 53 = Some 3
  ∧ 55 + 3 ≤ Z.of_nat (length data)
  ∧ handleIntroduce data oneRoom
    = (failure, withSessions (OMap.delete (toHex sampleRoomId) (circuitSessions oneRoom))
                  oneRoom).
Proof.
  intros data.
  assert (55 ≤ length data)%nat as H1 by (vm_compute; lia).
  assert (readUInt16BE data 53 = Some 3) as H2 by (vm_compute; reflexivity).
  assert (55 + 3 ≤ Z.of_nat (length data)) as H3 by (vm_compute; discriminate).
  destruct (introduce_needs_open_host_socket data oneRoom 3 H1 H2 H3) as [_ H].
  split_and!; [exact H1|exact H2|exact H3|].
  assert (OMap.get (toHex (subarray 1 33 data)) (circuitSessions oneRoom)
          = Some (Session (Some 4%nat) (Some [x00; x00; x00; x07]))) as Hs
    by (vm_compute; reflexivity).
  rewrite Hs in H.
  rewrite bool_decide_eq_false_2 in H by (vm_compute; discriminate).
  exact H.
Defined.

(** X17: the expiry sweep.  After [cleanupExpiredRooms] a room is in the
    table exactly if it was there with an expiry later than [now], and it is
    unchanged; the same holds for federated rooms; and the host binding of a
    room that expired is dropped with it. *)
Theorem sweep_removes_exactly_the_expired now s id :
  wfState s →
  OMap.get id (rooms (cleanupExpiredRooms now s))
    = match OMap.get id (rooms s) with
      | Some r => if bool_decide (expiresAt r ≤ now) then None else Some r
      | None => None
      end
  ∧ OMap.get id (federatedRooms (cleanupExpiredRooms now s))
    = match OMap.get id (federatedRooms s) with
      | Some r => if Qle_bool (fedExpiresAt r) (inject_Z now) then None else Some r
      | None => None
      end
  ∧ (∀ r, OMap.get id (rooms s) = Some r → expiresAt r ≤ now →
       OMap.get id (circuitSessions (cleanupExpiredRooms now s)) = None).
Proof.
  intros (Hr & Hs & Hf). unfold cleanupExpiredRooms. simpl. split_and!.
  - by rewrite get_deleteWhere.
  - by rewrite get_deleteWhere.
  - intros r Hget Hexp. rewrite get_deleteWhere by (by apply wf_foldl_delete).
    rewrite get_foldl_delete by done.
    rewrite bool_decide_eq_true_2; [done|].
    apply list_elem_of_omap. exists (id, r). split; [by apply get_Some_elem|].
    simpl. by rewrite bool_decide_eq_true_2.
Qed.

Lemma sweep_removes_exactly_the_expired_witness :
  wfState oneRoom
  ∧ OMap.get (toHex sampleRoomId) (rooms (cleanupExpiredRooms 121000 oneRoom)) = None
  ∧ OMap.get (toHex sampleRoomId) (circuitSessions (cleanupExpiredRooms 121000 oneRoom))
    = None
  ∧ OMap.get (toHex sampleRoomId) (rooms (cleanupExpiredRooms 120999 oneRoom))
    = Some (Room [x01; x02; x03] "wss://r1" false 1000 121000).
Proof.
  assert (wfState oneRoom) as Hw.
  { unfold oneRoom. apply wfState_handleRegister, wfState_configure, wfState_initial. }
  assert (OMap.get (toHex sampleRoomId) (rooms oneRoom)
          = Some (Room [x01; x02; x03] "wss://r1" false 1000 121000)) as Hg
    by (vm_compute; reflexivity).
  destruct (sweep_removes_exactly_the_expired 121000 oneRoom (toHex sampleRoomId) Hw)
    as (H1 & _ & H3).
  destruct (sweep_removes_exactly_the_expired 120999 oneRoom (toHex sampleRoomId) Hw)
    as (H4 & _ & _).
  rewrite Hg in H1, H4.
  split_and!; [exact Hw|exact H1| |exact H4].
  apply (H3 _ Hg). simpl. lia.
Defined.

(** X18: a restore never overwrites what is in memory.  Merging rows
    loaded from the database leaves every room that is already in the room
    table exactly as it is, and adds no federated entry under the id of a
    room in the table. *)
Theorem restore_keeps_rooms_in_memory loc fed now s id r :
  OMap.get id (rooms s) = Some r →
  OMap.get id (rooms (restoreRooms loc fed now s)) = Some r
  ∧ OMap.get id (federatedRooms (restoreRooms loc fed now s))
    = OMap.get id (federatedRooms s).
Proof.
  intros Hget. unfold restoreRooms.
  assert (∀ s1, OMap.get id (rooms s1) = Some r →
                OMap.get id (rooms (foldl (restoreLocal now) s1 loc)) = Some r
                ∧ federatedRooms (foldl (restoreLocal now) s1 loc) = federatedRooms s1)
    as Hloc.
  { induction loc as [|e loc IH]; intros s1 H1; [done|].
    simpl. unfold restoreLocal at 2 4.
    destruct (OMap.has (lRoomId e) (rooms s1)) eqn:Hh; [by apply IH|].
    destruct (IH (withRooms (OMap.set (lRoomId e)
                 (Room (ofBase64 (lMetadata64 e)) (lEntryRelay e) (lPrivate e) now
                       (lExpiresAt e)) (rooms s1)) s1)) as [Ha Hb]; [|done].
    simpl. rewrite get_set_ne; [done|].
    intros Heq. rewrite Heq in Hh. apply has_false in Hh. congruence. }
  destruct (Hloc s Hget) as [H1 H2].
  revert H1 H2. generalize (foldl (restoreLocal now) s loc). intros s1 H1 H2.
  rewrite <- H2. clear H2 Hloc Hget.
  revert s1 H1. induction fed as [|e fed IH]; intros s1 H1; [done|].
  simpl. unfold restoreFederated at 2 4.
  destruct (OMap.has (lRoomId e) (federatedRooms s1) || OMap.has (lRoomId e) (rooms s1))
    eqn:Hh; [by apply IH|].
  apply orb_false_iff in Hh as [Hh1 Hh2].
  destruct (IH (withFederated (OMap.set (lRoomId e)
               (FedRoom (ofBase64 (lMetadata64 e)) (lEntryRelay e) (lSourceRelay e)
                        (inject_Z (lExpiresAt e))) (federatedRooms s1)) s1)) as [Ha Hb];
    [done|].
  split; [done|]. rewrite Hb. simpl. rewrite get_set_ne; [done|].
  intros Heq. rewrite Heq in Hh2. apply has_false in Hh2. congruence.
Qed.

Lemma restore_keeps_rooms_in_memory_witness :
  let row := LoadedRoom (toHex sampleRoomId) "TQ==" "wss://stale" true "wss://peer" 5 in
  OMap.get (toHex sampleRoomId) (rooms oneRoom)
    = Some (Room [x01; x02; x03] "wss://r1" false 1000 121000)
  ∧ OMap.get (toHex sampleRoomId) (rooms (restoreRooms [row] [row] 7000 oneRoom))
    = Some (Room [x01; x02; x03] "wss://r1" false 1000 121000)
  ∧ federatedRooms (restoreRooms [row] [row] 7000 oneRoom) = [].
Proof.
  intros row.
  assert (OMap.get (toHex sampleRoomId) (rooms oneRoom)
          = Some (Room [x01; x02; x03] "wss://r1" false 1000 121000)) as Hg
    by (vm_compute; reflexivity).
  destruct (restore_keeps_rooms_in_memory [row] [row] 7000 oneRoom _ _ Hg) as [H1 _].
  split_and!; [exact Hg|exact H1|vm_compute; reflexivity].
Defined.




Lemma encodeEntry_fits e : is_Some (encodeEntry e) ↔ fitsWire e = true.
Proof.
  unfold encodeEntry, fitsWire, writeUInt16BE. rewrite andb_true_iff, !bool_decide_eq_true.
  split.
  - intros [b Hb]. repeat case_bool_decide; simpl in Hb; try done. lia.
  - intros [H1 H2]. rewrite !bool_decide_eq_true_2 by lia. by eexists.
Qed.

Lemma encodeEntries_fits (es : list entry) :
  encodeEntries es = None ↔ forallb fitsWire es = false.
Proof.
  induction es as [|e es IH]; [done|]. cbn [encodeEntries forallb].
  destruct (fitsWire e) eqn:Hf.
  - apply encodeEntry_fits in Hf as [b ->]. simpl.
    destruct (encodeEntries es) as [bs|]; simpl.
    + split; [done|]. intros H. by apply IH in H.
    + split; [intros _; by apply IH|done].
  - simpl. destruct (encodeEntry e) as [b|] eqn:He; [|done].
    assert (fitsWire e = true) by (apply encodeEntry_fits; by eexists). congruence.
Qed.

Lemma read32_in_range (data : list byte) off :
  (off + 3 < length data)%nat → is_Some (readUInt32BE data off).
Proof.
  intros Hlen. unfold readUInt32BE.
  destruct (lookup_lt_is_Some_2 data off) as [a ->]; [lia|].
  destruct (lookup_lt_is_Some_2 data (off + 1)) as [b ->]; [lia|].
  destruct (lookup_lt_is_Some_2 data (off + 2)) as [c ->]; [lia|].
  destruct (lookup_lt_is_Some_2 data (off + 3)) as [d ->]; [lia|].
  by eexists.
Qed.

Lemma read16_in_range (data : list byte) off :
  (off + 1 < length data)%nat → is_Some (readUInt16BE data off).
Proof.
  intros Hlen. unfold readUInt16BE.
  destruct (lookup_lt_is_Some_2 data off) as [a ->]; [lia|].
  destruct (lookup_lt_is_Some_2 data (S off)) as [b ->]; [lia|].
  by eexists.
Qed.



Lemma queryPage_bounds cursor count (pub : list entry) :
  (length (queryPage cursor count pub).2 ≤ Nat.min 100 count)%nat
  ∧ ((queryPage cursor count pub).1 ≤ length pub)%nat.
Proof.
  unfold queryPage. cbn [fst snd]. rewrite length_take, length_drop. unfold clampCount.
  case_bool_decide; lia.
Qed.

(** What [handleQuery] hands back for a well-formed message, given the
    encoding of the page. *)
Lemma handleQuery_page data now s cursor count :
  (7 ≤ length data)%nat →
  readUInt32BE data 1 = Some cursor → readUInt16BE data 5 = Some count →
  Z.of_nat (length (publicRooms now s)) < 4294967296 →
  ∃ next n,
    writeUInt32BE
      (Z.of_nat (queryPage (Z.to_nat cursor) (Z.to_nat count) (publicRooms now s)).1)
      = Some next
    ∧ writeUInt16BE
        (Z.of_nat
           (length (queryPage (Z.to_nat cursor) (Z.to_nat count) (publicRooms now s)).2))
      = Some n
    ∧ handleQuery data now s =
        match encodeEntries
                (queryPage (Z.to_nat cursor) (Z.to_nat count) (publicRooms now s)).2 with
        | Some body => Resp ([of_octet MSG_RESPONSE] ++ next ++ n ++ body)
        | None => Thrown
        end.
Proof.
  intros Hlen Hc Hn Hmany.
  set (pub := publicRooms now s) in *.
  set (page := queryPage (Z.to_nat cursor) (Z.to_nat count) pub).
  destruct (queryPage_bounds (Z.to_nat cursor) (Z.to_nat count) pub) as [Hshort Hnext].
  fold page in Hshort, Hnext.
  destruct (writeUInt32BE (Z.of_nat page.1)) as [next|] eqn:Hw32; cycle 1.
  { unfold writeUInt32BE in Hw32. rewrite bool_decide_eq_true_2 in Hw32 by lia. done. }
  destruct (writeUInt16BE (Z.of_nat (length page.2))) as [n|] eqn:Hw16; cycle 1.
  { unfold writeUInt16BE in Hw16. rewrite bool_decide_eq_true_2 in Hw16 by lia. done. }
  exists next, n. split_and!; [done|done|].
  unfold handleQuery. rewrite bool_decide_eq_false_2 by lia.
  rewrite Hc, Hn. fold pub. fold page. rewrite Hw32, Hw16.
  by destruct (encodeEntries page.2).
Qed.

(** X20: QUERY answers with the page and its header, or throws.  For a
    QUERY of at least seven bytes on a directory that lists fewer than 2^32
    rooms, all with relay URLs of ASCII characters: if every entry of the requested page has a relay URL and
    metadata shorter than 65,536 bytes, the handler answers with a buffer
    whose first byte is 0x42, whose bytes 1..4 read back as the next cursor
    [min(cursor, N) + page length], whose bytes 5..6 read back as the page
    length, and whose remaining bytes are the entries of the page; the page
    holds at most 100 entries and at most the requested count, and the next
    cursor never passes the end of the list.  If some entry of the page is
    longer, the handler throws. *)
Theorem query_answers_with_page_or_throws data now s :
  (7 ≤ length data)%nat →
  Z.of_nat (length (publicRooms now s)) < 4294967296 →
  forallb asciiRelay (publicRooms now s) = true →
  ∃ cursor count,
    readUInt32BE data 1 = Some cursor ∧ readUInt16BE data 5 = Some count
    ∧ let page := queryPage (Z.to_nat cursor) (Z.to_nat count) (publicRooms now s) in
      (length page.2 ≤ Nat.min 100 (Z.to_nat count))%nat
      ∧ (page.1 ≤ length (publicRooms now s))%nat
      ∧ if forallb fitsWire page.2
        then ∃ bytes,
               handleQuery data now s = Resp bytes
               ∧ bytes !! 0%nat = Some x42
               ∧ readUInt32BE bytes 1 = Some (Z.of_nat page.1)
               ∧ readUInt16BE bytes 5 = Some (Z.of_nat (length page.2))
               ∧ encodeEntries page.2 = Some (drop 7 bytes)
        else handleQuery data now s = Thrown.
Proof.
  intros Hlen Hmany _.
  destruct (read32_in_range data 1) as [cursor Hc]; [lia|].
  destruct (read16_in_range data 5) as [count Hn]; [lia|].
  exists cursor, count. split; [done|]. split; [done|]. intros page.
  destruct (queryPage_bounds (Z.to_nat cursor) (Z.to_nat count) (publicRooms now s))
    as [Hshort Hnext].
  split; [done|]. split; [done|].
  destruct (handleQuery_page data now s cursor count Hlen Hc Hn Hmany)
    as (next & n & Hw32 & Hw16 & Hq).
  fold page in Hw32, Hw16, Hq.
  destruct (forallb fitsWire page.2) eqn:Hfit.
  - destruct (encodeEntries page.2) as [body|] eqn:Hbody; cycle 1.
    { apply encodeEntries_fits in Hbody. congruence. }
    assert (length next = 4%nat) as Hl4.
    { unfold writeUInt32BE in Hw32. case_bool_decide; [|done]. by injection Hw32 as <-. }
    assert (length n = 2%nat) as Hl2.
    { unfold writeUInt16BE in Hw16. case_bool_decide; [|done]. by injection Hw16 as <-. }
    exists ([of_octet MSG_RESPONSE] ++ next ++ n ++ body). split_and!; [done|done| | |].
    + apply (read32_write32 _ _ [of_octet MSG_RESPONSE] (n ++ body) Hw32).
    + pose proof (read16_write16 _ _ ([of_octet MSG_RESPONSE] ++ next) body Hw16) as Hr.
      rewrite length_app, Hl4, <- app_assoc in Hr. exact Hr.
    + f_equal. rewrite !app_assoc. rewrite drop_app_length'; [done|].
      rewrite !length_app, Hl4, Hl2. done.
  - apply encodeEntries_fits in Hfit. by rewrite Hfit in Hq.
Qed.

Lemma query_answers_with_page_or_throws_witness :
  ∃ bytes,
    handleQuery [x41; x00; x00; x00; x00; x00; x02] 2000 oneRoom = Resp bytes
    ∧ readUInt32BE bytes 1 = Some 1 ∧ readUInt16BE bytes 5 = Some 1.
Proof.
  assert (7 ≤ length [x41; x00; x00; x00; x00; x00; x02])%nat as H1 by (simpl; lia).
  assert (publicRooms 2000 oneRoom
          = [Entry (toHex sampleRoomId) [x01; x02; x03] "wss://r1"]) as Hpub
    by (vm_compute; reflexivity).
  assert (Z.of_nat (length (publicRooms 2000 oneRoom)) < 4294967296) as H3
    by (rewrite Hpub; reflexivity).
  assert (forallb asciiRelay (publicRooms 2000 oneRoom) = true) as H4
    by (rewrite Hpub; vm_compute; reflexivity).
  destruct (query_answers_with_page_or_throws _ 2000 oneRoom H1 H3 H4)
    as (cursor & count & Hc & Hn & _ & _ & Hq).
  injection Hc as <-. injection Hn as <-. rewrite Hpub in Hq.
  destruct Hq as (bytes & Hq & _ & Hr32 & Hr16 & _).
  exists bytes. split_and!; [exact Hq|exact Hr32|exact Hr16].
Defined.





End TrackerMore.

(* ===================================================================== *)
(** * Properties of the packet dispatcher *)
(* ===================================================================== *)

Module RelayFacts.
Import Buf Net Crypto Circuits Relay Chaff.

(** C8: a wire packet shorter than the protocol minimum (45 bytes) or
    whose first byte is the chaff tag 0xFF is ignored: [handlePacket]
    returns with the whole relay state as it was, so no circuit is
    registered, touched or destroyed, nothing is scheduled and nothing is
    sent.  Every packet the chaff generator builds is such a packet. *)
Theorem short_and_chaff_packets_ignored na raw w now r :
  (length raw < 45)%nat ∨ raw !! 0%nat = Some xff →
  handlePacket na raw w now r = (Returned, r)
  ∧ (∀ size g frame, Chaff.chaffFrame size g = Some frame →
       length frame.1 = size
       ∧ handlePacket na frame.1 w now r = (Returned, r)).
Proof.
  intros Hign. split.
  - unfold handlePacket. case_bool_decide as Hlen; [done|].
    destruct Hign as [Hshort|Hchaff].
    + unfold NONCE_BYTES, MAC_BYTES in Hlen. lia.
    + rewrite Hchaff. by rewrite bool_decide_eq_true_2 by done.
  - intros size g frame Hframe. destruct size as [|n]; [done|].
    simpl in Hframe. injection Hframe as <-. simpl.
    rewrite length_fmap, length_seq. split; [done|].
    unfold handlePacket. case_bool_decide; [done|].
    by rewrite bool_decide_eq_true_2 by done.
Qed.

Lemma short_and_chaff_packets_ignored_witness :
  (length shortPacket < 45)%nat
  ∧ handlePacket inertSodium shortPacket 3%nat 1000 idleRelay = (Returned, idleRelay)
  ∧ handlePacket inertSodium (xff :: replicate 511 x5a) 3%nat 1000 idleRelay
    = (Returned, idleRelay).
Proof.
  assert (length shortPacket < 45)%nat as Hs by (vm_compute; lia).
  split_and!; [exact Hs| |].
  - apply (short_and_chaff_packets_ignored inertSodium shortPacket 3%nat 1000 idleRelay).
    by left.
  - apply (short_and_chaff_packets_ignored inertSodium (xff :: replicate 511 x5a)
             3%nat 1000 idleRelay).
    by right.
Defined.

End RelayFacts.

(* ===================================================================== *)
(** * More on the packet dispatcher and its cryptographic wrappers *)
(* ===================================================================== *)

Module RelayMore.
Import Buf Net Crypto Circuits Relay OMapFacts BufMore CircuitFacts.

Lemma randomBytes_length n g : length (randomBytes n g).1 = n.
Proof. unfold randomBytes. simpl. by rewrite length_fmap, length_seq. Qed.

Lemma padPacket_length data targetSize g :
  length (padPacket data targetSize g).1 = Nat.max targetSize (length data).
Proof.
  unfold padPacket. case_bool_decide; simpl; [lia|].
  rewrite length_app, length_fmap, length_seq. lia.
Qed.

Lemma padPacket_prefix data targetSize g :
  take (length data) (padPacket data targetSize g).1 = data.
Proof.
  unfold padPacket. case_bool_decide; simpl; [by rewrite take_ge|].
  by rewrite take_app_length.
Qed.

(** X24: padding never cuts a packet.  [padPacket] returns the data
    itself, drawing no random bytes, when it is already as long as the
    target; otherwise it returns [targetSize] bytes that start with the
    data, having drawn exactly the missing number of random bytes. *)
Theorem padPacket_never_truncates data targetSize g :
  length (padPacket data targetSize g).1 = Nat.max targetSize (length data)
  ∧ take (length data) (padPacket data targetSize g).1 = data
  ∧ drawn (padPacket data targetSize g).2 = (drawn g + (targetSize - length data))%nat
  ∧ ((targetSize ≤ length data)%nat → padPacket data targetSize g = (data, g)).
Proof.
  split; [apply padPacket_length|]. split; [apply padPacket_prefix|].
  unfold padPacket. case_bool_decide as Hlong; simpl; split; try done; lia.
Qed.

(** X25: [decrypt] undoes [encrypt].  When the primitive, for the nonce
    that [encrypt] draws, produces a ciphertext sixteen bytes longer than
    the plaintext and decrypts it back to the plaintext, then [decrypt] of
    what [encrypt] returned, under the same key and associated data, is the
    plaintext; the packet is [nonce(24) ‖ ciphertext] and 24 random bytes
    were drawn. *)
Theorem decrypt_undoes_encrypt na plaintext key aad g :
  let nonce := (randomBytes NONCE_BYTES g).1 in
  length (crypto_aead_encrypt na plaintext aad nonce key)
    = (length plaintext + MAC_BYTES)%nat →
  crypto_aead_decrypt na (crypto_aead_encrypt na plaintext aad nonce key) aad nonce key
    = Some plaintext →
  decrypt na (encrypt na plaintext key aad g).1 key aad = Some plaintext
  ∧ (encrypt na plaintext key aad g).1
    = nonce ++ crypto_aead_encrypt na plaintext aad nonce key
  ∧ length (encrypt na plaintext key aad g).1 = (24 + length plaintext + 16)%nat
  ∧ drawn (encrypt na plaintext key aad g).2 = (drawn g + 24)%nat.
Proof.
  intros nonce Hlen Hdec.
  assert (length nonce = NONCE_BYTES) as Hn by apply randomBytes_length.
  unfold encrypt, decrypt. fold nonce. cbn [fst snd].
  rewrite length_app, Hn, Hlen.
  rewrite bool_decide_eq_false_2 by (unfold NONCE_BYTES, MAC_BYTES; lia).
  rewrite <- Hn at 1 2. rewrite drop_app_length, take_app_length.
  split_and!; [done|done|unfold NONCE_BYTES, MAC_BYTES; lia|done].
Qed.

Lemma decrypt_undoes_encrypt_witness :
  decrypt tagSodium
    (encrypt tagSodium [x20; x00; x00; x01; x2a] (replicate 32 x05) (Some [x00; x00; x00; x07])
       (Rng (λ _, x00) 0)).1
    (replicate 32 x05) (Some [x00; x00; x00; x07])
  = Some [x20; x00; x00; x01; x2a].
Proof.
  apply (decrypt_undoes_encrypt tagSodium [x20; x00; x00; x01; x2a] (replicate 32 x05)
           (Some [x00; x00; x00; x07]) (Rng (λ _, x00) 0));
    vm_compute; reflexivity.
Defined.





Lemma take_of_prefix {A} n (l pre : list A) :
  take (length pre) l = pre → (n ≤ length pre)%nat → take n l = take n pre.
Proof.
  intros Hpre Hn. transitivity (take n (take (length pre) l)); [|by rewrite Hpre].
  rewrite take_take. f_equal. lia.
Qed.

Lemma read32_of_prefix (l pre : list byte) off v :
  take (length pre) l = pre → readUInt32BE pre off = Some v → readUInt32BE l off = Some v.
Proof.
  intros Hpre. unfold readUInt32BE.
  assert (∀ i x, pre !! i = Some x → l !! i = Some x) as Hlk.
  { intros i x Hi. rewrite <- Hpre in Hi. by apply lookup_take_Some in Hi as [? _]. }
  destruct (pre !! off) as [a|] eqn:Ha; [|done]. rewrite (Hlk _ _ Ha).
  destruct (pre !! (off + 1)%nat) as [b|] eqn:Hb; [|done]. rewrite (Hlk _ _ Hb).
  destruct (pre !! (off + 2)%nat) as [c|] eqn:Hc; [|done]. rewrite (Hlk _ _ Hc).
  destruct (pre !! (off + 3)%nat) as [d|] eqn:Hd; [|done]. by rewrite (Hlk _ _ Hd).
Qed.

Lemma read32_range (data : list byte) off v :
  readUInt32BE data off = Some v → 0 ≤ v < 4294967296.
Proof.
  unfold readUInt32BE.
  destruct (data !! off) as [a|]; [|done].
  destruct (data !! (off + 1)%nat) as [b|]; [|done].
  destruct (data !! (off + 2)%nat) as [c|]; [|done].
  destruct (data !! (off + 3)%nat) as [d|]; [|done]. simpl. intros [= <-].
  pose proof (octet_range a). pose proof (octet_range b).
  pose proof (octet_range c). pose proof (octet_range d). lia.
Qed.

Lemma copyInto_length n (src : list byte) : length (copyInto n src) = n.
Proof. unfold copyInto. rewrite length_app, length_take, length_replicate. lia. Qed.

(** X27: the first packet of a circuit registers it and is answered.  For
    a packet of at least 60 bytes that is not chaff and carries a circuit
    id that is not registered, when the session keys can be derived from
    the client key at bytes 28..59 and the registry has room:
    [handlePacket] returns; the circuit is registered under that id with
    the derived keys, the socket the packet came on and the current time;
    exactly one frame is sent, on that socket; the frame starts with
    ["SFPK"], then the relay's public key in 32 bytes, reads back as the
    circuit id at offset 60, and is at least [packetSize] bytes long; and
    nothing is scheduled. *)
Theorem first_packet_registers_and_is_answered na raw w now r cid keys :
  (60 ≤ length raw)%nat → octet <$> raw !! 0%nat ≠ Some MSG_CHAFF →
  readUInt32BE raw 24 = Some cid →
  OMap.get cid (circuits (circ r)) = None →
  deriveKeys na (subarray 28 60 raw) r = Some keys →
  Z.of_nat (OMap.size (circuits (circ r))) < maxCircuits (circ r) →
  ∃ r' frame,
    handlePacket na raw w now r = (Returned, r')
    ∧ Circuits.lookup cid (circ r')
      = Some (Circuit cid keys.1 keys.2 w None now None None)
    ∧ wire (Circuits.net (circ r')) = wire (Circuits.net (circ r)) ++ [WsSend w frame]
    ∧ take 4 frame = ofString "SFPK"
    ∧ take 32 (drop 4 frame) = copyInto 32 (publicKey (relayKeypair r))
    ∧ readUInt32BE frame 60 = Some cid
    ∧ (packetSize r ≤ length frame)%nat
    ∧ timers r' = timers r.
Proof.
  intros Hlen Hchaff Hcid Hnew Hkeys Hroom.
  destruct (read32_range _ _ _ Hcid) as [Hlo Hhi].
  destruct (writeUInt32BE cid) as [aad|] eqn:Haad; cycle 1.
  { unfold writeUInt32BE in Haad. rewrite bool_decide_eq_true_2 in Haad by lia. done. }
  assert (aadOf cid = aad) as Haad' by (unfold aadOf; by rewrite Haad).
  assert (length aad = 4%nat) as Hl4.
  { unfold writeUInt32BE in Haad. case_bool_decide; [|done]. by injection Haad as <-. }
  set (r1 := withCirc (registerCircuit cid keys.1 keys.2 w now (circ r)).2 r).
  set (reply := of_octet MSG_HANDSHAKE_REPLY :: copyInto KX_PK_BYTES (publicKey (relayKeypair r1))).
  set (e := encrypt na reply keys.2 (Some (aadOf cid)) (random r1)).
  set (r2 := withRandom e.2 r1).
  set (packet := ofString "SFPK" ++ copyInto KX_PK_BYTES (publicKey (relayKeypair r2))
                   ++ take NONCE_BYTES e.1 ++ aadOf cid ++ drop NONCE_BYTES e.1).
  set (p := padPacket packet (packetSize r2) (random r2)).
  assert (handlePacket na raw w now r = (Returned, wsSend w p.1 (withRandom p.2 r2))) as Hrun.
  { unfold handlePacket.
    rewrite bool_decide_eq_false_2 by (unfold NONCE_BYTES, MAC_BYTES; lia).
    rewrite bool_decide_eq_false_2 by done.
    change (readUInt32BE raw NONCE_BYTES) with (readUInt32BE raw 24). rewrite Hcid.
    unfold getCircuit. rewrite Hnew. cbn [fst snd mbind option_bind].
    assert (withCirc (circ r) r = r) as -> by by destruct r.
    unfold handleHandshake.
    rewrite bool_decide_eq_false_2 by (unfold NONCE_BYTES, KX_PK_BYTES; lia).
    change (subarray (NONCE_BYTES + 4) (NONCE_BYTES + 4 + KX_PK_BYTES) raw)
      with (subarray 28 60 raw).
    rewrite Hkeys.
    assert ((registerCircuit cid keys.1 keys.2 w now (circ r)).1 = true) as ->.
    { unfold registerCircuit. by rewrite bool_decide_eq_false_2 by lia. }
    done. }
  assert (length (take NONCE_BYTES e.1) = 24%nat) as Hnonce.
  { unfold e, encrypt. cbn [fst]. rewrite length_take, length_app, randomBytes_length.
    unfold NONCE_BYTES. lia. }
  assert (take (length packet) p.1 = packet) as Hprefix by apply padPacket_prefix.
  assert (64 ≤ length packet)%nat as Hp64.
  { unfold packet. rewrite !length_app, copyInto_length, Hnonce, Haad', Hl4.
    change (length (ofString "SFPK")) with 4%nat. unfold KX_PK_BYTES. lia. }
  exists (wsSend w p.1 (withRandom p.2 r2)), p.1.
  split_and!; [exact Hrun| | | | | | |].
  - unfold wsSend, r2, r1, registerCircuit. rewrite bool_decide_eq_false_2 by lia.
    unfold Circuits.lookup. simpl. rewrite get_set_eq. simpl.
    by rewrite lookup_insert_eq.
  - unfold wsSend, r2, r1, registerCircuit. by rewrite bool_decide_eq_false_2 by lia.
  - by rewrite (take_of_prefix 4 _ _ Hprefix) by lia.
  - rewrite take_drop_commute, (take_of_prefix (4 + 32) _ _ Hprefix) by lia.
    rewrite <- take_drop_commute. unfold packet.
    change (drop 4 (ofString "SFPK" ++ ?x)) with x.
    rewrite take_app_length'; [done|]. by rewrite copyInto_length.
  - assert (readUInt32BE packet 60 = Some cid) as Hread.
    { unfold packet. rewrite Haad'.
      pose proof (read32_write32 cid aad
                    (ofString "SFPK" ++ copyInto KX_PK_BYTES (publicKey (relayKeypair r2))
                       ++ take NONCE_BYTES e.1)
                    (drop NONCE_BYTES e.1) Haad) as Hrd.
      rewrite !length_app, copyInto_length, Hnonce in Hrd.
      rewrite <- !app_assoc in Hrd. exact Hrd. }
    by apply (read32_of_prefix _ _ _ _ Hprefix).
  - pose proof (padPacket_length packet (packetSize r2) (random r2)) as Hpl.
    fold p in Hpl. change (packetSize r2) with (packetSize r) in Hpl. lia.
  - done.
Qed.

Lemma first_packet_registers_and_is_answered_witness :
  ∃ frame,
    wire (Circuits.net (circ established)) = [WsSend 3%nat frame]
    ∧ length frame = 512%nat
    ∧ readUInt32BE frame 60 = Some 7
    ∧ Circuits.lookup 7 (circ established)
      = Some (Circuit 7 (replicate 32 x05) (replicate 32 x01) 3%nat None 1000 None None).
Proof.
  destruct (first_packet_registers_and_is_answered tagSodium helloPacket 3%nat 1000
              idleRelay 7 (replicate 32 x05, replicate 32 x01))
    as (r' & frame & Hrun & Hl & Hw & _ & _ & Hid & _);
    try (vm_compute; reflexivity); try (vm_compute; lia); try (vm_compute; discriminate).
  assert (r' = established) as -> by (unfold established; by rewrite Hrun).
  exists frame. split_and!; [exact Hw| |exact Hid|exact Hl].
  assert (wire (Circuits.net (circ established))
          = [WsSend 3%nat (default [] (match wire (Circuits.net (circ established)) with
                                        | [WsSend _ f] => Some f | _ => None end))]) as Hshape
    by (vm_compute; reflexivity).
  rewrite Hshape in Hw. injection Hw as <-. vm_compute. reflexivity.
Defined.

(** X28: a first packet that cannot be served leaves no trace.  When the
    packet is shorter than 60 bytes, or the session keys cannot be derived
    from the client key under the current key pair nor under the previous
    one, or the registry is full, [handleHandshake] returns with the relay
    state exactly as it was: no circuit is registered, nothing is sent and
    no random bytes are drawn. *)
Theorem unserved_handshake_leaves_no_trace na raw cid w now r :
  (length raw < 60)%nat
  ∨ deriveKeys na (subarray 28 60 raw) r = None
  ∨ maxCircuits (circ r) ≤ Z.of_nat (OMap.size (circuits (circ r))) →
  handleHandshake na raw cid w now r = r.
Proof.
  intros Hwhy. unfold handleHandshake. case_bool_decide as Hlen; [done|].
  change (subarray (NONCE_BYTES + 4) (NONCE_BYTES + 4 + KX_PK_BYTES) raw)
    with (subarray 28 60 raw).
  destruct Hwhy as [Hshort|[Hkeys|Hfull]].
  - unfold NONCE_BYTES, KX_PK_BYTES in Hlen. lia.
  - by rewrite Hkeys.
  - destruct (deriveKeys na _ r) as [keys|]; [|done].
    unfold registerCircuit. by rewrite bool_decide_eq_true_2.
Qed.

Lemma unserved_handshake_leaves_no_trace_witness :
  deriveKeys tagSodium (subarray 28 60 (replicate 60 x00)) idleRelay = None
  ∧ handlePacket tagSodium (replicate 60 x00) 3%nat 1000 idleRelay = (Returned, idleRelay).
Proof.
  assert (deriveKeys tagSodium (subarray 28 60 (replicate 60 x00)) idleRelay = None) as Hk
    by (vm_compute; reflexivity).
  split; [exact Hk|].
  assert (handlePacket tagSodium (replicate 60 x00) 3%nat 1000 idleRelay
          = (Returned, handleHandshake tagSodium (replicate 60 x00) 0 3%nat 1000 idleRelay))
    as -> by (vm_compute; reflexivity).
  rewrite (unserved_handshake_leaves_no_trace tagSodium (replicate 60 x00) 0 3%nat 1000
             idleRelay (or_intror (or_introl Hk))).
  reflexivity.
Defined.


End RelayMore.

(* ===================================================================== *)
(** * Properties of announcement verification *)
(* ===================================================================== *)

Module GossipFacts.
Import Buf Crypto Gossip.

Section Verification.
Variable na : sodium.
Variable hostname : string → option string.

Lemma verifyAnnouncement_true a now :
  verifyAnnouncement na hostname a now = true ↔
    url a ≠ "" ∧ pk a ≠ "" ∧ signPk a ≠ "" ∧ ts a ≠ 0 ∧ sig a ≠ ""
    ∧ (String.prefix "wss://" (url a) = true ∨ String.prefix "ws://" (url a) = true)
    ∧ (String.length (url a) ≤ 256)%nat
    ∧ isHex64 (pk a) = true ∧ isHex64 (signPk a) = true
    ∧ now - ANNOUNCE_MAX_AGE_MS ≤ ts a ∧ ts a ≤ now + ANNOUNCE_MAX_FUTURE_MS
    ∧ isInternalUrl hostname (url a) = false
    ∧ verify na (ofHex (sig a)) (signedMessage a) (ofHex (signPk a)) = true.
Proof.
  unfold verifyAnnouncement. split.
  - intros H.
    destruct (bool_decide (url a = "")) eqn:E1; [done|].
    destruct (bool_decide (pk a = "")) eqn:E2; [done|].
    destruct (bool_decide (signPk a = "")) eqn:E3; [done|].
    destruct (bool_decide (ts a = 0)) eqn:E4; [done|].
    destruct (bool_decide (sig a = "")) eqn:E5; [done|].
    simpl in H.
    apply bool_decide_eq_false in E1, E2, E3, E4, E5.
    destruct (String.prefix "wss://" (url a)) eqn:P1;
      destruct (String.prefix "ws://" (url a)) eqn:P2; simpl in H; try done;
      (case_bool_decide; [done|]);
      (destruct (isHex64 (pk a)); [|done]);
      (destruct (isHex64 (signPk a)); [|done]); simpl in H;
      (case_bool_decide; [done|]); (case_bool_decide; [done|]);
      (destruct (isInternalUrl hostname (url a)); [done|]);
      split_and!; try done; try lia; auto.
  - intros (H1 & H2 & H3 & H4 & H5 & Hp & Hl & Hk1 & Hk2 & Hold & Hfut & Hint & Hv).
    rewrite !bool_decide_eq_false_2 by done. simpl.
    assert (negb (String.prefix "wss://" (url a)) && negb (String.prefix "ws://" (url a))
            = false) as ->.
    { destruct Hp as [-> | ->]; simpl; [done|apply andb_false_r]. }
    rewrite bool_decide_eq_false_2 by lia. rewrite Hk1, Hk2. simpl.
    rewrite !bool_decide_eq_false_2 by lia. by rewrite Hint.
Qed.

End Verification.

Lemma isHex64_nonempty s : isHex64 s = true → s ≠ "".
Proof. by intros H ->. Qed.

(** C5: the code accepts an announcement for a loopback host.  For the URL
    [ws://127.0.0.2:9443], whose host 127.0.0.2 lies in 127.0.0.0/8: when
    the URL parser gives the host as written, the keys are 64 hex
    characters, the timestamp lies within [now - 10 min, now + 1 min] and
    the signature over [url|pk|ts] verifies, [verifyAnnouncement] answers
    [true], although the claim has such an announcement rejected. *)
Theorem loopback_announcement_accepted na hostname a now :
  url a = "ws://127.0.0.2:9443" →
  hostname "http://127.0.0.2:9443" = Some "127.0.0.2" →
  isHex64 (pk a) = true → isHex64 (signPk a) = true →
  sig a ≠ "" → ts a ≠ 0 →
  now - 600000 ≤ ts a → ts a ≤ now + 60000 →
  verify na (ofHex (sig a)) (signedMessage a) (ofHex (signPk a)) = true →
  internalHost "127.0.0.2" = true
  ∧ verifyAnnouncement na hostname a now = true.
Proof.
  intros Hurl Hhost Hpk Hspk Hsig Hts Hold Hnew Hv.
  split; [vm_compute; reflexivity|].
  apply verifyAnnouncement_true. rewrite Hurl.
  split_and!; try done.
  - by apply isHex64_nonempty.
  - by apply isHex64_nonempty.
  - right. vm_compute. reflexivity.
  - vm_compute. lia.
  - unfold isInternalUrl.
    assert (wsUrlToHttp "ws://127.0.0.2:9443" = "http://127.0.0.2:9443") as ->
      by (vm_compute; reflexivity).
    rewrite Hhost. vm_compute. reflexivity.
Qed.

Lemma loopback_announcement_accepted_witness :
  url loopbackAnnouncement = "ws://127.0.0.2:9443"
  ∧ plainHostname "http://127.0.0.2:9443" = Some "127.0.0.2"
  ∧ verify echoSodium (ofHex (sig loopbackAnnouncement))
      (signedMessage loopbackAnnouncement) (ofHex (signPk loopbackAnnouncement)) = true
  ∧ verifyAnnouncement echoSodium plainHostname loopbackAnnouncement 1700000000500
    = true.
Proof.
  assert (plainHostname "http://127.0.0.2:9443" = Some "127.0.0.2") as Hh
    by (vm_compute; reflexivity).
  assert (verify echoSodium (ofHex (sig loopbackAnnouncement))
            (signedMessage loopbackAnnouncement) (ofHex (signPk loopbackAnnouncement))
          = true) as Hv by (vm_compute; reflexivity).
  split_and!; [reflexivity|exact Hh|exact Hv|].
  apply (loopback_announcement_accepted echoSodium plainHostname loopbackAnnouncement
           1700000000500 eq_refl Hh); try (vm_compute; reflexivity);
    try (vm_compute; discriminate).
Defined.

End GossipFacts.

(* ===================================================================== *)
(** * More on announcements *)
(* ===================================================================== *)

Module GossipMore.
Import Buf Crypto Gossip BufFacts GossipFacts.

(** X22: what an accepted announcement is known to satisfy.  If
    [verifyAnnouncement] answers [true], then the URL starts with [ws://] or
    [wss://] and has at most 256 characters, both keys are 64 hex
    characters, the timestamp is at most 10 minutes behind and at most 1
    minute ahead of the receiver's clock, the URL parses and its host is
    none of the names and prefixes that [isInternalUrl] lists, and the
    signature primitive returned [true] for the signature over
    [url|pk|ts]: an exception of the primitive never counts as
    acceptance. *)
Theorem accepted_announcement_is_fresh_and_signed na hostname a now :
  verifyAnnouncement na hostname a now = true →
  (String.prefix "wss://" (url a) = true ∨ String.prefix "ws://" (url a) = true)
  ∧ (String.length (url a) ≤ 256)%nat
  ∧ isHex64 (pk a) = true ∧ isHex64 (signPk a) = true
  ∧ now - 600000 ≤ ts a ∧ ts a ≤ now + 60000
  ∧ (∃ h, hostname (wsUrlToHttp (url a)) = Some h
          ∧ blockedName h = false ∧ blockedV6Pattern h = false)
  ∧ crypto_sign_verify_detached na (ofHex (sig a)) (signedMessage a) (ofHex (signPk a))
    = Some true.
Proof.
  intros Hacc. apply verifyAnnouncement_true in Hacc.
  destruct Hacc as (_ & _ & _ & _ & _ & Hp & Hl & Hk1 & Hk2 & Hold & Hfut & Hint & Hv).
  unfold ANNOUNCE_MAX_AGE_MS in Hold. unfold ANNOUNCE_MAX_FUTURE_MS in Hfut.
  split_and!; try done.
  - unfold isInternalUrl in Hint.
    destruct (hostname (wsUrlToHttp (url a))) as [h|]; [|done].
    apply orb_false_iff in Hint as [? ?]. by exists h.
  - unfold verify in Hv.
    destruct (crypto_sign_verify_detached na _ _ _) as [[|]|]; done.
Qed.

Lemma accepted_announcement_is_fresh_and_signed_witness :
  verifyAnnouncement echoSodium plainHostname publicAnnouncement 1700000000500 = true
  ∧ plainHostname (wsUrlToHttp (url publicAnnouncement)) = Some "relay.example.org"
  ∧ 1700000000500 - 600000 ≤ ts publicAnnouncement.
Proof.
  assert (verifyAnnouncement echoSodium plainHostname publicAnnouncement 1700000000500
          = true) as Hacc by (vm_compute; reflexivity).
  destruct (accepted_announcement_is_fresh_and_signed _ _ _ _ Hacc)
    as (_ & _ & _ & _ & Hold & _).
  split_and!; [exact Hacc|vm_compute; reflexivity|exact Hold].
Defined.

Lemma toHex_nonempty (data : list byte) : data ≠ [] → toHex data ≠ "".
Proof. by destruct data. Qed.

(** X23: a relay's own announcement verifies.  For a relay configured with
    a [ws://] or [wss://] URL of at most 256 characters that is not
    internal and with keys of 64 hex characters, whose signature primitive
    produces a non-empty signature that verifies under the relay's public
    signing key: the announcement that [getAnnouncement] builds at time [t]
    is accepted by [verifyAnnouncement] on every receiver whose clock reads
    between [t - 1 min] and [t + 10 min]. *)
Theorem own_announcement_verifies na hostname myUrl myPk mySignPk mySignSk t now :
  String.prefix "wss://" myUrl = true ∨ String.prefix "ws://" myUrl = true →
  (String.length myUrl ≤ 256)%nat →
  isHex64 myPk = true → isHex64 mySignPk = true →
  isInternalUrl hostname myUrl = false →
  t ≠ 0 → t - 60000 ≤ now → now ≤ t + 600000 →
  let a := getAnnouncement na myUrl myPk mySignPk mySignSk t in
  sign na (signedMessage a) mySignSk ≠ [] →
  crypto_sign_verify_detached na (sign na (signedMessage a) mySignSk) (signedMessage a)
    (ofHex mySignPk) = Some true →
  verifyAnnouncement na hostname a now = true.
Proof.
  intros Hp Hl Hk1 Hk2 Hint Ht Hlo Hhi a Hne Hv.
  apply verifyAnnouncement_true.
  assert (sig a = toHex (sign na (signedMessage a) mySignSk)) as Hsig by done.
  assert (url a ≠ "") as Hurl.
  { simpl. intros ->. by destruct Hp. }
  unfold ANNOUNCE_MAX_AGE_MS, ANNOUNCE_MAX_FUTURE_MS.
  split_and!; try done; try (simpl; lia).
  - simpl. by apply isHex64_nonempty.
  - simpl. by apply isHex64_nonempty.
  - rewrite Hsig. by apply toHex_nonempty.
  - rewrite Hsig, ofHex_toHex. unfold verify. simpl signPk. by rewrite Hv.
Qed.

Lemma own_announcement_verifies_witness :
  isInternalUrl plainHostname "wss://relay.example.org" = false
  ∧ verifyAnnouncement echoSodium plainHostname publicAnnouncement 1700000599000 = true.
Proof.
  assert (isInternalUrl plainHostname "wss://relay.example.org" = false) as Hint
    by (vm_compute; reflexivity).
  split; [exact Hint|].
  apply (own_announcement_verifies echoSodium plainHostname "wss://relay.example.org"
           (hexOf 64 "a") (hexOf 64 "b") (ofHex (hexOf 64 "b")) 1700000000000
           1700000599000);
    try (vm_compute; reflexivity); try (vm_compute; discriminate).
  - left. vm_compute. reflexivity.
  - vm_compute. lia.
Defined.

End GossipMore.
